(** * Digit Destroyer: the grid mechanics engine of [assets/js/app.js]

    A shallow embedding of the [DigitDestroyer] class (board mechanics,
    scoring, level and countdown state machine, power-ups, and the
    timer callbacks it schedules) together with the properties of its
    natural-language specification.

    Conventions. JavaScript numbers are integers here ([Z]), and a
    number made from [Math.random()] is rounded as the double it is;
    the object [this] is a record passed from call to call; a call that
    can throw or that recurses on fuel returns a [result]. The page
    (DOM nodes, styles, sounds) is not modelled, except for what the
    engine reads back from it: which power-up elements are still
    attached, and which cells have an element. [setTimeout] and
    [setInterval] register tasks with a due time in milliseconds, and
    [Math.random] reads a tape. *)

From Stdlib Require Import Ascii.
From stdpp Require Import base numbers list strings pretty gmap relations sorting.

Set Warnings "-clear-no-such-hyp".

Open Scope Z_scope.

(** ** JavaScript values stored in the grid

    A grid slot holds a number, [null] (the empty marker written by
    [destroyCells] and [dropCells]) or, when read outside a row,
    [undefined]. *)

Inductive value : Type :=
  | Num (z : Z)
  | Null
  | Undefined.

Global Instance value_eq_dec : EqDecision value.
Proof. solve_decision. Defined.

(** [a === b] and [a !== b] on such values. *)
Definition strict_eq (a b : value) : bool := bool_decide (a = b).
Definition strict_ne (a b : value) : bool := negb (strict_eq a b).

(** ** Outcome of a call: a value, a thrown [TypeError], or no more fuel *)

Inductive result (A : Type) : Type :=
  | Ret (a : A)
  | Throw
  | OutOfFuel.
Arguments Ret {A} a.
Arguments Throw {A}.
Arguments OutOfFuel {A}.

Global Instance result_ret : MRet result := fun A a => Ret a.
Global Instance result_bind : MBind result := fun A B k m =>
  match m with
  | Ret a => k a
  | Throw => Throw
  | OutOfFuel => OutOfFuel
  end.

(** ** The grid: [this.grid], an array of rows *)

Abbreviation Grid := (list (list value)).
Abbreviation Cell := (Z * Z)%type.

(** [row[c]]: [undefined] outside the row. *)
Definition row_at (row : list value) (c : Z) : value :=
  if decide (0 <= c) then default Undefined (row !! Z.to_nat c) else Undefined.

(** [this.grid[r][c]]: reading a property of the missing row
    [this.grid[r]] throws. *)
Definition grid_at (g : Grid) (r c : Z) : result value :=
  if decide (0 <= r) then
    match g !! Z.to_nat r with
    | Some row => Ret (row_at row c)
    | None => Throw
    end
  else Throw.

(** [this.grid[r][c] = v]; the callers only write inside the grid. *)
Definition grid_set (g : Grid) (r c : Z) (v : value) : Grid :=
  if decide (0 <= r /\ 0 <= c) then
    match g !! Z.to_nat r with
    | Some row => <[Z.to_nat r := <[Z.to_nat c := v]> row]> g
    | None => g
    end
  else g.

Definition in_bounds (size : Z) (r c : Z) : bool :=
  bool_decide (0 <= r) && bool_decide (r < size)
  && bool_decide (0 <= c) && bool_decide (c < size).

(** ** Connectivity finder: [findConnectedCells] *)

(** The key [`${r}-${c}`] under which a cell is recorded in [visited]. *)
Definition cellKey (r c : Z) : string := pretty r +:+ "-" +:+ pretty c.

Definition dirs : list (Z * Z) := [(-1, 0); (1, 0); (0, -1); (0, 1)].

Section Visit.
(** The [for (let [dr, dc] of dirs)] loop of one call, over the
    recursive call [rec] it makes on the accepted neighbours. *)
Variable rec : Z -> Z -> gset string -> result (list Cell * gset string).
Variables (g : Grid) (size : Z) (digit : value) (r c : Z).

Fixpoint visitDirs (ds : list (Z * Z)) (out : list Cell) (visited : gset string)
  : result (list Cell * gset string) :=
  match ds with
  | [] => Ret (out, visited)
  | (dr, dc) :: ds' =>
      let nr := r + dr in
      let nc := c + dc in
      if in_bounds size nr nc then
        v ← grid_at g nr nc;
        if strict_eq v digit then
          '(sub, visited') ← rec nr nc visited;
          visitDirs ds' (out ++ sub) visited'
        else visitDirs ds' out visited
      else visitDirs ds' out visited
  end.
End Visit.

(** The recursion of [findConnectedCells]; [visited] is the shared
    [Set], threaded through the calls. *)
Fixpoint findConnectedCells_rec (fuel : nat) (g : Grid) (size : Z)
    (digit : value) (r c : Z) (visited : gset string)
  : result (list Cell * gset string) :=
  match fuel with
  | O => OutOfFuel
  | S fuel' =>
      let key := cellKey r c in
      if decide (key ∈ visited) then Ret ([], visited)
      else
        v ← grid_at g r c;
        if strict_ne v digit then Ret ([], visited)
        else
          visitDirs (findConnectedCells_rec fuel' g size digit)
            g size digit r c dirs [(r, c)] ({[key]} ∪ visited)
  end.

(** One unit of fuel per cell of the board, and one for the first call. *)
Definition findFuel (size : Z) : nat := S (Z.to_nat size * Z.to_nat size).

Definition findConnectedCells (g : Grid) (size : Z) (r c : Z) (digit : value)
  : result (list Cell) :=
  '(out, _) ← findConnectedCells_rec (findFuel size) g size digit r c ∅;
  Ret out.

(** ** Gravity: [dropCells] *)

(** One iteration of the inner loop: [row] is the row read, [write]
    the row the next non-empty value lands in. *)
Definition dropCell (col row : Z) (acc : result (Grid * Z)) : result (Grid * Z) :=
  '(g, write) ← acc;
  v ← grid_at g row col;
  if strict_ne v Null then
    let g' :=
      if decide (row ≠ write)
      then grid_set (grid_set g write col v) row col Null
      else g in
    Ret (g', write - 1)
  else Ret (g, write).

(** The inner loop, [for (let row = size - 1; row >= 0; row--)]. *)
Definition dropColumn (size : Z) (g : Grid) (col : Z) : result Grid :=
  '(g', _) ← foldl (fun acc row => dropCell col row acc)
                   (Ret (g, size - 1)) (reverse (seqZ 0 size));
  Ret g'.

Definition dropCells (size : Z) (g : Grid) : result Grid :=
  foldl (fun acc col => g' ← acc; dropColumn size g' col) (Ret g) (seqZ 0 size).

(** ** The session and its browser environment *)

(** The five kinds in [types] of [spawnPowerUps], in that order. *)
Inductive powerType : Type :=
  | TimeBoost      (* "⚡" *)
  | MegaExplosion  (* "💣" *)
  | BonusPoints    (* "🎯" *)
  | ComboBoost     (* "⭐" *)
  | DigitClear.    (* "🔥" *)

Global Instance powerType_eq_dec : EqDecision powerType.
Proof. solve_decision. Defined.

Definition types : list powerType :=
  [TimeBoost; MegaExplosion; BonusPoints; ComboBoost; DigitClear].

(** Callbacks handed to [setInterval] and [setTimeout] that touch the
    session; callbacks that only remove a DOM node are left out. *)
Inductive callback : Type :=
  | CbTick (id : nat)            (* _startTimer: the 1000 ms interval *)
  | CbStartCooldown              (* handleStartButton: 250 ms *)
  | CbDestroy (row col : Z)      (* destroyCells: 250 ms *)
  | CbSettle                     (* dropCells(); fillEmptySpaces(): 500 ms *)
  | CbFill                       (* fillEmptySpaces: 800 ms *)
  | CbComboDecay                 (* calculateScore: 3000 ms *)
  | CbComboBoostEnd              (* activatePowerUp, "⭐": 3000 ms *)
  | CbPowerUpExpire (id : nat)   (* spawnPowerUps: 5000 ms *)
  | CbSpawn.                     (* spawnPowerUps: 8000 ms and more *)

Global Instance callback_eq_dec : EqDecision callback.
Proof. solve_decision. Defined.

Record task : Type := Task { due : Z; cb : callback }.

(** What the engine hands to its collaborators (sound, score posting). *)
Inductive signal : Type :=
  | SfxTick (timeLeft : Z)       (* the low-time warning *)
  | SfxInvalid                   (* rejected selection *)
  | SfxLevelUp (level : Z)
  | PostScore (score : Z)        (* postScore(this.score) in endGame *)
  | SfxGameOver.

Global Instance signal_eq_dec : EqDecision signal.
Proof. solve_decision. Defined.

(** The [DigitDestroyer] object and the environment it runs in. The
    fields [selectedCells], [previewCells] (the hover preview) and
    [sound] hold nothing the engine computes with and are left out. *)
Record Game : Type := MkGame {
  (* fields of the DigitDestroyer object *)
  grid : Grid;
  gridSize : Z;
  score : Z;
  timeLeft : Z;
  combo : Z;
  level : Z;
  isPlaying : bool;
  isPaused : bool;
  timer : option nat;            (* interval id, or null *)
  powerUps : list (nat * powerType);
  _startCooldown : bool;
  _lastTickPlayed : option Z;    (* null or a number *)
  (* the environment: clock in ms, pending timers, ids, Math.random *)
  now : Z;
  tasks : list task;
  nextId : nat;
  tape : nat -> Z;
  drawn : nat;
  emitted : list signal
}.

(** Field assignment, [this.f = v]: one setter per assigned field. *)

Definition set_grid (v : Grid) (st : Game) : Game :=
  MkGame v (gridSize st) (score st) (timeLeft st) (combo st) (level st)
    (isPlaying st) (isPaused st) (timer st) (powerUps st) (_startCooldown st)
    (_lastTickPlayed st) (now st) (tasks st) (nextId st) (tape st) (drawn st)
    (emitted st).

Definition set_score (v : Z) (st : Game) : Game :=
  MkGame (grid st) (gridSize st) v (timeLeft st) (combo st) (level st)
    (isPlaying st) (isPaused st) (timer st) (powerUps st) (_startCooldown st)
    (_lastTickPlayed st) (now st) (tasks st) (nextId st) (tape st) (drawn st)
    (emitted st).

Definition set_timeLeft (v : Z) (st : Game) : Game :=
  MkGame (grid st) (gridSize st) (score st) v (combo st) (level st)
    (isPlaying st) (isPaused st) (timer st) (powerUps st) (_startCooldown st)
    (_lastTickPlayed st) (now st) (tasks st) (nextId st) (tape st) (drawn st)
    (emitted st).

Definition set_combo (v : Z) (st : Game) : Game :=
  MkGame (grid st) (gridSize st) (score st) (timeLeft st) v (level st)
    (isPlaying st) (isPaused st) (timer st) (powerUps st) (_startCooldown st)
    (_lastTickPlayed st) (now st) (tasks st) (nextId st) (tape st) (drawn st)
    (emitted st).

Definition set_level (v : Z) (st : Game) : Game :=
  MkGame (grid st) (gridSize st) (score st) (timeLeft st) (combo st) v
    (isPlaying st) (isPaused st) (timer st) (powerUps st) (_startCooldown st)
    (_lastTickPlayed st) (now st) (tasks st) (nextId st) (tape st) (drawn st)
    (emitted st).

Definition set_isPlaying (v : bool) (st : Game) : Game :=
  MkGame (grid st) (gridSize st) (score st) (timeLeft st) (combo st)
    (level st) v (isPaused st) (timer st) (powerUps st) (_startCooldown st)
    (_lastTickPlayed st) (now st) (tasks st) (nextId st) (tape st) (drawn st)
    (emitted st).

Definition set_isPaused (v : bool) (st : Game) : Game :=
  MkGame (grid st) (gridSize st) (score st) (timeLeft st) (combo st)
    (level st) (isPlaying st) v (timer st) (powerUps st) (_startCooldown st)
    (_lastTickPlayed st) (now st) (tasks st) (nextId st) (tape st) (drawn st)
    (emitted st).

Definition set_timer (v : option nat) (st : Game) : Game :=
  MkGame (grid st) (gridSize st) (score st) (timeLeft st) (combo st)
    (level st) (isPlaying st) (isPaused st) v (powerUps st)
    (_startCooldown st) (_lastTickPlayed st) (now st) (tasks st) (nextId st)
    (tape st) (drawn st) (emitted st).

Definition set_powerUps (v : list (nat * powerType)) (st : Game) : Game :=
  MkGame (grid st) (gridSize st) (score st) (timeLeft st) (combo st)
    (level st) (isPlaying st) (isPaused st) (timer st) v (_startCooldown st)
    (_lastTickPlayed st) (now st) (tasks st) (nextId st) (tape st) (drawn st)
    (emitted st).

Definition set_startCooldown (v : bool) (st : Game) : Game :=
  MkGame (grid st) (gridSize st) (score st) (timeLeft st) (combo st)
    (level st) (isPlaying st) (isPaused st) (timer st) (powerUps st) v
    (_lastTickPlayed st) (now st) (tasks st) (nextId st) (tape st) (drawn st)
    (emitted st).

Definition set_lastTickPlayed (v : option Z) (st : Game) : Game :=
  MkGame (grid st) (gridSize st) (score st) (timeLeft st) (combo st)
    (level st) (isPlaying st) (isPaused st) (timer st) (powerUps st)
    (_startCooldown st) v (now st) (tasks st) (nextId st) (tape st) (drawn st)
    (emitted st).

Definition set_now (v : Z) (st : Game) : Game :=
  MkGame (grid st) (gridSize st) (score st) (timeLeft st) (combo st)
    (level st) (isPlaying st) (isPaused st) (timer st) (powerUps st)
    (_startCooldown st) (_lastTickPlayed st) v (tasks st) (nextId st)
    (tape st) (drawn st) (emitted st).

Definition set_tasks (v : list task) (st : Game) : Game :=
  MkGame (grid st) (gridSize st) (score st) (timeLeft st) (combo st)
    (level st) (isPlaying st) (isPaused st) (timer st) (powerUps st)
    (_startCooldown st) (_lastTickPlayed st) (now st) v (nextId st) (tape st)
    (drawn st) (emitted st).

Definition set_nextId (v : nat) (st : Game) : Game :=
  MkGame (grid st) (gridSize st) (score st) (timeLeft st) (combo st)
    (level st) (isPlaying st) (isPaused st) (timer st) (powerUps st)
    (_startCooldown st) (_lastTickPlayed st) (now st) (tasks st) v (tape st)
    (drawn st) (emitted st).

Definition set_drawn (v : nat) (st : Game) : Game :=
  MkGame (grid st) (gridSize st) (score st) (timeLeft st) (combo st)
    (level st) (isPlaying st) (isPaused st) (timer st) (powerUps st)
    (_startCooldown st) (_lastTickPlayed st) (now st) (tasks st) (nextId st)
    (tape st) v (emitted st).

Definition set_emitted (v : list signal) (st : Game) : Game :=
  MkGame (grid st) (gridSize st) (score st) (timeLeft st) (combo st)
    (level st) (isPlaying st) (isPaused st) (timer st) (powerUps st)
    (_startCooldown st) (_lastTickPlayed st) (now st) (tasks st) (nextId st)
    (tape st) (drawn st) v.

(** ** Environment primitives *)

(** [setTimeout(c, delay)]: the callback becomes pending. *)
Definition setTimeout (c : callback) (delay : Z) (st : Game) : Game :=
  set_tasks (tasks st ++ [Task (now st + delay) c]) st.

Definition emit (sg : signal) (st : Game) : Game :=
  set_emitted (emitted st ++ [sg]) st.

(** [Math.random()] is the double [u / randomUnit] for the next [u] of
    the tape, reduced to [0 <= u < randomUnit]. The tape holds the
    numbers the engine computes with; those drawn for sounds,
    particles and positions on the page are not on it. *)
Definition randomUnit : Z := 2 ^ 53.

Definition mathRandom (st : Game) : Z * Game :=
  (tape st (drawn st) `mod` randomUnit, set_drawn (S (drawn st)) st).

(** Arithmetic on numbers is arithmetic on doubles: the exact result
    is rounded to 53 significant bits, to the nearest and on a tie to
    the even one. A number is held as its numerator [m] over
    [randomUnit]; [roundDouble m] is the numerator of the double that
    [m / randomUnit] rounds to. The numbers of this program stay far
    from the smallest and the largest double. *)
Definition roundDouble (m : Z) : Z :=
  let a := Z.abs m in
  let e := Z.log2 a - 52 in
  if decide (e <= 0) then m
  else
    let q := a `div` (2 ^ e) in
    let r := a `mod` (2 ^ e) in
    let half := 2 ^ (e - 1) in
    let q :=
      if decide (r < half) then q
      else if decide (r = half ∧ Z.even q = true) then q
      else q + 1 in
    Z.sgn m * (q * 2 ^ e).

(** [Math.random() * n] for the number [u / randomUnit] drawn. *)
Definition timesDouble (u n : Z) : Z := roundDouble (u * n).

(** [Math.floor(x)] of the double with numerator [m]. *)
Definition mathFloor (m : Z) : Z := m `div` randomUnit.

(** [Math.floor(Math.random() * n)]. *)
Definition floorRandom (n : Z) (st : Game) : Z * Game :=
  let '(u, st) := mathRandom st in (mathFloor (timesDouble u n), st).

(** [Math.random() < 0.3]: the literal is the double
    5404319552844595 / 2^54. *)
Definition belowThreeTenths (u : Z) : Prop := 2 * u < 5404319552844595.

Global Instance belowThreeTenths_dec (u : Z) : Decision (belowThreeTenths u).
Proof. unfold belowThreeTenths. apply _. Defined.

(** The delay [8000 + Math.random() * 7000] as [setTimeout] takes it:
    the sum is a double, and a delay is converted to an integer by
    dropping its fraction. *)
Definition spawnDelay (u : Z) : Z :=
  mathFloor (roundDouble (8000 * randomUnit + timesDouble u 7000)).

(** ** Grid model: [initializeGrid] *)

Fixpoint randomRow (n : nat) (st : Game) : list value * Game :=
  match n with
  | O => ([], st)
  | S n' =>
      let '(digit, st) := floorRandom 10 st in
      let '(row, st) := randomRow n' st in
      (Num digit :: row, st)
  end.

Fixpoint randomRows (m n : nat) (st : Game) : Grid * Game :=
  match m with
  | O => ([], st)
  | S m' =>
      let '(row, st) := randomRow n st in
      let '(rows, st) := randomRows m' n st in
      (row :: rows, st)
  end.

Definition initializeGrid (st : Game) : Game :=
  let n := Z.to_nat (gridSize st) in
  let '(g, st) := randomRows n n st in
  set_grid g st.

(** ** Countdown: [_stopTimer], [_startTimer], [endGame] *)

(** [if (this.timer) clearInterval(this.timer); this.timer = null]:
    interval ids start at 1, so an id is never falsy. *)
Definition _stopTimer (st : Game) : Game :=
  let st :=
    match timer st with
    | Some id => set_tasks (filter (fun t => cb t ≠ CbTick id) (tasks st)) st
    | None => st
    end in
  set_timer None st.

(** [_startTimer] up to the registration of the interval, whose
    callback is [timerTick] below. *)
Definition _startTimer (st : Game) : Game :=
  let st := _stopTimer st in
  let st := set_lastTickPlayed None st in
  let id := nextId st in
  let st := set_nextId (S id) st in
  let st := set_tasks (tasks st ++ [Task (now st + 1000) (CbTick id)]) st in
  set_timer (Some id) st.

(** Every listed element is taken off the page and the list emptied. *)
Definition clearPowerUps (st : Game) : Game := set_powerUps [] st.

Definition endGame (st : Game) : Game :=
  let st := set_isPlaying false st in
  let st := _stopTimer st in
  let st := clearPowerUps st in
  let st := emit (PostScore (score st)) st in
  emit SfxGameOver st.

(** The body of the interval callback of [_startTimer]; the offer of
    a rewarded video at 10 seconds only rewrites the page. *)
Definition timerTick (st : Game) : Game :=
  if isPaused st then st
  else
    let st := set_timeLeft (timeLeft st - 1) st in
    let st :=
      if decide (timeLeft st <= 10 ∧ timeLeft st >= 0) then
        if decide (_lastTickPlayed st ≠ Some (timeLeft st)) then
          let st := emit (SfxTick (timeLeft st)) st in
          set_lastTickPlayed (Some (timeLeft st)) st
        else st
      else st in
    if decide (timeLeft st <= 0) then endGame st else st.

(** ** Scoring engine: [calculateScore] and the level-up step *)

Definition calculateScore (n : Z) (st : Game) : Game :=
  let base := n * 10 in
  let bonus := Z.max 0 ((n - 2) * 15) in
  let comboBonus := combo st * 5 in
  let levelBonus := level st * 2 in
  let total := base + bonus + comboBonus + levelBonus in
  let st := set_score (score st + total) st in
  let st := set_combo (combo st + 1) st in
  setTimeout CbComboDecay 3000 st.

(** The callback [calculateScore] schedules. *)
Definition comboDecay (st : Game) : Game :=
  if decide (combo st > 0) then set_combo (Z.max 0 (combo st - 1)) st else st.

(** [this.level++; ...; this.sound.sfxLevelUp()]. *)
Definition levelUp (st : Game) : Game :=
  let st := set_level (level st + 1) st in
  emit (SfxLevelUp (level st)) st.

(** ** Match resolver: [destroyCells], [handleCellClick], the settle cycle *)

(** The cell elements of the page are those of the board. *)
Definition destroyCells (cells : list Cell) (st : Game) : Game :=
  foldl (fun st '(row, col) =>
           if in_bounds (gridSize st) row col
           then setTimeout (CbDestroy row col) 250 st
           else st) st cells.

(** [row] and [col] are the [dataset] of the clicked cell element. *)
Definition handleCellClick (row col : Z) (st : Game) : result Game :=
  if negb (isPlaying st) || isPaused st then Ret st
  else
    digit ← grid_at (grid st) row col;
    connectedCells ← findConnectedCells (grid st) (gridSize st) row col digit;
    let n := Z.of_nat (length connectedCells) in
    if decide (n >= 2) then
      let st := destroyCells connectedCells st in
      let st := calculateScore n st in
      let st := setTimeout CbSettle 500 st in
      if decide (score st > level st * 600 ∧ level st <= 15)
      then Ret (levelUp st)
      else Ret st
    else Ret (emit SfxInvalid st).

(** [fillEmptySpaces] only schedules its loop. *)
Definition fillEmptySpaces (st : Game) : Game := setTimeout CbFill 800 st.

(** The callback of the settle timeout: [dropCells(); fillEmptySpaces()]. *)
Definition settle (st : Game) : result Game :=
  g ← dropCells (gridSize st) (grid st);
  Ret (fillEmptySpaces (set_grid g st)).

(** The loop body of the callback of [fillEmptySpaces]. *)
Definition fillCell (r c : Z) (acc : result Game) : result Game :=
  st ← acc;
  v ← grid_at (grid st) r c;
  if strict_eq v Null then
    let '(digit, st) := floorRandom 10 st in
    Ret (set_grid (grid_set (grid st) r c (Num digit)) st)
  else Ret st.

Definition fillEmpty (st : Game) : result Game :=
  foldl (fun acc r => foldl (fun acc c => fillCell r c acc) acc
                            (seqZ 0 (gridSize st)))
        (Ret st) (seqZ 0 (gridSize st)).

(** ** Power-ups *)

(** The loop of [explodeRandomCells]: eight draws of a cell, kept when
    not already drawn. *)
Fixpoint pickCells (n : nat) (cells : list Cell) (st : Game) : list Cell * Game :=
  match n with
  | O => (cells, st)
  | S n' =>
      let '(row, st) := floorRandom (gridSize st) st in
      let '(col, st) := floorRandom (gridSize st) st in
      let cells :=
        if decide ((row, col) ∈ cells) then cells else cells ++ [(row, col)] in
      pickCells n' cells st
  end.

Definition explodeRandomCells (st : Game) : Game :=
  let '(cells, st) := pickCells 8 [] st in
  let st := destroyCells cells st in
  let st := set_score (score st + Z.of_nat (length cells) * 20) st in
  let st := if decide (score st > level st * 600) then levelUp st else st in
  setTimeout CbSettle 500 st.

(** The scan of [clearRandomDigit], row by row. *)
Definition scanCell (g : Grid) (target : value) (r c : Z)
    (acc : result (list Cell)) : result (list Cell) :=
  cells ← acc;
  v ← grid_at g r c;
  if strict_eq v target then Ret (cells ++ [(r, c)]) else Ret cells.

Definition cellsHolding (size : Z) (g : Grid) (target : value) : result (list Cell) :=
  foldl (fun acc r => foldl (fun acc c => scanCell g target r c acc) acc
                            (seqZ 0 size))
        (Ret []) (seqZ 0 size).

Definition clearRandomDigit (st : Game) : result Game :=
  let '(target, st) := floorRandom 10 st in
  cells ← cellsHolding (gridSize st) (grid st) (Num target);
  if decide (cells ≠ []) then
    let st := destroyCells cells st in
    let st := set_score (score st + Z.of_nat (length cells) * 15) st in
    let st := if decide (score st > level st * 600) then levelUp st else st in
    Ret (setTimeout CbSettle 500 st)
  else Ret st.

(** The callback of the "⭐" power-up. *)
Definition comboBoostEnd (st : Game) : Game := set_combo (combo st - 3) st.

(** [el] identifies the clicked element. *)
Definition activatePowerUp (type : powerType) (el : nat) (st : Game) : result Game :=
  let st := set_powerUps (filter (fun p => p.1 ≠ el) (powerUps st)) st in
  match type with
  | TimeBoost => Ret (set_timeLeft (timeLeft st + 10) st)
  | MegaExplosion => Ret (explodeRandomCells st)
  | BonusPoints =>
      let st := set_score (score st + 500) st in
      if decide (score st > level st * 600) then Ret (levelUp st) else Ret st
  | ComboBoost =>
      let st := set_combo (combo st + 3) st in
      Ret (setTimeout CbComboBoostEnd 3000 st)
  | DigitClear => clearRandomDigit st
  end.

(** The expiry callback of a spawned power-up: [if (n.parentNode)];
    an element is attached as long as it is listed in [powerUps]. *)
Definition powerUpExpire (el : nat) (st : Game) : Game :=
  if decide (el ∈ (powerUps st).*1)
  then set_powerUps (filter (fun p => p.1 ≠ el) (powerUps st)) st
  else st.

(** [spawnPowerUps]; the two draws that place the element on the page
    are not modelled. *)
Definition spawnPowerUps (st : Game) : Game :=
  if negb (isPlaying st) then st
  else
    let '(u, st) := mathRandom st in
    let st :=
      if decide (belowThreeTenths u) then
        let '(i, st) := floorRandom (Z.of_nat (length types)) st in
        let t := default TimeBoost (types !! Z.to_nat i) in
        let n := nextId st in
        let st := set_nextId (S n) st in
        let st := set_powerUps (powerUps st ++ [(n, t)]) st in
        setTimeout (CbPowerUpExpire n) 5000 st
      else st in
    let '(u, st) := mathRandom st in
    setTimeout CbSpawn (spawnDelay u) st.

(** ** Controls *)

(** [startGame]; its start fanfare is the level-up sound. *)
Definition startGame (st : Game) : Game :=
  let st := set_isPlaying true st in
  let st := set_isPaused false st in
  let st := set_timeLeft 60 st in
  let st := set_score 0 st in
  let st := set_combo 0 st in
  let st := set_level 1 st in
  let st := _stopTimer st in
  let st := _startTimer st in
  let st := clearPowerUps st in
  let st := spawnPowerUps st in
  emit (SfxLevelUp (level st)) st.

Definition pauseGame (st : Game) : Game :=
  if isPaused st then _startTimer (set_isPaused false st)
  else _stopTimer (set_isPaused true st).

Definition resetGame (st : Game) : Game :=
  let st := set_isPlaying false st in
  let st := set_isPaused false st in
  let st := set_score 0 st in
  let st := set_timeLeft 60 st in
  let st := set_combo 0 st in
  let st := set_level 1 st in
  let st := clearPowerUps st in
  let st := _stopTimer st in
  initializeGrid st.

Definition handleStartButton (st : Game) : Game :=
  if _startCooldown st then st
  else
    let st := set_startCooldown true st in
    let st := setTimeout CbStartCooldown 250 st in
    if negb (isPlaying st) || isPaused st then startGame st
    else startGame (resetGame st).

Definition shuffleGrid (st : Game) : Game := initializeGrid st.

(** The rewarded-video glue: [showRewardedVideo] and [giveReward]. *)
Definition showRewardedVideo (st : Game) : Game :=
  _stopTimer (set_isPaused true st).

Definition giveReward (st : Game) : Game :=
  let st := set_timeLeft (timeLeft st + 20) st in
  let st := set_isPaused false st in
  _startTimer st.

(** The object built by [new DigitDestroyer()] at boot, over a tape of
    random numbers. *)
Definition newGame (rnd : nat -> Z) : Game :=
  initializeGrid
    (MkGame [] 8 0 60 0 1 false false None [] false None 0 [] 1 rnd 0 []).

(** ** The event loop *)

Definition runCallback (c : callback) (st : Game) : result Game :=
  match c with
  | CbTick _ => Ret (timerTick st)
  | CbStartCooldown => Ret (set_startCooldown false st)
  | CbDestroy row col => Ret (set_grid (grid_set (grid st) row col Null) st)
  | CbSettle => settle st
  | CbFill => fillEmpty st
  | CbComboDecay => Ret (comboDecay st)
  | CbComboBoostEnd => Ret (comboBoostEnd st)
  | CbPowerUpExpire el => Ret (powerUpExpire el st)
  | CbSpawn => Ret (spawnPowerUps st)
  end.

Fixpoint minDue (ts : list task) : option Z :=
  match ts with
  | [] => None
  | t :: ts' =>
      match minDue ts' with
      | None => Some (due t)
      | Some d => Some (Z.min (due t) d)
      end
  end.

Fixpoint takeDue (d : Z) (ts : list task) : option (task * list task) :=
  match ts with
  | [] => None
  | t :: ts' =>
      if decide (due t = d) then Some (t, ts')
      else '(t', rest) ← takeDue d ts'; Some (t', t :: rest)
  end.

(** The pending timer that fires next: the earliest, and among equals
    the one registered first. *)
Definition nextTask (ts : list task) : option (task * list task) :=
  d ← minDue ts; takeDue d ts.

Definition ok {A : Type} (m : result A) : option A :=
  match m with
  | Ret a => Some a
  | _ => None
  end.

(** One timer fires: the clock moves to its due time, its callback
    runs, and a live interval is armed again. *)
Definition fire (st : Game) : option Game :=
  '(t, rest) ← nextTask (tasks st);
  let st := set_tasks rest st in
  let st := set_now (Z.max (now st) (due t)) st in
  st ← ok (runCallback (cb t) st);
  match cb t with
  | CbTick id =>
      if decide (timer st = Some id)
      then Some (set_tasks (tasks st ++ [Task (due t + 1000) (CbTick id)]) st)
      else Some st
  | _ => Some st
  end.

(** What reaches the engine from outside: the player's clicks and the
    rewarded-video glue. *)
Inductive action : Type :=
  | ClickCell (row col : Z)
  | ClickStart
  | ClickPause
  | ClickReset
  | ClickShuffle
  | ClickPowerUp (el : nat)
  | WatchAd
  | AdReward.

(** A cell click comes from a cell element of the board, a power-up
    click from an element still on the page, and the pause button is
    enabled during a game only. *)
Definition perform (a : action) (st : Game) : option Game :=
  match a with
  | ClickCell row col =>
      if in_bounds (gridSize st) row col
      then ok (handleCellClick row col st) else None
  | ClickStart => Some (handleStartButton st)
  | ClickPause => if isPlaying st then Some (pauseGame st) else None
  | ClickReset => Some (resetGame st)
  | ClickShuffle => Some (shuffleGrid st)
  | ClickPowerUp el =>
      '(_, p) ← list_find (fun p => p.1 = el) (powerUps st);
      ok (activatePowerUp p.2 el st)
  | WatchAd => Some (showRewardedVideo st)
  | AdReward => Some (giveReward st)
  end.

(** A run is a sequence of events: [Fire] lets the next timer fire,
    [After delay a] is an action [delay] ms later, no pending timer
    being due before it. *)
Inductive event : Type :=
  | Fire
  | After (delay : Z) (a : action).

Definition step (e : event) (st : Game) : option Game :=
  match e with
  | Fire => fire st
  | After delay a =>
      if decide (0 <= delay ∧ Forall (fun t => now st + delay <= due t) (tasks st))
      then perform a (set_now (now st + delay) st)
      else None
  end.

Definition run (es : list event) (st : Game) : option Game :=
  foldl (fun acc e => acc ≫= step e) (Some st) es.

(** The states a session can be in: those some run leads to from boot. *)
Definition reachable (st : Game) : Prop :=
  exists rnd es, run es (newGame rnd) = Some st.

(** ** Notions the properties are stated with *)

(** A board of [size] rows of [size] slots, as [initializeGrid] builds. *)
Definition wf_grid (size : Z) (g : Grid) : Prop :=
  length g = Z.to_nat size ∧ Forall (fun row => length row = Z.to_nat size) g.

Definition inside (size : Z) (x : Cell) : Prop :=
  0 <= x.1 < size ∧ 0 <= x.2 < size.

(** Orthogonal neighbours: one step up, down, left or right. *)
Definition adjacent (x y : Cell) : Prop :=
  Z.abs (x.1 - y.1) + Z.abs (x.2 - y.2) = 1.

Definition holds (g : Grid) (digit : value) (x : Cell) : Prop :=
  grid_at g x.1 x.2 = Ret digit.

(** A same-digit orthogonal step onto a cell of the board. *)
Definition link (g : Grid) (size : Z) (digit : value) (x y : Cell) : Prop :=
  adjacent x y ∧ inside size y ∧ holds g digit y.

(** The connected region of [start]: what same-digit steps reach. *)
Definition region (g : Grid) (size : Z) (digit : value) (start : Cell)
  : Cell -> Prop :=
  rtc (link g size digit) start.

Definition keyOf (x : Cell) : string := cellKey x.1 x.2.

Definition keys (l : list Cell) : gset string := list_to_set (keyOf <$> l).

Definition allCells (size : Z) : list Cell :=
  r ← seqZ 0 size; c ← seqZ 0 size; [(r, c)].

(** How many cells of the board are not yet in [visited]. *)
Definition unvisited (n : Z) (visited : gset string) : nat :=
  size (keys (allCells n) ∖ visited).

Fixpoint no_dash (s : string) : Prop :=
  match s with
  | EmptyString => True
  | String a s' => a ≠ "-"%char ∧ no_dash s'
  end.

(** What a call on [root] with the set [V] leaves: the cells [out] it
    returns and the set [V'] afterwards. *)
Record visit_post (g : Grid) (size : Z) (digit : value) (root : Cell)
    (V : gset string) (out : list Cell) (V' : gset string) : Prop := VisitPost {
  vp_visited : V' = V ∪ keys out;
  vp_nodup : NoDup out;
  vp_fresh : forall x, x ∈ out -> keyOf x ∉ V;
  vp_cells : forall x, x ∈ out ->
      inside size x ∧ holds g digit x ∧ rtc (link g size digit) root x;
  vp_closed : forall x y, x ∈ out -> link g size digit x y -> keyOf y ∈ V';
  vp_root : holds g digit root -> keyOf root ∈ V';
  vp_head : keyOf root ∉ V -> holds g digit root -> head out = Some root
}.

(** [k] consecutive runs of the interval callback, nothing else
    touching the session in between. *)
Definition ticks (k : nat) (st : Game) : Game := Nat.iter k timerTick st.

(** A small session for examples: a 2 x 2 board, a game in progress. *)
Definition smallGame (g : Grid) : Game :=
  MkGame g 2 0 60 0 1 true false (Some 1%nat) [] false None 0
    [Task 1000 (CbTick 1)] 2 (fun _ => 0) 0 [].

(** Case analysis along the branches of [timerTick] on an unpaused
    session [st]: in or out of the last ten seconds, and whether the
    value was the last one signalled. *)
Ltac tick_cases st :=
  unfold timerTick; cbv zeta;
  destruct (decide (timeLeft (set_timeLeft (timeLeft st - 1) st) <= 10
                    ∧ timeLeft (set_timeLeft (timeLeft st - 1) st) >= 0));
  [destruct (decide (_lastTickPlayed (set_timeLeft (timeLeft st - 1) st)
                     ≠ Some (timeLeft (set_timeLeft (timeLeft st - 1) st))))|].

(** Column [c] of the board, top to bottom. *)
Definition column (g : Grid) (c : Z) : list value :=
  (fun row => row_at row c) <$> g.

Definition nonEmpty (v : value) : Prop := v ≠ Null.

Global Instance nonEmpty_dec (v : value) : Decision (nonEmpty v).
Proof. unfold nonEmpty. apply _. Defined.

(** A column with its non-empty values slid to the bottom in their
    order, the empties above them. *)
Definition slidDown (l : list value) : list value :=
  replicate (length l - length (filter nonEmpty l)) Null ++ filter nonEmpty l.

(** A slot while the board is refilled: as it was, or, if it was
    empty, holding a new digit of [0, 9]. *)
Definition refilling (before after : value) : Prop :=
  after = before ∨ (before = Null ∧ exists d, 0 <= d <= 9 ∧ after = Num d).

(** ** Runs used as examples *)

(** A tape value [u] with [Math.floor(u / randomUnit * n) = d]. *)
Definition pick (n d : Z) : Z := (d * randomUnit) `div` n + 1.

(** All draws 0: a board of zeros; every spawn produces a "⚡" and the
    next spawn follows after 8000 ms. *)
Definition zeroTape : nat -> Z := fun _ => 0.

(** A board of zeros (the 64 draws of [initializeGrid] at boot), then
    for each [spawnPowerUps]: a power-up is produced, it is of the
    kind [types[k]], and the next spawn follows after 8000 ms. *)
Definition spawnTape (k : Z) : nat -> Z := fun i =>
  if decide (i < 64)%nat then 0
  else if decide ((i - 64) `mod` 3 = 1)%nat then pick 5 k else 0.

(** The game is started and paused; eighteen "🎯" power-ups are
    clicked, each as soon as it has spawned. *)
Definition levelTrace : list event :=
  [After 1000 ClickStart; After 100 ClickPause; After 50 (ClickPowerUp 2); Fire]
  ++ concat ((fun el => [Fire; Fire; After 10 (ClickPowerUp el)]) <$> seq 3 17).

(** ... then the game is resumed and a cell is clicked. *)
Definition levelTraceClick : list event :=
  levelTrace ++ [After 10 ClickPause; After 10 (ClickCell 0 0)].

(** ... or a nineteenth "🎯" is clicked. *)
Definition levelTraceBonus : list event :=
  levelTrace ++ [Fire; Fire; After 10 (ClickPowerUp 20)].

(** A "⭐" is clicked, the game is restarted 100 ms later, and the
    timers fire up to the expiry of the boost. *)
Definition comboTrace : list event :=
  [After 1000 ClickStart; Fire; After 100 (ClickPowerUp 2); After 100 ClickStart;
   Fire; Fire; Fire; Fire].

(** The same with the reset button: the boost expires on an idle
    session. *)
Definition comboTraceReset : list event :=
  [After 1000 ClickStart; After 100 (ClickPowerUp 2); After 100 ClickReset;
   Fire; Fire].

(** A game is played down to 4 seconds, the "⚡" that has just spawned
    is clicked, and the countdown goes on for four ticks. *)
Definition warnTrace : list event :=
  [After 1000 ClickStart] ++ replicate 71 Fire
  ++ [After 100 (ClickPowerUp 9)] ++ replicate 4 Fire.

(** A group is clicked and the game is reset 50 ms later. *)
Definition resetTrace : list event :=
  [After 1000 ClickStart; Fire; After 100 (ClickCell 0 0); After 50 ClickReset].

(** A group is clicked, its 64 cells are emptied 250 ms later, and a
    cell is clicked again before the settle callback runs. *)
Definition emptyClickTrace : list event :=
  [After 1000 ClickStart; Fire; After 100 (ClickCell 0 0)]
  ++ replicate 64 Fire ++ [After 100 (ClickCell 0 0)].

(** A group is clicked and the timers fire up to the settle callback. *)
Definition settleTrace : list event :=
  [After 1000 ClickStart; Fire; After 100 (ClickCell 0 0)] ++ replicate 66 Fire.

(** ** The low-time warning *)

Definition tickValue (s : signal) : option Z :=
  match s with
  | SfxTick t => Some t
  | _ => None
  end.

(** The values the warning was given for, in order. *)
Definition warnings (l : list signal) : list Z := omap tickValue l.

(** [st'] has the clock of [st] and no further warning. *)
Definition quiet (st st' : Game) : Prop :=
  timeLeft st' = timeLeft st
  ∧ exists new, emitted st' = emitted st ++ new ∧ warnings new = [].

(** The events that set the clock forward: a start or reset, the
    reward of a video, the click on a "⚡". *)
Definition addsTime (st : Game) (e : event) : bool :=
  match e with
  | After _ ClickStart | After _ ClickReset | After _ AdReward => true
  | After _ (ClickPowerUp el) =>
      match list_find (fun p => p.1 = el) (powerUps st) with
      | Some (_, (_, TimeBoost)) => true
      | _ => false
      end
  | _ => false
  end.

(** A run during which the clock is never set forward. *)
Fixpoint steady (es : list event) (st : Game) : Prop :=
  match es with
  | [] => True
  | e :: es' =>
      addsTime st e = false
      ∧ match step e st with
        | Some st1 => steady es' st1
        | None => True
        end
  end.

(** [st'] has the clock and the signals of [st]. *)
Definition sameClock (st st' : Game) : Prop :=
  timeLeft st' = timeLeft st ∧ emitted st' = emitted st.

(** [st1] follows [st] on the countdown: the clock has not gone up,
    and a warning given in between is for the new value of the clock,
    which then has gone down. *)
Definition countsDown (st st1 : Game) : Prop :=
  timeLeft st1 <= timeLeft st
  ∧ exists new,
      emitted st1 = emitted st ++ new
      ∧ (warnings new = []
         ∨ (warnings new = [timeLeft st1] ∧ timeLeft st1 < timeLeft st)).

(** A digit as [initializeGrid] and the refill draw it. *)
Definition isDigit (v : value) : Prop := exists d, 0 <= d <= 9 ∧ v = Num d.

(** [st'] has the board of [st]. *)
Definition sameBoard (st st' : Game) : Prop :=
  grid st' = grid st ∧ gridSize st' = gridSize st.

(** The board of a session is well formed. *)
Definition boardOk (st : Game) : Prop := wf_grid (gridSize st) (grid st).

(** ** The hover preview: [handleCellHover], [handleCellLeave], [clearPreview] *)

(** The session together with [this.previewCells], the field the
    hover handlers keep and [Game] leaves out. *)
Record View : Type := MkView {
  session : Game;
  previewCells : list Cell
}.

Definition clearPreview (v : View) : View := MkView (session v) [].

Definition handleCellLeave (v : View) : View := clearPreview v.

(** [row] and [col] are the [dataset] of the cell element entered. *)
Definition handleCellHover (row col : Z) (v : View) : result View :=
  if negb (isPlaying (session v)) || isPaused (session v) then Ret v
  else
    digit ← grid_at (grid (session v)) row col;
    let v := clearPreview v in
    connectedCells ←
      findConnectedCells (grid (session v)) (gridSize (session v)) row col digit;
    if decide (Z.of_nat (length connectedCells) >= 2)
    then Ret (MkView (session v) connectedCells)
    else Ret v.

(** ** Further notions the properties are stated with *)

(** The pending runs of the countdown interval. *)
Definition isTick (t : task) : Prop :=
  match cb t with
  | CbTick _ => True
  | _ => False
  end.

Global Instance isTick_dec (t : task) : Decision (isTick t).
Proof. unfold isTick. destruct (cb t); apply _. Defined.

Definition pendingTicks (st : Game) : list task := filter isTick (tasks st).

(** The countdown is consistent: a live interval has exactly one
    pending run, under the id held in [timer]; without an interval no
    run is pending; a paused session has no interval and a session
    being played has one. *)
Definition timerOk (st : Game) : Prop :=
  match timer st with
  | Some id => exists d, pendingTicks st = [Task d (CbTick id)]
  | None => pendingTicks st = []
  end.

Definition controlOk (st : Game) : Prop :=
  timerOk st
  ∧ (isPaused st = true -> timer st = None)
  ∧ (isPlaying st = true -> isPaused st = false -> is_Some (timer st)).

(** The power-up elements on the page: distinct, created with ids
    below the next one, and none on a session that is not playing. *)
Definition powerUpsOk (st : Game) : Prop :=
  NoDup (powerUps st).*1
  ∧ Forall (fun p => (p.1 < nextId st)%nat) (powerUps st)
  ∧ Forall (fun p => p.2 ∈ types) (powerUps st)
  ∧ (isPlaying st = false -> powerUps st = []).

(** A slot of the board holds a digit of [0, 9] or is empty. *)
Definition cellOk (v : value) : Prop := v = Null ∨ isDigit v.

Definition cellsOk (st : Game) : Prop :=
  gridSize st = 8
  ∧ boardOk st
  ∧ forall r c, inside (gridSize st) (r, c) ->
      exists v, grid_at (grid st) r c = Ret v ∧ cellOk v.

(** [st'] has the controls of [st]: the interval and its pending
    runs, the play and pause flags, the power-ups and the id counter. *)
Definition sameControl (st st' : Game) : Prop :=
  timer st' = timer st
  ∧ isPlaying st' = isPlaying st
  ∧ isPaused st' = isPaused st
  ∧ powerUps st' = powerUps st
  ∧ nextId st' = nextId st
  ∧ pendingTicks st' = pendingTicks st.

(** [st'] has the countdown controls of [st]; the power-ups may differ. *)
Definition sameTimer (st st' : Game) : Prop :=
  timer st' = timer st
  ∧ isPlaying st' = isPlaying st
  ∧ isPaused st' = isPaused st
  ∧ pendingTicks st' = pendingTicks st.

(** Every pending run of the interval carries the id held in [timer]. *)
Definition ownTicks (st : Game) : Prop :=
  Forall (fun t => Some (cb t) = CbTick <$> timer st) (pendingTicks st).

(** [st'] has the power-ups and the play flag of [st], and no id is
    given out twice. *)
Definition keepsPowerUps (st st' : Game) : Prop :=
  powerUps st' = powerUps st
  ∧ isPlaying st' = isPlaying st
  ∧ (nextId st <= nextId st')%nat.

(** A session from boot: the game started, the first timer fired. *)
Definition startedTrace : list event := [After 1000 ClickStart; Fire].

Definition startedGame : Game :=
  default (smallGame []) (run startedTrace (newGame zeroTape)).

(** The started session is paused 100 ms later, the power-up on the
    page expires during the pause, and the game is resumed at 7000 ms. *)
Definition pausedGame : Game :=
  default startedGame (step (After 100 ClickPause) startedGame).

Definition pausedLater : Game := default startedGame (run [Fire] pausedGame).

Definition resumedGame : Game :=
  default startedGame (step (After 1000 ClickPause) pausedLater).

(** The same with the rewarded video in place of the pause button. *)
Definition videoGame : Game :=
  default startedGame (step (After 100 WatchAd) startedGame).

Definition videoLater : Game := default startedGame (run [Fire] videoGame).

Definition rewardedGame : Game :=
  default startedGame (step (After 1000 AdReward) videoLater).

(** The digit [Math.floor(Math.random() * 10)] gives for the [i]-th
    number of the tape. *)
Definition digitAt (st : Game) (i : nat) : Z :=
  mathFloor (timesDouble (tape st i `mod` randomUnit) 10).

(** The pending [setTimeout] callbacks, in the order registered. *)
Definition timeouts (st : Game) : list task :=
  filter (fun t => ¬ isTick t) (tasks st).

(** From [st] to [st'] no pending timeout was cancelled. *)
Definition keepsTimeouts (st st' : Game) : Prop :=
  exists new, timeouts st' = timeouts st ++ new.

(** [st'] has the score board of [st]: score, combo, level and time
    left, and also the cooldown flag, the clock and the board size. *)
Definition sameStats (st st' : Game) : Prop :=
  score st' = score st
  ∧ combo st' = combo st
  ∧ level st' = level st
  ∧ timeLeft st' = timeLeft st
  ∧ _startCooldown st' = _startCooldown st
  ∧ now st' = now st
  ∧ gridSize st' = gridSize st.

Global Instance result_eq_dec {A : Type} `{EqDecision A} : EqDecision (result A).
Proof. solve_decision. Defined.

Global Instance holds_dec (g : Grid) (digit : value) (x : Cell) :
  Decision (holds g digit x).
Proof. unfold holds. apply _. Defined.

(** What the pending callbacks will take off the combo: 1 for each
    combo decay and 3 for each boost expiry. *)
Definition comboOf (l : list task) : Z :=
  Z.of_nat (length (filter (fun t => cb t = CbComboDecay) l))
  + 3 * Z.of_nat (length (filter (fun t => cb t = CbComboBoostEnd) l)).

Definition comboPending (st : Game) : Z := comboOf (tasks st).

(** [st'] has the pending combo callbacks of [st]. *)
Definition samePending (st st' : Game) : Prop :=
  comboPending st' = comboPending st.

(** The events that zero the combo: a click on Start or on Reset. *)
Definition restarts (e : event) : bool :=
  match e with
  | After _ ClickStart | After _ ClickReset => true
  | _ => false
  end.

(** A run in which Start and Reset are only clicked while no combo
    decay and no boost expiry is pending. *)
Fixpoint calm (es : list event) (st : Game) : Prop :=
  match es with
  | [] => True
  | e :: es' =>
      (restarts e = true -> comboPending st = 0)
      ∧ match step e st with
        | Some st1 => calm es' st1
        | None => True
        end
  end.

(** A click on a group of 64 zeros, after the start. *)
Definition clickTrace : list event :=
  startedTrace ++ [After 100 (ClickCell 0 0)].

(** * Properties *)

(** ** Outcomes *)

Lemma Ret_inj {A : Type} (a b : A) : Ret a = Ret b -> a = b.
Proof. by intros [= ->]. Qed.

(** ** Cell keys *)

Lemma no_dash_app_inj (s s' t t' : string) :
  no_dash s -> no_dash s' ->
  s +:+ "-" +:+ t = s' +:+ "-" +:+ t' -> s = s' ∧ t = t'.
Proof.
  revert s'. induction s as [|a s IH]; intros [|a' s'] Hs Hs' Heq; simpl in *.
  - by simplify_eq.
  - destruct Hs' as [Ha' _]. by simplify_eq.
  - destruct Hs as [Ha _]. by simplify_eq.
  - destruct Hs as [_ Hs], Hs' as [_ Hs']. simplify_eq.
    destruct (IH s' Hs Hs' ltac:(done)) as [-> ->]. done.
Qed.

Lemma pretty_N_char_no_dash (x : N) : pretty_N_char x ≠ "-"%char.
Proof. unfold pretty_N_char. by repeat case_match. Qed.

Lemma pretty_N_go_no_dash (x : N) (s : string) :
  no_dash s -> no_dash (pretty_N_go x s).
Proof.
  revert s. induction (N.lt_wf_0 x) as [x _ IH]; intros s Hs.
  destruct (decide (x = 0%N)) as [->|Hx].
  - by rewrite pretty_N_go_0.
  - rewrite pretty_N_go_step by lia. apply IH.
    + apply N.div_lt; lia.
    + split; [apply pretty_N_char_no_dash | done].
Qed.

(** The decimal form of a non-negative integer has no dash. *)
Lemma pretty_Z_no_dash (z : Z) : 0 <= z -> no_dash (pretty z).
Proof.
  destruct z as [|p|p]; intros Hz; [by repeat split | | lia].
  unfold pretty, pretty_Z, pretty, pretty_positive, pretty, pretty_N.
  case_decide; [done|]. by apply pretty_N_go_no_dash.
Qed.

(** On the board, distinct cells have distinct keys. *)
Lemma cellKey_inj (r c r' c' : Z) :
  0 <= r -> 0 <= r' -> cellKey r c = cellKey r' c' -> r = r' ∧ c = c'.
Proof.
  intros Hr Hr' Heq. unfold cellKey in Heq.
  apply no_dash_app_inj in Heq as [H1 H2]; auto using pretty_Z_no_dash.
  split; by apply (inj pretty).
Qed.

(** ** Board geometry *)

Lemma in_bounds_inside (size r c : Z) :
  in_bounds size r c = true <-> inside size (r, c).
Proof.
  unfold in_bounds, inside. simpl.
  rewrite !andb_true_iff, !bool_decide_eq_true. lia.
Qed.

(** On a board, a read inside the bounds does not throw. *)
Lemma grid_at_inside (size : Z) (g : Grid) (r c : Z) :
  wf_grid size g -> inside size (r, c) -> exists v, grid_at g r c = Ret v.
Proof.
  intros [Hlen _] [[Hr0 Hr] _]. simpl in *. unfold grid_at.
  rewrite decide_True by done.
  destruct (g !! Z.to_nat r) as [row|] eqn:E; [eauto|].
  apply lookup_ge_None in E. lia.
Qed.

(** The orthogonal neighbours of a cell are the four cells [dirs]
    leads to. *)
Lemma adjacent_dirs (r c : Z) (y : Cell) :
  adjacent (r, c) y <-> exists d, d ∈ dirs ∧ y = (r + d.1, c + d.2).
Proof.
  unfold adjacent, dirs. destruct y as [r' c']. simpl. split.
  - intros H.
    assert ((r' = r - 1 ∧ c' = c) ∨ (r' = r + 1 ∧ c' = c)
            ∨ (r' = r ∧ c' = c - 1) ∨ (r' = r ∧ c' = c + 1))
      as [[-> ->]|[[-> ->]|[[-> ->]|[-> ->]]]] by lia.
    + exists (-1, 0). split; [set_solver | f_equal/=; lia].
    + exists (1, 0). split; [set_solver | f_equal/=; lia].
    + exists (0, -1). split; [set_solver | f_equal/=; lia].
    + exists (0, 1). split; [set_solver | f_equal/=; lia].
  - intros [[dr dc] [Hd Heq]]. simplify_eq/=.
    rewrite !elem_of_cons, elem_of_nil in Hd.
    destruct Hd as [?|[?|[?|[?|[]]]]]; simplify_eq; lia.
Qed.

Lemma elem_of_allCells (size : Z) (x : Cell) :
  x ∈ allCells size <-> inside size x.
Proof.
  unfold allCells, inside. destruct x as [r c]. simpl.
  rewrite list_elem_of_bind. split.
  - intros (r' & Hx & Hr'). apply list_elem_of_bind in Hx as (c' & Hx & Hc').
    apply list_elem_of_singleton in Hx. simplify_eq.
    apply elem_of_seqZ in Hr', Hc'. lia.
  - intros [Hr Hc]. exists r. split; [|apply elem_of_seqZ; lia].
    apply list_elem_of_bind. exists c. split; [set_solver|apply elem_of_seqZ; lia].
Qed.

(** ** The visited set *)

Lemma elem_of_keys (k : string) (l : list Cell) :
  k ∈ keys l <-> exists x, x ∈ l ∧ k = keyOf x.
Proof.
  unfold keys. rewrite elem_of_list_to_set, list_elem_of_fmap. naive_solver.
Qed.

Lemma keys_nil : keys [] = ∅.
Proof. done. Qed.

Lemma keys_app (l k : list Cell) : keys (l ++ k) = keys l ∪ keys k.
Proof. unfold keys. rewrite fmap_app. set_solver. Qed.

Lemma keys_cons (x : Cell) (l : list Cell) : keys (x :: l) = {[keyOf x]} ∪ keys l.
Proof. done. Qed.

Lemma keyOf_inj (size : Z) (x y : Cell) :
  inside size x -> inside size y -> keyOf x = keyOf y -> x = y.
Proof.
  destruct x as [r c], y as [r' c']. unfold inside, keyOf. simpl.
  intros [[? _] _] [[? _] _] Heq.
  apply cellKey_inj in Heq as [? ?]; by simplify_eq.
Qed.

Lemma unvisited_mono (n : Z) (V V' : gset string) :
  V ⊆ V' -> (unvisited n V' <= unvisited n V)%nat.
Proof. intros HV. apply subseteq_size. set_solver. Qed.

(** Recording a cell of the board that was not yet visited leaves
    fewer cells to visit: the measure the recursion decreases on. *)
Lemma unvisited_insert (n : Z) (x : Cell) (V : gset string) :
  inside n x -> keyOf x ∉ V ->
  (unvisited n ({[keyOf x]} ∪ V) < unvisited n V)%nat.
Proof.
  intros Hx Hfresh. apply subset_size.
  assert (keyOf x ∈ keys (allCells n)) as Hin.
  { apply elem_of_keys. exists x. by rewrite elem_of_allCells. }
  set_solver.
Qed.

Lemma size_list_to_set_le (l : list string) :
  (size (list_to_set (C := gset string) l) <= length l)%nat.
Proof.
  induction l as [|a l IH].
  - by rewrite list_to_set_nil, size_empty.
  - rewrite list_to_set_cons, size_union_alt, size_singleton. simpl.
    etrans; [|apply le_n_S, IH]. apply le_n_S, subseteq_size. set_solver.
Qed.

Lemma length_bind_const {A B : Type} (f : A -> list B) (k : nat) (l : list A) :
  (forall a, length (f a) = k) -> length (l ≫= f) = (length l * k)%nat.
Proof.
  intros Hf. induction l as [|a l IH]; [done|].
  rewrite bind_cons, length_app, IH, Hf. simpl. lia.
Qed.

Lemma length_allCells (n : Z) :
  length (allCells n) = (Z.to_nat n * Z.to_nat n)%nat.
Proof.
  unfold allCells.
  rewrite (length_bind_const _ (Z.to_nat n)), length_seqZ; [done|].
  intros r. by rewrite (length_bind_const _ 1%nat), length_seqZ, Nat.mul_1_r.
Qed.

(** ** The traversal of [findConnectedCells] *)

Section Traversal.
Variables (g : Grid) (size : Z) (digit : value).
Hypothesis Hwf : wf_grid size g.

(** The loop over [dirs], given recursive calls that keep their
    promise on every set with fewer than [fuel] unvisited cells. *)
Lemma visitDirs_spec
    (rec : Z -> Z -> gset string -> result (list Cell * gset string))
    (fuel : nat) (r c : Z) :
  (forall r' c' V, inside size (r', c') -> (unvisited size V < fuel)%nat ->
     exists out V', rec r' c' V = Ret (out, V')
       ∧ visit_post g size digit (r', c') V out V') ->
  forall ds out V, (unvisited size V < fuel)%nat ->
  exists new V',
    visitDirs rec g size digit r c ds out V = Ret (out ++ new, V')
    ∧ V' = V ∪ keys new
    ∧ NoDup new
    ∧ (forall x, x ∈ new -> keyOf x ∉ V)
    ∧ (forall x, x ∈ new ->
         inside size x ∧ holds g digit x
         ∧ exists d, d ∈ ds
             ∧ rtc (link g size digit) (r + d.1, c + d.2) x
             ∧ inside size (r + d.1, c + d.2)
             ∧ holds g digit (r + d.1, c + d.2))
    ∧ (forall x y, x ∈ new -> link g size digit x y -> keyOf y ∈ V')
    ∧ (forall d, d ∈ ds -> inside size (r + d.1, c + d.2) ->
         holds g digit (r + d.1, c + d.2) -> keyOf (r + d.1, c + d.2) ∈ V').
Proof.
  intros Hrec ds. induction ds as [|[dr dc] ds IH]; intros out V Hfuel.
  { exists [], V. simpl. rewrite app_nil_r, keys_nil.
    repeat split; try set_solver. constructor. }
  simpl. destruct (in_bounds size (r + dr) (c + dc)) eqn:Hin.
  - apply in_bounds_inside in Hin.
    destruct (grid_at_inside _ _ _ _ Hwf Hin) as [v Hv]. rewrite Hv. simpl.
    unfold strict_eq. case_bool_decide as Hd.
    + subst v.
      destruct (Hrec _ _ V Hin Hfuel) as (sub & V1 & -> & Hpost). simpl.
      destruct Hpost as [HV1 Hnd Hfresh Hcells Hclosed Hroot _].
      assert (V ⊆ V1) as Hsub by set_solver.
      destruct (IH (out ++ sub) V1) as
        (new & V2 & -> & HV2 & Hnd2 & Hfresh2 & Hcells2 & Hclosed2 & Hds2).
      { eapply Nat.le_lt_trans; [by apply unvisited_mono|done]. }
      exists (sub ++ new), V2. rewrite app_assoc. split; [done|].
      split; [rewrite keys_app; set_solver|].
      split.
      { apply NoDup_app. split; [done|]. split; [|done].
        intros x Hx Hx'. apply (Hfresh2 x Hx'). subst V1.
        apply elem_of_union_r, elem_of_keys. eauto. }
      split.
      { intros x [Hx|Hx]%elem_of_app; [by apply Hfresh|].
        intros HxV. apply (Hfresh2 x Hx). set_solver. }
      split.
      { intros x [Hx|Hx]%elem_of_app.
        - destruct (Hcells x Hx) as (? & ? & ?). split; [done|]. split; [done|].
          exists (dr, dc). split; [set_solver|]. done.
        - destruct (Hcells2 x Hx) as (? & ? & d & ? & ?).
          split; [done|]. split; [done|]. exists d. split; [set_solver|done]. }
      split.
      { intros x y [Hx|Hx]%elem_of_app Hl; [|by eapply Hclosed2].
        subst V2. apply elem_of_union_l. by eapply Hclosed. }
      intros d [->|Hd]%elem_of_cons Hi Hh; [|by apply Hds2].
      subst V2. apply elem_of_union_l. by apply Hroot.
    + destruct (IH out V Hfuel) as
        (new & V2 & -> & HV2 & Hnd2 & Hfresh2 & Hcells2 & Hclosed2 & Hds2).
      exists new, V2. do 4 (split; [done|]). split; [|split; [done|]].
      * intros x Hx. destruct (Hcells2 x Hx) as (? & ? & d & ? & ?).
        do 2 (split; [done|]). exists d. split; [set_solver|done].
      * intros d [->|Hd']%elem_of_cons Hi Hh; [|by apply Hds2].
        unfold holds in Hh. simpl in Hh. congruence.
  - assert (¬ inside size (r + dr, c + dc)) as Hout.
    { rewrite <-in_bounds_inside, Hin. done. }
    destruct (IH out V Hfuel) as
      (new & V2 & -> & HV2 & Hnd2 & Hfresh2 & Hcells2 & Hclosed2 & Hds2).
    exists new, V2. do 4 (split; [done|]). split; [|split; [done|]].
    * intros x Hx. destruct (Hcells2 x Hx) as (? & ? & d & ? & ?).
      do 2 (split; [done|]). exists d. split; [set_solver|done].
    * intros d [->|Hd']%elem_of_cons Hi Hh; [|by apply Hds2]. done.
Qed.

(** Every call with enough fuel returns, and keeps the promise of
    [visit_post]. *)
Lemma findConnectedCells_rec_spec (fuel : nat) :
  forall r c V, inside size (r, c) -> (unvisited size V < fuel)%nat ->
  exists out V',
    findConnectedCells_rec fuel g size digit r c V = Ret (out, V')
    ∧ visit_post g size digit (r, c) V out V'.
Proof.
  induction fuel as [|fuel IH]; intros r c V Hin Hfuel; [lia|].
  simpl. fold (keyOf (r, c)). case_decide as Hvis.
  { exists [], V. split; [done|].
    split; rewrite ?keys_nil; try set_solver. constructor. }
  destruct (grid_at_inside _ _ _ _ Hwf Hin) as [v Hv]. rewrite Hv. simpl.
  unfold strict_ne, strict_eq. case_bool_decide as Hd; simpl.
  2:{ exists [], V. split; [done|].
      split; rewrite ?keys_nil; try set_solver; try constructor.
      - intros Hh. unfold holds in Hh. simpl in Hh. congruence.
      - intros _ Hh. unfold holds in Hh. simpl in Hh. congruence. }
  subst v.
  destruct (visitDirs_spec (findConnectedCells_rec fuel g size digit)
              fuel r c IH dirs [(r, c)] ({[keyOf (r, c)]} ∪ V))
    as (new & V' & Hrun & HV' & Hnd & Hfresh & Hcells & Hclosed & Hds).
  { pose proof (unvisited_insert size (r, c) V Hin Hvis). lia. }
  exists ((r, c) :: new), V'. split; [done|]. split.
  - rewrite keys_cons. set_solver.
  - apply NoDup_cons. split; [|done].
    intros Hx. apply (Hfresh _ Hx). set_solver.
  - intros x [->|Hx]%elem_of_cons; [done|].
    intros HxV. apply (Hfresh _ Hx). set_solver.
  - intros x [->|Hx]%elem_of_cons.
    + split; [done|]. split; [done|]. apply rtc_refl.
    + destruct (Hcells x Hx) as (Hix & Hhx & d & Hd & Hrtc & Hid & Hhd).
      split; [done|]. split; [done|].
      eapply rtc_l; [|done]. split; [|done].
      apply adjacent_dirs. eauto.
  - intros x y [->|Hx]%elem_of_cons Hl; [|by eapply Hclosed].
    destruct Hl as (Hadj & Hiy & Hhy).
    apply adjacent_dirs in Hadj as (d & Hd & ->). by apply Hds.
  - intros _. set_solver.
  - done.
Qed.
End Traversal.

(** The fuel of the top-level call exceeds the number of cells. *)
Lemma unvisited_empty_lt (size : Z) : (unvisited size ∅ < findFuel size)%nat.
Proof.
  unfold unvisited, findFuel.
  apply Nat.lt_succ_r.
  etrans; [apply (subseteq_size _ (keys (allCells size))); set_solver|].
  unfold keys. etrans; [apply size_list_to_set_le|].
  by rewrite length_fmap, length_allCells.
Qed.

(** A top-level call returns, and its result keeps [visit_post] from
    the empty set. *)
Lemma findConnectedCells_post (g : Grid) (size r c : Z) (digit : value) :
  wf_grid size g -> inside size (r, c) ->
  exists out V',
    findConnectedCells g size r c digit = Ret out
    ∧ visit_post g size digit (r, c) ∅ out V'.
Proof.
  intros Hwf Hin.
  destruct (findConnectedCells_rec_spec g size digit Hwf (findFuel size)
              r c ∅ Hin (unvisited_empty_lt size)) as (out & V' & Hrun & Hpost).
  exists out, V'. unfold findConnectedCells. rewrite Hrun. done.
Qed.

(** From the empty set, what [visit_post] records as visited is what
    was returned: no same-digit neighbour is left out. *)
Lemma visit_post_maximal (g : Grid) (size : Z) (digit : value) (root : Cell)
    (out : list Cell) (V' : gset string) :
  visit_post g size digit root ∅ out V' ->
  forall x y, x ∈ out -> link g size digit x y -> y ∈ out.
Proof.
  intros [HV' _ _ Hcells Hclosed _ _] x y Hx Hl.
  pose proof (Hclosed x y Hx Hl) as Hy.
  rewrite HV', elem_of_union, elem_of_keys in Hy.
  destruct Hy as [Hy|(x' & Hx' & Hkey)]; [set_solver|].
  destruct (Hcells x' Hx') as (Hix' & _).
  destruct Hl as (_ & Hiy & _).
  by rewrite (keyOf_inj size y x' Hiy Hix' Hkey).
Qed.

(** The start cell comes first in the result. *)
Lemma visit_post_start (g : Grid) (size : Z) (digit : value) (root : Cell)
    (out : list Cell) (V' : gset string) :
  visit_post g size digit root ∅ out V' -> holds g digit root ->
  head out = Some root ∧ root ∈ out.
Proof.
  intros [_ _ _ _ _ _ Hhead] Hh.
  assert (head out = Some root) as Hhd by (apply Hhead; [set_solver|done]).
  split; [done|]. destruct out; simplify_eq/=. set_solver.
Qed.

(** C4. On every board of [size] rows of [size] slots and from every
    cell [(r, c)] of it, [findConnectedCells], called as
    [handleCellClick] does with the digit of that cell, returns (it
    neither throws nor runs out of fuel). The cells it returns are
    pairwise distinct and start with [(r, c)]; they are exactly the
    cells that same-digit orthogonal steps reach from [(r, c)]: each
    lies on the board, holds the digit, and no same-digit orthogonal
    neighbour of a returned cell is left out. With no such neighbour
    of [(r, c)] the result is [(r, c)] alone. The function reads the
    grid and has no other output, so the grid is as before. *)
Theorem findConnectedCells_region (g : Grid) (size r c : Z) (digit : value) :
  wf_grid size g -> inside size (r, c) -> grid_at g r c = Ret digit ->
  exists out,
    findConnectedCells g size r c digit = Ret out
    ∧ NoDup out
    ∧ head out = Some (r, c)
    ∧ (forall x, x ∈ out <-> region g size digit (r, c) x)
    ∧ (forall x, x ∈ out -> inside size x ∧ holds g digit x)
    ∧ (forall x y, x ∈ out -> link g size digit x y -> y ∈ out)
    ∧ ((forall y, ¬ link g size digit (r, c) y) -> out = [(r, c)]).
Proof.
  intros Hwf Hin Hdigit.
  destruct (findConnectedCells_post g size r c digit Hwf Hin)
    as (out & V' & Hrun & Hpost).
  pose proof (visit_post_maximal _ _ _ _ _ _ Hpost) as Hmax.
  destruct (visit_post_start _ _ _ _ _ _ Hpost Hdigit) as [Hhd Hstart].
  destruct Hpost as [_ Hnd _ Hcells _ _ _].
  exists out. do 3 (split; [done|]). split; [|split; [|split; [done|]]].
  - intros x. split.
    + intros Hx. by apply Hcells.
    + unfold region. intros Hr.
      eapply (rtc_ind_r (fun z => z ∈ out)); [exact Hstart| |exact Hr].
      intros y z _ Hl Hy. by eapply Hmax.
  - intros x Hx. destruct (Hcells x Hx) as (? & ? & _). done.
  - intros Hnone. destruct out as [|x0 [|z rest]]; simplify_eq/=; [done|].
    exfalso. destruct (Hcells z) as (_ & _ & Hrtc); [set_solver|].
    apply rtc_inv in Hrtc as [Heq|(y & Hl & _)]; [|by eapply Hnone].
    subst z. apply NoDup_cons in Hnd as [Hnd _]. set_solver.
Qed.

(** An instance: the region of the corner of a 2 x 2 board. *)
Lemma findConnectedCells_region_witness :
  exists out,
    findConnectedCells [[Num 1; Num 1]; [Num 2; Num 1]] 2 0 0 (Num 1) = Ret out
    ∧ NoDup out
    ∧ head out = Some (0, 0)
    ∧ (forall x, x ∈ out <->
         region [[Num 1; Num 1]; [Num 2; Num 1]] 2 (Num 1) (0, 0) x)
    ∧ (forall x, x ∈ out ->
         inside 2 x ∧ holds [[Num 1; Num 1]; [Num 2; Num 1]] (Num 1) x)
    ∧ (forall x y, x ∈ out ->
         link [[Num 1; Num 1]; [Num 2; Num 1]] 2 (Num 1) x y -> y ∈ out)
    ∧ ((forall y, ¬ link [[Num 1; Num 1]; [Num 2; Num 1]] 2 (Num 1) (0, 0) y) ->
         out = [(0, 0)]).
Proof.
  apply (findConnectedCells_region [[Num 1; Num 1]; [Num 2; Num 1]] 2 0 0 (Num 1)).
  - split; [reflexivity|]. repeat constructor.
  - unfold inside. simpl. lia.
  - reflexivity.
Defined.

(** On a ring of equal digits the traversal goes round once: it comes
    back to the start cell, finds it visited, and stops. *)
Example findConnectedCells_ring :
  findConnectedCells
    [[Num 1; Num 1; Num 1]; [Num 1; Num 2; Num 1]; [Num 1; Num 1; Num 1]]
    3 1 0 (Num 1)
  = Ret [(1, 0); (0, 0); (0, 1); (0, 2); (1, 2); (2, 2); (2, 1); (2, 0)].
Proof. vm_compute. reflexivity. Qed.

(** ** Scoring *)

(** C1. For a match of size [n >= 2], with [c] the combo and [l] the
    level at the call, [calculateScore n] adds exactly
    [n*10 + max(0, (n-2)*15) + c*5 + l*2] to the score, the combo
    bonus being taken from the combo before its increment, and then
    the combo is [c + 1]; the level is as before and the decay of the
    combo becomes pending. With [n = 2], [c = 0], [l = 1] that is 22
    points, with [n = 4], [c = 2], [l = 3] it is 86. *)
Theorem calculateScore_points (n c l : Z) (st : Game) :
  2 <= n -> combo st = c -> level st = l ->
  score (calculateScore n st)
    = score st + (n * 10 + Z.max 0 ((n - 2) * 15) + c * 5 + l * 2)
  ∧ combo (calculateScore n st) = c + 1
  ∧ level (calculateScore n st) = l
  ∧ tasks (calculateScore n st) = tasks st ++ [Task (now st + 3000) CbComboDecay]
  ∧ score (calculateScore 2 (set_level 1 (set_combo 0 st))) = score st + 22
  ∧ score (calculateScore 4 (set_level 3 (set_combo 2 st))) = score st + 86.
Proof.
  intros _ <- <-. unfold calculateScore. simpl. repeat split; lia.
Qed.

(** An instance: a match of three cells at combo 0 and level 1. *)
Lemma calculateScore_points_witness :
  score (calculateScore 3 (smallGame []))
    = score (smallGame []) + (3 * 10 + Z.max 0 ((3 - 2) * 15) + 0 * 5 + 1 * 2)
  ∧ combo (calculateScore 3 (smallGame [])) = 0 + 1
  ∧ level (calculateScore 3 (smallGame [])) = 1
  ∧ tasks (calculateScore 3 (smallGame []))
      = tasks (smallGame []) ++ [Task (now (smallGame []) + 3000) CbComboDecay]
  ∧ score (calculateScore 2 (set_level 1 (set_combo 0 (smallGame []))))
      = score (smallGame []) + 22
  ∧ score (calculateScore 4 (set_level 3 (set_combo 2 (smallGame []))))
      = score (smallGame []) + 86.
Proof.
  apply (calculateScore_points 3 0 1 (smallGame [])).
  - lia.
  - reflexivity.
  - reflexivity.
Defined.

(** ** Accepted and rejected selections *)

(** [destroyCells] only registers its callbacks, one per cell of the
    board among [cells]. *)
Lemma destroyCells_tasks (cells : list Cell) (st : Game) :
  destroyCells cells st
  = set_tasks
      (tasks st ++
         ((fun x : Cell => Task (now st + 250) (CbDestroy x.1 x.2)) <$>
            filter (fun x : Cell => in_bounds (gridSize st) x.1 x.2) cells))
      st.
Proof.
  unfold destroyCells. revert st.
  induction cells as [|[row col] cells IH]; intros st.
  - destruct st. simpl. unfold set_tasks. simpl. by rewrite app_nil_r.
  - simpl. rewrite IH. rewrite filter_cons. simpl.
    destruct (in_bounds (gridSize st) row col) eqn:Hin.
    + unfold setTimeout, set_tasks. simpl. by rewrite <-app_assoc.
    + done.
Qed.

(** C5. A click on a cell of a session that is playing and not
    paused, whose connected group has fewer than two cells, is
    rejected: the grid, the score, the combo and the level are as
    before, nothing is scheduled, and the only effect is the signal
    of an invalid selection. *)
Theorem handleCellClick_rejected (row col : Z) (digit : value)
    (cells : list Cell) (st : Game) :
  isPlaying st = true -> isPaused st = false ->
  grid_at (grid st) row col = Ret digit ->
  findConnectedCells (grid st) (gridSize st) row col digit = Ret cells ->
  (length cells < 2)%nat ->
  exists st',
    handleCellClick row col st = Ret st'
    ∧ grid st' = grid st
    ∧ score st' = score st
    ∧ combo st' = combo st
    ∧ level st' = level st
    ∧ tasks st' = tasks st
    ∧ emitted st' = emitted st ++ [SfxInvalid].
Proof.
  intros Hplay Hpause Hdigit Hfind Hlen.
  unfold handleCellClick. rewrite Hplay, Hpause, Hdigit. simpl.
  rewrite Hfind. simpl. rewrite decide_False by lia.
  eexists. split; [done|]. done.
Qed.

(** An instance: a click on a board of four different digits. *)
Lemma handleCellClick_rejected_witness :
  exists st',
    handleCellClick 0 0 (smallGame [[Num 1; Num 2]; [Num 3; Num 4]]) = Ret st'
    ∧ grid st' = grid (smallGame [[Num 1; Num 2]; [Num 3; Num 4]])
    ∧ score st' = score (smallGame [[Num 1; Num 2]; [Num 3; Num 4]])
    ∧ combo st' = combo (smallGame [[Num 1; Num 2]; [Num 3; Num 4]])
    ∧ level st' = level (smallGame [[Num 1; Num 2]; [Num 3; Num 4]])
    ∧ tasks st' = tasks (smallGame [[Num 1; Num 2]; [Num 3; Num 4]])
    ∧ emitted st'
      = emitted (smallGame [[Num 1; Num 2]; [Num 3; Num 4]]) ++ [SfxInvalid].
Proof.
  apply (handleCellClick_rejected 0 0 (Num 1) [(0, 0)]
           (smallGame [[Num 1; Num 2]; [Num 3; Num 4]])).
  - reflexivity.
  - reflexivity.
  - reflexivity.
  - vm_compute. reflexivity.
  - simpl. lia.
Defined.

(** C10. Empty cells are matchable. In a session that is playing and
    not paused, on a board with two orthogonally adjacent empty
    ([null]) cells, a click on one of them finds a group of at least
    two cells, all empty, containing both; [handleCellClick] accepts
    it: the score grows by the points of [calculateScore] for the
    size of the group, the combo by one, and the callbacks that empty
    each cell of the group again, and the settle callback, become
    pending. *)
Theorem empty_cells_matchable (row col row' col' : Z) (st : Game) :
  isPlaying st = true -> isPaused st = false ->
  wf_grid (gridSize st) (grid st) ->
  inside (gridSize st) (row, col) -> inside (gridSize st) (row', col') ->
  adjacent (row, col) (row', col') ->
  grid_at (grid st) row col = Ret Null ->
  grid_at (grid st) row' col' = Ret Null ->
  exists cells st',
    findConnectedCells (grid st) (gridSize st) row col Null = Ret cells
    ∧ (2 <= length cells)%nat
    ∧ (row, col) ∈ cells ∧ (row', col') ∈ cells
    ∧ (forall x, x ∈ cells -> holds (grid st) Null x)
    ∧ handleCellClick row col st = Ret st'
    ∧ score st'
      = score st + (Z.of_nat (length cells) * 10
                    + Z.max 0 ((Z.of_nat (length cells) - 2) * 15)
                    + combo st * 5 + level st * 2)
    ∧ combo st' = combo st + 1
    ∧ (forall x, x ∈ cells ->
         Task (now st + 250) (CbDestroy x.1 x.2) ∈ tasks st'
         ∧ forall s, runCallback (CbDestroy x.1 x.2) s
                     = Ret (set_grid (grid_set (grid s) x.1 x.2 Null) s))
    ∧ Task (now st + 500) CbSettle ∈ tasks st'.
Proof.
  intros Hplay Hpause Hwf Hin Hin' Hadj Hnull Hnull'.
  destruct (findConnectedCells_post _ _ row col Null Hwf Hin)
    as (cells & V' & Hfind & Hpost).
  destruct (visit_post_start _ _ _ _ _ _ Hpost Hnull) as [_ Hstart].
  assert ((row', col') ∈ cells) as Hother.
  { apply (visit_post_maximal _ _ _ _ _ _ Hpost (row, col)); [done|]. by split. }
  destruct Hpost as [_ _ _ Hcells _ _ _].
  assert (2 <= length cells)%nat as Hlen.
  { destruct cells as [|x [|y rest]]; simpl; [set_solver| |lia].
    apply list_elem_of_singleton in Hstart, Hother. simplify_eq.
    unfold adjacent in Hadj. simpl in Hadj. lia. }
  set (n := Z.of_nat (length cells)).
  set (st1 := setTimeout CbSettle 500 (calculateScore n (destroyCells cells st))).
  assert (score st1 = score st + (n * 10 + Z.max 0 ((n - 2) * 15)
                                  + combo st * 5 + level st * 2)
          ∧ combo st1 = combo st + 1
          ∧ (forall x, x ∈ cells ->
               Task (now st + 250) (CbDestroy x.1 x.2) ∈ tasks st1)
          ∧ Task (now st + 500) CbSettle ∈ tasks st1) as (Hs & Hc & Hd & Ht).
  { subst st1. rewrite destroyCells_tasks.
    unfold setTimeout, calculateScore. simpl.
    split; [done|]. split; [done|]. split; [|set_solver].
    intros x Hx. rewrite !elem_of_app. left. left. right.
    apply list_elem_of_fmap. exists x. split; [done|].
    apply list_elem_of_filter. split; [|done].
    apply Is_true_true, in_bounds_inside. destruct x.
    by destruct (Hcells _ Hx). }
  exists cells.
  exists (if decide (score st1 > level st1 * 600 ∧ level st1 <= 15)
          then levelUp st1 else st1).
  do 4 (split; [done|]). split.
  { intros x Hx. by destruct (Hcells x Hx) as (_ & ? & _). }
  split.
  { unfold handleCellClick. rewrite Hplay, Hpause, Hnull. simpl.
    rewrite Hfind. simpl. fold n. rewrite decide_True by lia. fold st1.
    by case_decide. }
  case_decide; simpl; (split; [done|]); (split; [done|]); (split; [|done]);
    intros x Hx; (split; [by apply Hd|done]).
Qed.

(** An instance: a board whose left column is empty. *)
Lemma empty_cells_matchable_witness :
  exists cells st',
    findConnectedCells (grid (smallGame [[Null; Num 2]; [Null; Num 4]]))
      (gridSize (smallGame [[Null; Num 2]; [Null; Num 4]])) 0 0 Null = Ret cells
    ∧ (2 <= length cells)%nat
    ∧ (0, 0) ∈ cells ∧ (1, 0) ∈ cells
    ∧ (forall x, x ∈ cells ->
         holds (grid (smallGame [[Null; Num 2]; [Null; Num 4]])) Null x)
    ∧ handleCellClick 0 0 (smallGame [[Null; Num 2]; [Null; Num 4]]) = Ret st'
    ∧ score st'
      = score (smallGame [[Null; Num 2]; [Null; Num 4]])
        + (Z.of_nat (length cells) * 10
           + Z.max 0 ((Z.of_nat (length cells) - 2) * 15)
           + combo (smallGame [[Null; Num 2]; [Null; Num 4]]) * 5
           + level (smallGame [[Null; Num 2]; [Null; Num 4]]) * 2)
    ∧ combo st' = combo (smallGame [[Null; Num 2]; [Null; Num 4]]) + 1
    ∧ (forall x, x ∈ cells ->
         Task (now (smallGame [[Null; Num 2]; [Null; Num 4]]) + 250)
           (CbDestroy x.1 x.2) ∈ tasks st'
         ∧ forall s, runCallback (CbDestroy x.1 x.2) s
                     = Ret (set_grid (grid_set (grid s) x.1 x.2 Null) s))
    ∧ Task (now (smallGame [[Null; Num 2]; [Null; Num 4]]) + 500) CbSettle
        ∈ tasks st'.
Proof.
  apply (empty_cells_matchable 0 0 1 0 (smallGame [[Null; Num 2]; [Null; Num 4]])).
  - reflexivity.
  - reflexivity.
  - split; [reflexivity|]. repeat constructor.
  - unfold inside. simpl. lia.
  - unfold inside. simpl. lia.
  - unfold adjacent. simpl. lia.
  - reflexivity.
  - reflexivity.
Defined.

(** Such a state occurs: in [emptyClickTrace] the whole board is empty
    250 ms after the first click, and the second click, on an empty
    cell, is accepted and scored as a match of 64 cells. *)
Example empty_group_scored_in_a_run :
  (fun st => (score st, combo st, grid_at (grid st) 0 0))
    <$> run (take 67 emptyClickTrace) (newGame zeroTape)
    = Some (1572, 1, Ret Null)
  ∧ (fun st => (score st, combo st)) <$> run emptyClickTrace (newGame zeroTape)
    = Some (3151, 2).
Proof. split; vm_compute; reflexivity. Qed.

(** ** Countdown *)

Lemma timerTick_timeLeft (st : Game) :
  isPaused st = false -> timeLeft (timerTick st) = timeLeft st - 1.
Proof.
  intros Hp. unfold timerTick. rewrite Hp. tick_cases st.
  all: case_decide; [|done].
  all: unfold endGame, _stopTimer; simpl; by destruct (timer st).
Qed.

(** A tick that leaves time on the clock changes neither the flags,
    the interval nor the score. *)
Lemma timerTick_running (st : Game) :
  isPaused st = false -> 0 < timeLeft st - 1 ->
  isPlaying (timerTick st) = isPlaying st
  ∧ isPaused (timerTick st) = false
  ∧ timer (timerTick st) = timer st
  ∧ score (timerTick st) = score st.
Proof.
  intros Hp Ht. unfold timerTick. rewrite Hp. tick_cases st.
  all: by rewrite decide_False by (simpl; lia).
Qed.

(** The tick that brings the clock to zero ends the game. *)
Lemma timerTick_ending (st : Game) :
  isPaused st = false -> timeLeft st - 1 <= 0 ->
  isPlaying (timerTick st) = false
  ∧ timer (timerTick st) = None
  ∧ (forall id t, timer st = Some id -> t ∈ tasks (timerTick st) ->
       cb t ≠ CbTick id)
  ∧ (exists pre, emitted (timerTick st)
                 = pre ++ [PostScore (score st); SfxGameOver]).
Proof.
  intros Hp Ht. unfold timerTick. rewrite Hp.
  assert (forall s, isPlaying (endGame s) = false
            ∧ timer (endGame s) = None
            ∧ (forall id t, timer s = Some id -> t ∈ tasks (endGame s) ->
                 cb t ≠ CbTick id)
            ∧ emitted (endGame s)
              = emitted s ++ [PostScore (score s); SfxGameOver]) as Hend.
  { intros s. unfold endGame, _stopTimer, emit. simpl.
    destruct (timer s) as [id|]; simpl.
    - split; [done|]. split; [done|]. split; [|by rewrite <-app_assoc].
      intros id' t [= <-] Ht'. by apply list_elem_of_filter in Ht' as [? _].
    - split; [done|]. split; [done|]. split; [done|by rewrite <-app_assoc]. }
  tick_cases st.
  all: rewrite decide_True by (simpl; lia).
  all: match goal with |- context [endGame ?s] =>
         destruct (Hend s) as (H1 & H2 & H3 & H4) end.
  all: split; [done|]; split; [done|]; split; [exact H3|].
  all: rewrite H4; simpl; eauto.
Qed.

Lemma ticks_S (k : nat) (st : Game) : ticks (S k) st = timerTick (ticks k st).
Proof. done. Qed.

(** While the clock has not run out, the ticks only count down. *)
Lemma ticks_running (n : nat) (st : Game) :
  isPaused st = false -> timeLeft st = Z.of_nat n ->
  forall k, (k < n)%nat ->
    isPlaying (ticks k st) = isPlaying st
    ∧ isPaused (ticks k st) = false
    ∧ timer (ticks k st) = timer st
    ∧ score (ticks k st) = score st
    ∧ timeLeft (ticks k st) = Z.of_nat n - Z.of_nat k.
Proof.
  intros Hp Ht k. induction k as [|k IH]; intros Hk.
  - simpl. rewrite Ht. repeat split; try done. lia.
  - destruct IH as (Hpl & Hpa & Htm & Hsc & Htl); [lia|].
    rewrite ticks_S.
    destruct (timerTick_running (ticks k st)) as (? & ? & ? & ?); [done|lia|].
    rewrite timerTick_timeLeft by done.
    repeat split; try congruence. lia.
Qed.

(** C7. In a session that is playing and not paused, a countdown
    tick takes exactly one second off [timeLeft]; while time remains
    the session goes on, and the tick that brings it to 0 ends the
    game: [isPlaying] becomes false, the interval is cancelled (no
    timer, no pending tick) and the final score is handed to
    [postScore]. From [timeLeft = 60] the session is still playing
    after each of the first 59 ticks and ends at the 60th. *)
Theorem countdown_ends_at_tick_60 (st : Game) :
  isPlaying st = true -> isPaused st = false ->
  timeLeft (timerTick st) = timeLeft st - 1
  ∧ (0 < timeLeft st - 1 ->
       isPlaying (timerTick st) = true ∧ timer (timerTick st) = timer st)
  ∧ (timeLeft st - 1 <= 0 ->
       isPlaying (timerTick st) = false
       ∧ timer (timerTick st) = None
       ∧ (forall id t, timer st = Some id -> t ∈ tasks (timerTick st) ->
            cb t ≠ CbTick id)
       ∧ exists pre, emitted (timerTick st)
                     = pre ++ [PostScore (score st); SfxGameOver])
  ∧ (timeLeft st = 60 ->
       (forall k, (k < 60)%nat ->
          isPlaying (ticks k st) = true
          ∧ timeLeft (ticks k st) = 60 - Z.of_nat k)
       ∧ isPlaying (ticks 60 st) = false
       ∧ timeLeft (ticks 60 st) = 0
       ∧ timer (ticks 60 st) = None
       ∧ exists pre, emitted (ticks 60 st)
                     = pre ++ [PostScore (score st); SfxGameOver]).
Proof.
  intros Hplay Hp. split; [by apply timerTick_timeLeft|]. split.
  { intros Ht. destruct (timerTick_running st Hp Ht) as (-> & _ & -> & _). done. }
  split; [by apply timerTick_ending|].
  intros Ht. split.
  { intros k Hk.
    destruct (ticks_running 60 st Hp Ht k Hk) as (-> & _ & _ & _ & ->). done. }
  destruct (ticks_running 60 st Hp Ht 59) as (Hpl & Hpa & Htm & Hsc & Htl); [lia|].
  rewrite (ticks_S 59).
  destruct (timerTick_ending (ticks 59 st)) as (? & ? & _ & pre & Hem); [done|lia|].
  rewrite timerTick_timeLeft by done.
  split; [done|]. split; [lia|]. split; [done|].
  exists pre. by rewrite Hem, Hsc.
Qed.

(** An instance: the session [smallGame], with 60 seconds left. *)
Lemma countdown_ends_at_tick_60_witness :
  timeLeft (timerTick (smallGame [])) = timeLeft (smallGame []) - 1
  ∧ (0 < timeLeft (smallGame []) - 1 ->
       isPlaying (timerTick (smallGame [])) = true
       ∧ timer (timerTick (smallGame [])) = timer (smallGame []))
  ∧ (timeLeft (smallGame []) - 1 <= 0 ->
       isPlaying (timerTick (smallGame [])) = false
       ∧ timer (timerTick (smallGame [])) = None
       ∧ (forall id t, timer (smallGame []) = Some id ->
            t ∈ tasks (timerTick (smallGame [])) -> cb t ≠ CbTick id)
       ∧ exists pre, emitted (timerTick (smallGame []))
                     = pre ++ [PostScore (score (smallGame [])); SfxGameOver])
  ∧ (timeLeft (smallGame []) = 60 ->
       (forall k, (k < 60)%nat ->
          isPlaying (ticks k (smallGame [])) = true
          ∧ timeLeft (ticks k (smallGame [])) = 60 - Z.of_nat k)
       ∧ isPlaying (ticks 60 (smallGame [])) = false
       ∧ timeLeft (ticks 60 (smallGame [])) = 0
       ∧ timer (ticks 60 (smallGame [])) = None
       ∧ exists pre, emitted (ticks 60 (smallGame []))
                     = pre ++ [PostScore (score (smallGame [])); SfxGameOver]).
Proof.
  apply (countdown_ends_at_tick_60 (smallGame [])).
  - reflexivity.
  - reflexivity.
Defined.

(** The same in the event loop: with a game started at 1000 ms, the
    timers that fire up to 60000 ms leave the session playing with one
    second left, and the tick of 61000 ms, the 60th, ends it. *)
Example countdown_in_the_event_loop :
  (fun st => (now st, timeLeft st, isPlaying st))
    <$> run ([After 1000 ClickStart] ++ replicate 74 Fire) (newGame zeroTape)
    = Some (60000, 1, true)
  ∧ (fun st => (now st, timeLeft st, isPlaying st, timer st))
      <$> run ([After 1000 ClickStart] ++ replicate 75 Fire) (newGame zeroTape)
    = Some (61000, 0, false, None).
Proof. split; vm_compute; reflexivity. Qed.

(** ** Reading and writing the board *)

Lemma wf_grid_row (size : Z) (g : Grid) (r : Z) :
  wf_grid size g -> 0 <= r < size ->
  exists row, g !! Z.to_nat r = Some row ∧ length row = Z.to_nat size.
Proof.
  intros [Hlen Hrows] Hr.
  destruct (g !! Z.to_nat r) as [row|] eqn:E.
  - exists row. split; [done|].
    by apply (Forall_lookup_1 _ _ _ _ Hrows E).
  - apply lookup_ge_None in E. lia.
Qed.

(** A read of the board is a lookup in a column. *)
Lemma grid_at_column (size : Z) (g : Grid) (r c : Z) :
  wf_grid size g -> 0 <= r < size ->
  grid_at g r c = from_option Ret Throw (column g c !! Z.to_nat r).
Proof.
  intros Hwf Hr. destruct (wf_grid_row _ _ _ Hwf Hr) as (row & Hrow & _).
  unfold grid_at, column. rewrite decide_True by lia.
  by rewrite list_lookup_fmap, Hrow.
Qed.

Lemma length_column (size : Z) (g : Grid) (c : Z) :
  wf_grid size g -> length (column g c) = Z.to_nat size.
Proof. intros [Hlen _]. unfold column. by rewrite length_fmap. Qed.

Lemma grid_set_wf (size : Z) (g : Grid) (r c : Z) (v : value) :
  wf_grid size g -> wf_grid size (grid_set g r c v).
Proof.
  intros [Hlen Hrows]. unfold grid_set. case_decide; [|done].
  destruct (g !! Z.to_nat r) as [row|] eqn:E; [|done].
  split; [by rewrite length_insert|].
  apply Forall_insert; [done|]. rewrite length_insert.
  by apply (Forall_lookup_1 _ _ _ _ Hrows E).
Qed.

(** A write to the board updates one slot of one column ... *)
Lemma column_grid_set (size : Z) (g : Grid) (r c : Z) (v : value) :
  wf_grid size g -> 0 <= r < size -> 0 <= c < size ->
  column (grid_set g r c v) c = <[Z.to_nat r := v]> (column g c).
Proof.
  intros Hwf Hr Hc. destruct (wf_grid_row _ _ _ Hwf Hr) as (row & Hrow & Hlen).
  unfold grid_set, column. rewrite decide_True by lia. rewrite Hrow.
  rewrite list_fmap_insert. f_equal.
  unfold row_at. rewrite decide_True by lia.
  rewrite list_lookup_insert_eq by lia. done.
Qed.

(** ... and leaves the other columns as they are. *)
Lemma column_grid_set_ne (g : Grid) (r c c' : Z) (v : value) :
  c ≠ c' -> column (grid_set g r c v) c' = column g c'.
Proof.
  intros Hne. unfold grid_set, column. case_decide as Hrc; [|done].
  destruct (g !! Z.to_nat r) as [row|] eqn:E; [|done].
  rewrite list_fmap_insert. apply list_insert_id.
  rewrite list_lookup_fmap, E. simpl. f_equal.
  unfold row_at. case_decide; [|done].
  rewrite list_lookup_insert_ne by lia. done.
Qed.

(** ** Gravity *)

Lemma insert_last_empty (m : nat) (v : value) (nn : list value) :
  <[m := v]> (replicate (S m) Null ++ nn) = replicate m Null ++ v :: nn.
Proof. induction m as [|m IH]; [done|]. simpl in *. by rewrite IH. Qed.

(** The two writes of [dropCell]: the value [v] above a block of
    empties lands on the last of them, and its slot becomes empty. *)
Lemma slide_step (A nn : list value) (v : value) (m : nat) :
  <[length A := Null]>
    (<[(length A + S m)%nat := v]> (A ++ v :: replicate (S m) Null ++ nn))
  = A ++ replicate (S m) Null ++ v :: nn.
Proof.
  induction A as [|a A IH].
  - exact (f_equal (cons Null) (insert_last_empty m v nn)).
  - exact (f_equal (cons a) IH).
Qed.

(** The inner loop after its first [k] iterations, on the bottom [k]
    rows: the rows above are untouched, the non-empty values of the
    bottom rows lie at the bottom in their order, the empties above
    them, and [write] is the last of these empties. *)
Lemma dropColumn_rows (size : Z) (g0 : Grid) (col : Z) (k : nat) :
  wf_grid size g0 -> 0 <= col < size -> (k <= Z.to_nat size)%nat ->
  exists g,
    foldl (fun acc row => dropCell col row acc) (Ret (g0, size - 1))
      (reverse (seqZ (size - Z.of_nat k) (Z.of_nat k)))
    = Ret (g, size - 1
              - Z.of_nat (length (filter nonEmpty
                                    (drop (Z.to_nat size - k) (column g0 col)))))
    ∧ wf_grid size g
    ∧ column g col
      = take (Z.to_nat size - k) (column g0 col)
        ++ replicate (k - length (filter nonEmpty
                                    (drop (Z.to_nat size - k) (column g0 col))))
             Null
        ++ filter nonEmpty (drop (Z.to_nat size - k) (column g0 col))
    ∧ forall c', c' ≠ col -> column g c' = column g0 c'.
Proof.
  intros Hwf Hcol. induction k as [|k IH]; intros Hk.
  - exists g0. simpl. rewrite Nat.sub_0_r.
    rewrite drop_ge, take_ge by (rewrite (length_column size); [lia|done]).
    simpl. rewrite Z.sub_0_r, app_nil_r. done.
  - destruct IH as (g & Hrun & Hwfg & Hcolumn & Hothers); [lia|].
    set (orig := column g0 col) in *.
    assert (length orig = Z.to_nat size) as Hlen by by apply length_column.
    set (i' := (Z.to_nat size - S k)%nat).
    replace (Z.to_nat size - k)%nat with (S i') in * by lia.
    destruct (lookup_lt_is_Some_2 orig i') as [v Hv]; [lia|].
    rewrite (take_S_r _ _ _ Hv) in Hcolumn.
    rewrite (drop_S _ _ _ Hv).
    set (nn := filter nonEmpty (drop (S i') orig)) in *.
    assert (length nn <= k)%nat as Hnn.
    { subst nn. etrans; [apply length_filter|]. rewrite length_drop. lia. }
    rewrite seqZ_cons by lia. rewrite reverse_cons, foldl_app. simpl.
    replace (Z.succ (size - Z.of_nat (S k))) with (size - Z.of_nat k) by lia.
    replace (Z.pred (Z.of_nat (S k))) with (Z.of_nat k) by lia.
    rewrite Hrun. simpl.
    assert (Z.to_nat (size - Z.of_nat (S k)) = i') as Hi' by lia.
    rewrite (grid_at_column size) by (done || lia).
    rewrite Hi', Hcolumn.
    rewrite <-app_assoc. rewrite lookup_app_r by (rewrite length_take; lia).
    rewrite length_take, Nat.min_l by lia. rewrite Nat.sub_diag. simpl.
    unfold strict_ne, strict_eq. case_bool_decide as Hnull; simpl.
    + (* an empty slot: nothing moves *)
      subst v. rewrite filter_cons_False by (unfold nonEmpty; naive_solver).
      fold nn. exists g. split; [done|]. split; [done|]. split; [|done].
      rewrite Hcolumn, <-app_assoc. simpl.
      replace (S k - length nn)%nat with (S (k - length nn)) by lia. done.
    + rewrite filter_cons_True by done. fold nn. simpl.
      case_decide as Hrw.
      * (* the value falls onto [write] *)
        assert (length nn < k)%nat as Hlt by lia.
        eexists. split; [f_equal; f_equal; lia|].
        split; [by do 2 apply grid_set_wf|]. split.
        -- rewrite (column_grid_set size); [|by apply grid_set_wf|lia|lia].
           rewrite (column_grid_set size); [|done|lia|lia].
           rewrite Hcolumn, <-app_assoc. simpl.
           replace (k - length nn)%nat with (S (k - length nn - 1)) by lia.
           replace (Z.to_nat (size - 1 - Z.of_nat (length nn)))
             with (length (take i' orig) + S (k - length nn - 1))%nat
             by (rewrite length_take; lia).
           replace (Z.to_nat (size - Z.of_nat (S k)))
             with (length (take i' orig)) by (rewrite length_take; lia).
           rewrite slide_step. done.
        -- intros c' Hc'. rewrite !column_grid_set_ne by done. by apply Hothers.
      * (* it is already in place *)
        assert (length nn = k)%nat as Heq by lia.
        exists g. split; [f_equal; f_equal; lia|]. split; [done|].
        split; [|done].
        rewrite Hcolumn, <-app_assoc. simpl.
        replace (k - length nn)%nat with 0%nat by lia.
        replace (k - S (length nn))%nat with 0%nat by lia. done.
Qed.

(** The whole inner loop: the column has slid down, the others are as
    they were. *)
Lemma dropColumn_spec (size : Z) (g0 : Grid) (col : Z) :
  wf_grid size g0 -> 0 <= col < size ->
  exists g,
    dropColumn size g0 col = Ret g
    ∧ wf_grid size g
    ∧ column g col = slidDown (column g0 col)
    ∧ forall c', c' ≠ col -> column g c' = column g0 c'.
Proof.
  intros Hwf Hcol.
  destruct (dropColumn_rows size g0 col (Z.to_nat size) Hwf Hcol)
    as (g & Hrun & Hwfg & Hcolumn & Hothers); [done|].
  rewrite Nat.sub_diag, drop_0, take_0 in *.
  replace (size - Z.of_nat (Z.to_nat size)) with 0 in Hrun by lia.
  replace (Z.of_nat (Z.to_nat size)) with size in Hrun by lia.
  exists g. unfold dropColumn. rewrite Hrun. simpl.
  split; [done|]. split; [done|]. split; [|done].
  unfold slidDown. by rewrite (length_column size).
Qed.

(** The outer loop after its first [j] iterations: the columns before
    [j] have slid down, the others are untouched. *)
Lemma dropCells_columns (size : Z) (g0 : Grid) (j : nat) :
  wf_grid size g0 -> (j <= Z.to_nat size)%nat ->
  exists g,
    foldl (fun acc col => g' ← acc; dropColumn size g' col) (Ret g0)
      (seqZ 0 (Z.of_nat j)) = Ret g
    ∧ wf_grid size g
    ∧ (forall c, 0 <= c < Z.of_nat j -> column g c = slidDown (column g0 c))
    ∧ (forall c, Z.of_nat j <= c -> column g c = column g0 c).
Proof.
  intros Hwf. induction j as [|j IH]; intros Hj.
  - exists g0. split; [done|]. split; [done|]. split; [lia|done].
  - destruct IH as (g & Hrun & Hwfg & Hdone & Hrest); [lia|].
    rewrite seqZ_S, foldl_app, Hrun, Z.add_0_l. simpl.
    destruct (dropColumn_spec size g (Z.of_nat j) Hwfg)
      as (g' & -> & Hwfg' & Hcolumn & Hothers); [lia|].
    exists g'. split; [done|]. split; [done|]. split.
    + intros c Hc. destruct (decide (c = Z.of_nat j)) as [->|Hne].
      * rewrite Hcolumn, Hrest by lia. done.
      * rewrite Hothers by done. apply Hdone. lia.
    + intros c Hc. rewrite Hothers by lia. apply Hrest. lia.
Qed.

(** [dropCells] on a board: every column has slid down. *)
Lemma dropCells_spec (size : Z) (g0 : Grid) :
  wf_grid size g0 ->
  exists g,
    dropCells size g0 = Ret g
    ∧ wf_grid size g
    ∧ forall c, 0 <= c < size -> column g c = slidDown (column g0 c).
Proof.
  intros Hwf.
  destruct (dropCells_columns size g0 (Z.to_nat size) Hwf)
    as (g & Hrun & Hwfg & Hdone & _); [done|].
  exists g. split; [|split; [done|]].
  - unfold dropCells. rewrite <-Hrun. f_equal.
    unfold seqZ. by rewrite Nat2Z.id.
  - intros c Hc. apply Hdone. lia.
Qed.

(** ** Refill *)

Lemma grid_at_grid_set (size : Z) (g : Grid) (r c : Z) (v : value) :
  wf_grid size g -> inside size (r, c) ->
  grid_at (grid_set g r c v) r c = Ret v.
Proof.
  intros Hwf [Hr Hc]. simpl in *.
  destruct (wf_grid_row _ _ _ Hwf Hr) as (row & Hrow & Hlen).
  unfold grid_at, grid_set. rewrite !decide_True by lia. rewrite Hrow.
  rewrite list_lookup_insert_eq by (apply lookup_lt_Some in Hrow; lia).
  unfold row_at. rewrite decide_True by lia.
  by rewrite list_lookup_insert_eq by lia.
Qed.

Lemma grid_at_grid_set_ne (g : Grid) (r c r' c' : Z) (v : value) :
  (r, c) ≠ (r', c') -> 0 <= r' -> 0 <= c' ->
  grid_at (grid_set g r c v) r' c' = grid_at g r' c'.
Proof.
  intros Hne Hr' Hc'. unfold grid_at.
  destruct (decide (0 <= r')) as [_|?]; [|lia].
  unfold grid_set. case_decide as Hrc; [|done].
  destruct (g !! Z.to_nat r) as [row|] eqn:E; [|done].
  destruct (decide (r = r')) as [->|Hr].
  - rewrite list_lookup_insert_eq by (apply lookup_lt_Some in E; lia).
    rewrite E. simpl. f_equal. unfold row_at. rewrite !decide_True by done.
    rewrite list_lookup_insert_ne; [done|]. intros Heq. apply Hne.
    f_equal. lia.
  - rewrite list_lookup_insert_ne by lia. done.
Qed.

(** ** Rounding to a double *)

(** What rounding does to a number [m >= 0]: with [2 ^ e] the spacing
    of the doubles at [m] and [lo * 2 ^ e] the double just below or at
    [m], the result is that double or the next one, and the next one
    only from the upper half of the gap. *)
Lemma roundDouble_spec (m : Z) :
  0 <= m ->
  exists e lo,
    0 <= e
    ∧ m < 2 ^ (53 + e)
    ∧ (0 < e -> 2 ^ (52 + e) <= m)
    ∧ lo * 2 ^ e <= m < (lo + 1) * 2 ^ e
    ∧ (roundDouble m = lo * 2 ^ e
       ∨ (roundDouble m = (lo + 1) * 2 ^ e ∧ 2 ^ e <= 2 * (m - lo * 2 ^ e))).
Proof.
  intros Hm. unfold roundDouble. rewrite (Z.abs_eq m) by done. cbv zeta.
  destruct (decide (Z.log2 m - 52 <= 0)) as [He|He].
  - exists 0, m. split; [done|]. split.
    + destruct (decide (m = 0)) as [->|Hne]; [done|].
      destruct (Z.log2_spec m) as [_ Hlt]; [lia|].
      eapply Z.lt_le_trans; [exact Hlt|].
      apply Z.pow_le_mono_r; lia.
    + split; [lia|]. rewrite Z.pow_0_r. split; [lia|]. left. lia.
  - set (e := Z.log2 m - 52) in *.
    assert (0 < m) as Hpos.
    { destruct (decide (m = 0)) as [Hz|]; [|lia]. exfalso. apply He. unfold e.
      rewrite Hz. done. }
    destruct (Z.log2_spec m Hpos) as [Hlo Hhi].
    replace (Z.log2 m) with (52 + e) in Hlo by (unfold e; lia).
    replace (Z.succ (Z.log2 m)) with (53 + e) in Hhi by (unfold e; lia).
    assert (0 < 2 ^ e) as HE by (apply Z.pow_pos_nonneg; lia).
    assert (2 ^ e = 2 * 2 ^ (e - 1)) as Hhalf.
    { rewrite <- Z.pow_succ_r by lia. f_equal. lia. }
    pose proof (Z.div_mod m (2 ^ e)) as Hdm.
    pose proof (Z.mod_pos_bound m (2 ^ e) HE) as Hr.
    rewrite (Z.sgn_pos m) by done.
    exists e, (m `div` 2 ^ e).
    split; [lia|]. split; [done|]. split; [done|]. split; [lia|].
    destruct (decide (m `mod` 2 ^ e < 2 ^ (e - 1))) as [Hlt|Hge]; [left; lia|].
    destruct (decide (m `mod` 2 ^ e = 2 ^ (e - 1)
                      ∧ Z.even (m `div` 2 ^ e) = true)) as [Htie|Hup];
      [left; lia|].
    right. split; [lia|]. lia.
Qed.

Lemma roundDouble_small (m : Z) : 0 <= m < randomUnit -> roundDouble m = m.
Proof.
  intros [Hm Hlt]. unfold roundDouble. rewrite (Z.abs_eq m) by done. cbv zeta.
  destruct (decide (Z.log2 m - 52 <= 0)) as [He|He]; [done|].
  exfalso. apply He.
  destruct (decide (m = 0)) as [->|Hne]; [done|].
  assert (Z.log2 m < 53); [|lia].
  apply Z.log2_lt_pow2; [lia|done].
Qed.

Lemma roundDouble_nonneg (m : Z) : 0 <= m -> 0 <= roundDouble m.
Proof.
  intros Hm. destruct (roundDouble_spec m Hm) as (e & lo & He & _ & _ & Hlo & Hr).
  assert (0 < 2 ^ e) as HE by (apply Z.pow_pos_nonneg; lia).
  assert (0 <= lo) by nia.
  destruct Hr as [->|[-> _]]; nia.
Qed.

(** Rounding does not cross a number that is a double at the spacing
    of [m]: a multiple of [2 ^ k] with [m < 2 ^ (53 + k)]. *)
Lemma roundDouble_bounds (k a b m : Z) :
  0 <= k -> 0 <= a * 2 ^ k <= m -> m <= b * 2 ^ k -> m < 2 ^ (53 + k) ->
  a * 2 ^ k <= roundDouble m <= b * 2 ^ k.
Proof.
  intros Hk [Ha Ham] Hmb Hlt.
  destruct (roundDouble_spec m) as (e & lo & He & _ & Hbig & Hlo & Hr); [lia|].
  assert (e <= k) as Hek.
  { destruct (decide (0 < e)) as [Hpos|]; [|lia].
    specialize (Hbig Hpos).
    apply Z.nlt_ge. intros Hke.
    assert (2 ^ (53 + k) <= 2 ^ (52 + e)); [|lia].
    apply Z.pow_le_mono_r; lia. }
  assert (2 ^ k = 2 ^ (k - e) * 2 ^ e) as Hsplit.
  { rewrite <- Z.pow_add_r by lia. f_equal. lia. }
  assert (0 < 2 ^ e) as HE by (apply Z.pow_pos_nonneg; lia).
  set (E := 2 ^ e) in *. set (D := 2 ^ (k - e)) in *.
  rewrite Hsplit in *. clearbody E D.
  assert (a * D <= lo) by nia.
  assert (lo <= b * D) by nia.
  destruct Hr as [->|[-> Hup]]; [nia|].
  split; [nia|].
  assert (lo + 1 <= b * D); [|nia].
  destruct (decide (lo = b * D)) as [->|]; [|lia]. nia.
Qed.

(** [Math.random() * n] stays below [n], also after rounding. *)
Lemma timesDouble_range (u n : Z) :
  0 <= u < randomUnit -> 0 < n -> 0 <= timesDouble u n < n * randomUnit.
Proof.
  intros [Hu Hlt] Hn. unfold timesDouble.
  split; [apply roundDouble_nonneg; nia|].
  destruct (roundDouble_spec (u * n)) as (e & lo & He & _ & Hbig & Hlo & Hr);
    [nia|].
  assert (0 < 2 ^ e) as HE by (apply Z.pow_pos_nonneg; lia).
  assert (u * n <= n * randomUnit - n) as Hgap by nia.
  destruct Hr as [->|[-> Hup]]; [nia|].
  destruct (decide (0 < e)) as [Hpos|Hz].
  - specialize (Hbig Hpos).
    rewrite Z.pow_add_r in Hbig by lia.
    unfold randomUnit in *.
    set (E := 2 ^ e) in *. clearbody E.
    apply Z.nle_gt. intros Hge. nia.
  - assert (e = 0) as -> by lia. rewrite Z.pow_0_r in *. lia.
Qed.

Lemma mathFloor_range (m n : Z) :
  0 <= m < n * randomUnit -> 0 <= mathFloor m < n.
Proof.
  intros [Hm Hlt]. unfold mathFloor. assert (0 < randomUnit) as HU by done.
  split; [apply Z.div_pos; lia|]. apply Z.div_lt_upper_bound; lia.
Qed.

(** The delay to the next spawn lies in [8000, 15000]. *)
Lemma spawnDelay_range (u : Z) :
  0 <= u < randomUnit -> 8000 <= spawnDelay u <= 15000.
Proof.
  intros Hu. unfold spawnDelay, mathFloor.
  pose proof (timesDouble_range u 7000 Hu) as Ht.
  assert (0 < randomUnit) as HU by done.
  destruct (roundDouble_bounds 14 (8000 * 2 ^ 39) (15000 * 2 ^ 39)
              (8000 * randomUnit + timesDouble u 7000)) as [Hlo Hhi].
  - done.
  - unfold randomUnit in *. lia.
  - unfold randomUnit in *. lia.
  - unfold randomUnit in *. lia.
  - split.
    + apply Z.div_le_lower_bound; [done|]. unfold randomUnit in *. lia.
    + apply Z.div_le_upper_bound; [done|]. unfold randomUnit in *. lia.
Qed.

(** The largest random number gives a delay of 15000 ms: the sum
    [8000 + 6999.999...] rounds up. *)
Lemma spawnDelay_last : spawnDelay (randomUnit - 1) = 15000.
Proof. vm_compute. reflexivity. Qed.

(** Against the literal 0.3, the comparison agrees with the exact one. *)
Lemma belowThreeTenths_exact (u : Z) :
  belowThreeTenths u <-> u * 10 < 3 * randomUnit.
Proof. unfold belowThreeTenths, randomUnit. lia. Qed.

(** The product is rounded before the floor is taken: for
    [Math.random()] = 0.7 the digit drawn is 7, while the exact
    product, 6.99..., has the floor 6. *)
Example floorRandom_seven_tenths :
  (floorRandom 10 (newGame (fun _ => 6305039478318694))).1 = 7
  ∧ (6305039478318694 * 10) `div` randomUnit = 6.
Proof. vm_compute. done. Qed.

(** [Math.floor(Math.random() * 10)] is a digit of [0, 9]; the draw
    leaves the board alone. *)
Lemma floorRandom_digit (st : Game) :
  0 <= (floorRandom 10 st).1 <= 9
  ∧ grid (floorRandom 10 st).2 = grid st
  ∧ gridSize (floorRandom 10 st).2 = gridSize st.
Proof.
  unfold floorRandom, mathRandom. simpl.
  assert (0 < randomUnit) as HU by done.
  pose proof (Z.mod_pos_bound (tape st (drawn st)) randomUnit HU) as Hu.
  split; [|done].
  pose proof (mathFloor_range _ 10 (timesDouble_range _ 10 Hu eq_refl)). lia.
Qed.

(** A loop over rows around a loop over columns is one loop over
    the cells, row by row. *)
Lemma foldl_cells {A : Type} (f : Z -> Z -> A -> A) (a : A) (rs cs : list Z) :
  foldl (fun acc r => foldl (fun acc c => f r c acc) acc cs) a rs
  = foldl (fun acc (x : Cell) => f x.1 x.2 acc) a (r ← rs; c ← cs; [(r, c)]).
Proof.
  revert a. induction rs as [|r rs IH]; intros a; [done|].
  rewrite bind_cons, foldl_app. simpl. rewrite IH. f_equal.
  clear. revert a. induction cs as [|c cs IH]; intros a; [done|].
  simpl. by rewrite IH.
Qed.

(** The loop of [fillEmptySpaces] over any cells of the board: each
    slot is as before or newly drawn, and the cells passed are no
    longer empty. *)
Lemma fillCell_cells (size : Z) (g0 : Grid) (cells : list Cell) :
  forall st,
  gridSize st = size -> wf_grid size (grid st) ->
  (forall x, x ∈ cells -> inside size x) ->
  (forall r c, inside size (r, c) ->
     exists a b, grid_at g0 r c = Ret a ∧ grid_at (grid st) r c = Ret b
                 ∧ refilling a b) ->
  exists st',
    foldl (fun acc (x : Cell) => fillCell x.1 x.2 acc) (Ret st) cells = Ret st'
    ∧ gridSize st' = size
    ∧ wf_grid size (grid st')
    ∧ (forall r c, inside size (r, c) ->
         exists a b, grid_at g0 r c = Ret a ∧ grid_at (grid st') r c = Ret b
                     ∧ refilling a b
                     ∧ (grid_at (grid st) r c ≠ Ret Null -> b ≠ Null)
                     ∧ ((r, c) ∈ cells -> b ≠ Null)).
Proof.
  induction cells as [|[r c] cells IH]; intros st Hsize Hwf Hcells Hinv.
  - exists st. split; [done|]. split; [done|]. split; [done|].
    intros r c Hin. destruct (Hinv r c Hin) as (a & b & Ha & Hb & Hab).
    exists a, b. do 3 (split; [done|]). split; [|set_solver].
    rewrite Hb. congruence.
  - assert (inside size (r, c)) as Hrc by (apply Hcells; set_solver).
    simpl. destruct (Hinv r c Hrc) as (a & b & Ha & Hb & Hab). rewrite Hb. simpl.
    unfold strict_eq. case_bool_decide as Hnull.
    + (* an empty slot receives a digit *)
      subst b. destruct (floorRandom_digit st) as (Hd & _).
      unfold floorRandom, mathRandom in Hd. simpl in Hd.
      set (d := mathFloor (timesDouble (tape st (drawn st) `mod` randomUnit) 10)) in *.
      set (st1 := set_drawn (S (drawn st)) st).
      assert (grid st1 = grid st) as Hg by done.
      destruct (IH (set_grid (grid_set (grid st1) r c (Num d)) st1))
        as (st' & Hrun & Hsize' & Hwf' & Hinv').
      { done. }
      { simpl. by apply grid_set_wf. }
      { intros x Hx. apply Hcells. set_solver. }
      { intros r' c' Hin'. simpl.
        destruct (decide ((r, c) = (r', c'))) as [[= <- <-]|Hne].
        - exists a, (Num d). split; [done|].
          split; [by apply (grid_at_grid_set size)|].
          right. destruct Hab as [?|[-> _]]; [|eauto]. subst a. eauto.
        - destruct (Hinv r' c' Hin') as (a' & b' & ? & ? & ?).
          exists a', b'. split; [done|]. split; [|done].
          destruct Hin' as [? ?]. simpl in *.
          rewrite grid_at_grid_set_ne by (done || lia). done. }
      exists st'. split; [exact Hrun|]. split; [done|]. split; [done|].
      intros r' c' Hin'.
      destruct (Hinv' r' c' Hin') as (a' & b' & ? & ? & ? & Hkeep & Hpass).
      exists a', b'. do 3 (split; [done|]). split.
      * intros Hnn. apply Hkeep. simpl.
        destruct (decide ((r, c) = (r', c'))) as [[= <- <-]|Hne].
        -- rewrite (grid_at_grid_set size) by done. done.
        -- destruct Hin' as [? ?]. simpl in *.
           rewrite grid_at_grid_set_ne by (done || lia). done.
      * intros [[= -> ->]|Hin2]%elem_of_cons; [|by apply Hpass].
        apply Hkeep. simpl.
        rewrite (grid_at_grid_set size) by done. done.
    + destruct (IH st Hsize Hwf) as (st' & Hrun & Hsize' & Hwf' & Hinv').
      { intros x Hx. apply Hcells. set_solver. }
      { done. }
      exists st'. split; [done|]. split; [done|]. split; [done|].
      intros r' c' Hin'. destruct (Hinv' r' c' Hin') as (a' & b' & ? & ? & ? & Hkeep & Hpass).
      exists a', b'. do 4 (split; [done|]).
      intros [[= -> ->]|Hin2]%elem_of_cons; [|by apply Hpass].
      apply Hkeep. rewrite Hb. congruence.
Qed.

Lemma filter_replicate_empty (n : nat) : filter nonEmpty (replicate n Null) = [].
Proof.
  induction n as [|n IH]; [done|]. simpl.
  rewrite filter_cons_False by (unfold nonEmpty; naive_solver). done.
Qed.

(** Sliding down keeps the non-empty values and their order. *)
Lemma filter_slidDown (l : list value) :
  filter nonEmpty (slidDown l) = filter nonEmpty l.
Proof.
  unfold slidDown. rewrite filter_app, filter_replicate_empty. simpl.
  induction l as [|v l IH]; [done|].
  destruct (decide (nonEmpty v)) as [Hv|Hv].
  - rewrite !filter_cons_True by done. by rewrite IH.
  - by rewrite !filter_cons_False.
Qed.

(** The refill loop registers no timer. *)
Lemma fillCell_tasks (r c : Z) (st st' : Game) :
  fillCell r c (Ret st) = Ret st' -> tasks st' = tasks st.
Proof.
  unfold fillCell. simpl. destruct (grid_at _ _ _) as [v| |]; simpl; [|done..].
  destruct (strict_eq v Null); by intros <-%Ret_inj.
Qed.

Lemma fillEmpty_tasks (st st' : Game) : fillEmpty st = Ret st' -> tasks st' = tasks st.
Proof.
  unfold fillEmpty. rewrite foldl_cells.
  generalize (r ← seqZ 0 (gridSize st); c ← seqZ 0 (gridSize st); [(r, c)]).
  intros cells. revert st'. induction cells as [|x cells IH] using rev_ind; intros st'.
  - by intros <-%Ret_inj.
  - rewrite foldl_app. cbn [foldl].
    destruct (foldl _ (Ret st) cells) as [st1| |] eqn:E; [|done..].
    intros H. rewrite (fillCell_tasks _ _ _ _ H). by apply IH.
Qed.

(** C6. On every board, [dropCells] returns a board in which each
    column holds the non-empty values it held, in the same vertical
    order, at the bottom, with the empties above them: the non-empty
    values of a column, read top to bottom, are as before.
    [fillEmptySpaces], called next by the settle callback, leaves that
    board as it is and its refill loop pending as a timeout 800 ms
    later. That callback, run on the board (and so the timer when it
    fires as the next one), returns a board with no empty cell: a slot
    that was not empty is unchanged, a slot that was empty holds a
    newly drawn digit of [0, 9]. *)
Theorem dropCells_then_fill (st : Game) :
  wf_grid (gridSize st) (grid st) ->
  exists g',
    dropCells (gridSize st) (grid st) = Ret g'
    ∧ wf_grid (gridSize st) g'
    ∧ (forall c, 0 <= c < gridSize st ->
         column g' c
         = replicate (length (column (grid st) c)
                      - length (filter nonEmpty (column (grid st) c))) Null
           ++ filter nonEmpty (column (grid st) c)
         ∧ filter nonEmpty (column g' c) = filter nonEmpty (column (grid st) c))
    ∧ settle st = Ret (fillEmptySpaces (set_grid g' st))
    ∧ grid (fillEmptySpaces (set_grid g' st)) = g'
    ∧ gridSize (fillEmptySpaces (set_grid g' st)) = gridSize st
    ∧ tasks (fillEmptySpaces (set_grid g' st))
      = tasks st ++ [Task (now st + 800) CbFill]
    ∧ (forall st1, grid st1 = g' -> gridSize st1 = gridSize st ->
        exists st',
          runCallback CbFill st1 = Ret st'
          ∧ fillEmpty st1 = Ret st'
          ∧ wf_grid (gridSize st) (grid st')
          ∧ forall r c, inside (gridSize st) (r, c) ->
              exists a b,
                grid_at g' r c = Ret a
                ∧ grid_at (grid st') r c = Ret b
                ∧ b ≠ Null
                ∧ (b = a ∨ (a = Null ∧ exists d, 0 <= d <= 9 ∧ b = Num d)))
    ∧ forall st1 d rest,
        grid st1 = g' -> gridSize st1 = gridSize st ->
        nextTask (tasks st1) = Some (Task d CbFill, rest) ->
        exists st',
          fire st1 = Some st'
          ∧ tasks st' = rest
          ∧ wf_grid (gridSize st) (grid st')
          ∧ forall r c, inside (gridSize st) (r, c) ->
              exists a b,
                grid_at g' r c = Ret a
                ∧ grid_at (grid st') r c = Ret b
                ∧ b ≠ Null
                ∧ (b = a ∨ (a = Null ∧ exists d, 0 <= d <= 9 ∧ b = Num d)).
Proof.
  intros Hwf.
  destruct (dropCells_spec _ _ Hwf) as (g' & Hdrop & Hwf' & Hcols).
  assert (forall st1, grid st1 = g' -> gridSize st1 = gridSize st ->
            exists st',
              fillEmpty st1 = Ret st'
              ∧ tasks st' = tasks st1
              ∧ wf_grid (gridSize st) (grid st')
              ∧ forall r c, inside (gridSize st) (r, c) ->
                  exists a b,
                    grid_at g' r c = Ret a
                    ∧ grid_at (grid st') r c = Ret b
                    ∧ b ≠ Null
                    ∧ (b = a ∨ (a = Null ∧ exists d, 0 <= d <= 9 ∧ b = Num d)))
    as Hfill.
  { intros st1 Hg Hsize.
    destruct (fillCell_cells (gridSize st) g' (allCells (gridSize st)) st1)
      as (st' & Hrun & _ & Hwf'' & Hinv).
    { done. }
    { by rewrite Hg. }
    { intros x Hx. by apply elem_of_allCells. }
    { intros r c Hin. destruct (grid_at_inside _ _ _ _ Hwf' Hin) as [v Hv].
      exists v, v. rewrite Hg. split; [done|]. split; [done|]. by left. }
    assert (fillEmpty st1 = Ret st') as Hrun'.
    { unfold fillEmpty. rewrite Hsize, foldl_cells. exact Hrun. }
    exists st'. split; [exact Hrun'|].
    split; [exact (fillEmpty_tasks _ _ Hrun')|]. split; [done|].
    intros r c Hin. destruct (Hinv r c Hin) as (a & b & Ha & Hb & Hab & _ & Hpass).
    exists a, b. split; [done|]. split; [done|]. split; [|done].
    apply Hpass. by apply elem_of_allCells. }
  exists g'. split; [done|]. split; [done|]. split.
  { intros c Hc. rewrite (Hcols c Hc). split; [done|]. apply filter_slidDown. }
  split; [unfold settle; by rewrite Hdrop|].
  split; [done|]. split; [done|]. split; [done|]. split.
  - intros st1 Hg Hsize.
    destruct (Hfill st1 Hg Hsize) as (st' & Hrun & _ & Hwf'' & Hcells).
    exists st'. done.
  - intros st1 d rest Hg Hsize Hnext.
    destruct (Hfill (set_now (Z.max (now st1) d) (set_tasks rest st1)))
      as (st' & Hrun & Htasks & Hwf'' & Hcells); [done..|].
    exists st'. split; [|done].
    unfold fire. rewrite Hnext. simpl. rewrite Hrun. done.
Qed.

(** An instance: a 2 x 2 board with two empty slots. *)
Lemma dropCells_then_fill_witness :
  exists g',
    dropCells (gridSize (smallGame [[Num 1; Null]; [Null; Num 4]])) (grid (smallGame [[Num 1; Null]; [Null; Num 4]])) = Ret g'
    ∧ wf_grid (gridSize (smallGame [[Num 1; Null]; [Null; Num 4]])) g'
    ∧ (forall c, 0 <= c < gridSize (smallGame [[Num 1; Null]; [Null; Num 4]]) ->
         column g' c
         = replicate (length (column (grid (smallGame [[Num 1; Null]; [Null; Num 4]])) c)
                      - length (filter nonEmpty (column (grid (smallGame [[Num 1; Null]; [Null; Num 4]])) c))) Null
           ++ filter nonEmpty (column (grid (smallGame [[Num 1; Null]; [Null; Num 4]])) c)
         ∧ filter nonEmpty (column g' c) = filter nonEmpty (column (grid (smallGame [[Num 1; Null]; [Null; Num 4]])) c))
    ∧ settle (smallGame [[Num 1; Null]; [Null; Num 4]]) = Ret (fillEmptySpaces (set_grid g' (smallGame [[Num 1; Null]; [Null; Num 4]])))
    ∧ grid (fillEmptySpaces (set_grid g' (smallGame [[Num 1; Null]; [Null; Num 4]]))) = g'
    ∧ gridSize (fillEmptySpaces (set_grid g' (smallGame [[Num 1; Null]; [Null; Num 4]]))) = gridSize (smallGame [[Num 1; Null]; [Null; Num 4]])
    ∧ tasks (fillEmptySpaces (set_grid g' (smallGame [[Num 1; Null]; [Null; Num 4]])))
      = tasks (smallGame [[Num 1; Null]; [Null; Num 4]]) ++ [Task (now (smallGame [[Num 1; Null]; [Null; Num 4]]) + 800) CbFill]
    ∧ (forall st1, grid st1 = g' -> gridSize st1 = gridSize (smallGame [[Num 1; Null]; [Null; Num 4]]) ->
        exists st',
          runCallback CbFill st1 = Ret st'
          ∧ fillEmpty st1 = Ret st'
          ∧ wf_grid (gridSize (smallGame [[Num 1; Null]; [Null; Num 4]])) (grid st')
          ∧ forall r c, inside (gridSize (smallGame [[Num 1; Null]; [Null; Num 4]])) (r, c) ->
              exists a b,
                grid_at g' r c = Ret a
                ∧ grid_at (grid st') r c = Ret b
                ∧ b ≠ Null
                ∧ (b = a ∨ (a = Null ∧ exists d, 0 <= d <= 9 ∧ b = Num d)))
    ∧ forall st1 d rest,
        grid st1 = g' -> gridSize st1 = gridSize (smallGame [[Num 1; Null]; [Null; Num 4]]) ->
        nextTask (tasks st1) = Some (Task d CbFill, rest) ->
        exists st',
          fire st1 = Some st'
          ∧ tasks st' = rest
          ∧ wf_grid (gridSize (smallGame [[Num 1; Null]; [Null; Num 4]])) (grid st')
          ∧ forall r c, inside (gridSize (smallGame [[Num 1; Null]; [Null; Num 4]])) (r, c) ->
              exists a b,
                grid_at g' r c = Ret a
                ∧ grid_at (grid st') r c = Ret b
                ∧ b ≠ Null
                ∧ (b = a ∨ (a = Null ∧ exists d, 0 <= d <= 9 ∧ b = Num d)).
Proof.
  apply (dropCells_then_fill (smallGame [[Num 1; Null]; [Null; Num 4]])).
  split; [reflexivity|]. repeat constructor.
Defined.

(** The cycle in the event loop: after the settle callback the board
    of [settleTrace] is still empty, and the refill callback, the
    next timer to fire, fills it. *)
Example settle_cycle_in_a_run :
  grid <$> run settleTrace (newGame zeroTape)
    = Some (replicate 8 (replicate 8 Null))
  ∧ grid <$> run (settleTrace ++ [Fire]) (newGame zeroTape)
    = Some (replicate 8 (replicate 8 (Num 0))).
Proof. split; vm_compute; reflexivity. Qed.

(** ** What leaves the clock alone *)

Lemma sameClock_refl (st : Game) : sameClock st st.
Proof. done. Qed.

Lemma sameClock_trans (st1 st2 st3 : Game) :
  sameClock st1 st2 -> sameClock st2 st3 -> sameClock st1 st3.
Proof. intros [? ?] [? ?]. split; congruence. Qed.

Lemma quiet_refl (st : Game) : quiet st st.
Proof. split; [done|]. exists []. by rewrite app_nil_r. Qed.

Lemma quiet_trans (st1 st2 st3 : Game) :
  quiet st1 st2 -> quiet st2 st3 -> quiet st1 st3.
Proof.
  intros [Ht1 (n1 & He1 & Hw1)] [Ht2 (n2 & He2 & Hw2)].
  split; [congruence|]. exists (n1 ++ n2).
  split; [by rewrite He2, He1, app_assoc|].
  unfold warnings in *. by rewrite omap_app, Hw1, Hw2.
Qed.

Lemma sameClock_quiet (st st' : Game) : sameClock st st' -> quiet st st'.
Proof.
  intros [Ht He]. split; [done|]. exists []. by rewrite app_nil_r.
Qed.

Lemma quiet_emit (sg : signal) (st : Game) :
  tickValue sg = None -> quiet st (emit sg st).
Proof.
  intros Hsg. split; [done|]. exists [sg]. split; [done|].
  unfold warnings. simpl. by rewrite Hsg.
Qed.

(** The functions of the engine other than the interval callback and
    the ones that set [timeLeft] leave the clock and the warning
    alone. *)
Lemma mathRandom_clock (st : Game) : sameClock st (mathRandom st).2.
Proof. done. Qed.

Lemma floorRandom_clock (n : Z) (st : Game) : sameClock st (floorRandom n st).2.
Proof. done. Qed.

Lemma randomRow_clock (n : nat) (st : Game) : sameClock st (randomRow n st).2.
Proof.
  revert st. induction n as [|n IH]; intros st; [done|].
  simpl. specialize (IH (set_drawn (S (drawn st)) st)).
  destruct (randomRow n _) as [row st1]. simpl in *. done.
Qed.

Lemma randomRows_clock (m n : nat) (st : Game) :
  sameClock st (randomRows m n st).2.
Proof.
  revert st. induction m as [|m IH]; intros st; [done|].
  simpl. pose proof (randomRow_clock n st) as H1.
  destruct (randomRow n st) as [row st1]. specialize (IH st1).
  destruct (randomRows m n st1) as [rows st2]. simpl in *.
  by eapply sameClock_trans.
Qed.

Lemma initializeGrid_clock (st : Game) : sameClock st (initializeGrid st).
Proof.
  unfold initializeGrid.
  pose proof (randomRows_clock (Z.to_nat (gridSize st)) (Z.to_nat (gridSize st)) st).
  destruct (randomRows _ _ st) as [g st1]. simpl in *. done.
Qed.

Lemma stopTimer_clock (st : Game) : sameClock st (_stopTimer st).
Proof. unfold _stopTimer. by destruct (timer st). Qed.

Lemma startTimer_clock (st : Game) : sameClock st (_startTimer st).
Proof. unfold _startTimer, _stopTimer. by destruct (timer st). Qed.

Lemma destroyCells_clock (cells : list Cell) (st : Game) :
  sameClock st (destroyCells cells st).
Proof. by rewrite destroyCells_tasks. Qed.

Lemma pickCells_clock (n : nat) (cells : list Cell) (st : Game) :
  sameClock st (pickCells n cells st).2.
Proof.
  revert cells st. induction n as [|n IH]; intros cells st; [done|].
  simpl. eapply sameClock_trans; [|apply IH]. done.
Qed.

Lemma endGame_quiet (st : Game) : quiet st (endGame st).
Proof.
  unfold endGame.
  eapply quiet_trans; [|apply quiet_emit; done].
  eapply quiet_trans; [|apply quiet_emit; done].
  apply sameClock_quiet. unfold clearPowerUps, _stopTimer. simpl.
  by destruct (timer st).
Qed.

Lemma levelUp_quiet (st : Game) : quiet st (levelUp st).
Proof. unfold levelUp. eapply quiet_trans; [|apply quiet_emit; done]. by apply sameClock_quiet. Qed.

Lemma fillCell_clock (r c : Z) (st st' : Game) :
  fillCell r c (Ret st) = Ret st' -> sameClock st st'.
Proof.
  unfold fillCell. simpl. destruct (grid_at (grid st) r c) as [v| |]; [|done..].
  simpl. destruct (strict_eq v Null); intros <-%Ret_inj; done.
Qed.

Lemma fillCell_cells_clock (cells : list Cell) (st st' : Game) :
  foldl (fun acc (x : Cell) => fillCell x.1 x.2 acc) (Ret st) cells = Ret st' ->
  sameClock st st'.
Proof.
  revert st. induction cells as [|[r c] cells IH]; intros st; cbn [foldl fst snd].
  - by intros <-%Ret_inj.
  - destruct (fillCell r c (Ret st)) as [st1| |] eqn:E.
    + intros Hrun. eapply sameClock_trans; [by eapply fillCell_clock|by apply IH].
    + intros Hrun. exfalso. clear -Hrun. induction cells as [|x cells IH]; [done|].
      by apply IH.
    + intros Hrun. exfalso. clear -Hrun. induction cells as [|x cells IH]; [done|].
      by apply IH.
Qed.

Lemma fillEmpty_clock (st st' : Game) : fillEmpty st = Ret st' -> sameClock st st'.
Proof. unfold fillEmpty. rewrite foldl_cells. apply fillCell_cells_clock. Qed.

Lemma settle_clock (st st' : Game) : settle st = Ret st' -> sameClock st st'.
Proof.
  unfold settle. destruct (dropCells _ _) as [g| |]; [|done..].
  by intros <-%Ret_inj.
Qed.

Lemma handleCellClick_quiet (row col : Z) (st st' : Game) :
  handleCellClick row col st = Ret st' -> quiet st st'.
Proof.
  unfold handleCellClick.
  destruct (negb (isPlaying st) || isPaused st); [intros <-%Ret_inj; apply quiet_refl|].
  destruct (grid_at _ _ _) as [digit| |]; [|done..]. simpl.
  destruct (findConnectedCells _ _ _ _ _) as [cells| |]; [|done..]. simpl.
  case_decide.
  - set (st1 := setTimeout _ _ _).
    assert (sameClock st st1) as Hst1.
    { subst st1. unfold setTimeout, calculateScore. simpl.
      apply (destroyCells_clock cells st). }
    case_decide; intros <-%Ret_inj.
    + eapply quiet_trans; [by apply sameClock_quiet|apply levelUp_quiet].
    + by apply sameClock_quiet.
  - intros <-%Ret_inj. by apply quiet_emit.
Qed.

Lemma explodeRandomCells_quiet (st : Game) : quiet st (explodeRandomCells st).
Proof.
  unfold explodeRandomCells.
  pose proof (pickCells_clock 8 [] st) as Hpick.
  destruct (pickCells 8 [] st) as [cells st1]. simpl in Hpick.
  set (st2 := set_score _ _).
  assert (sameClock st st2) as Hst2.
  { subst st2. eapply sameClock_trans; [exact Hpick|].
    apply (destroyCells_clock cells st1). }
  case_decide.
  - eapply quiet_trans; [by apply sameClock_quiet|].
    eapply quiet_trans; [apply levelUp_quiet|]. by apply sameClock_quiet.
  - by apply sameClock_quiet.
Qed.

Lemma clearRandomDigit_quiet (st st' : Game) :
  clearRandomDigit st = Ret st' -> quiet st st'.
Proof.
  unfold clearRandomDigit. simpl.
  destruct (cellsHolding _ _ _) as [cells| |]; [|done..]. simpl.
  case_decide; [|by intros <-%Ret_inj; apply sameClock_quiet].
  set (st1 := set_drawn _ _). set (st2 := set_score _ _).
  assert (sameClock st st2) as Hst2.
  { subst st2. apply (sameClock_trans _ st1); [done|].
    apply (destroyCells_clock cells st1). }
  case_decide; intros <-%Ret_inj.
  - eapply quiet_trans; [by apply sameClock_quiet|].
    eapply quiet_trans; [apply levelUp_quiet|]. by apply sameClock_quiet.
  - by apply sameClock_quiet.
Qed.

Lemma activatePowerUp_quiet (type : powerType) (el : nat) (st st' : Game) :
  type ≠ TimeBoost -> activatePowerUp type el st = Ret st' -> quiet st st'.
Proof.
  intros Htype. unfold activatePowerUp.
  set (st0 := set_powerUps _ st).
  assert (quiet st st0) as Hst0 by by apply sameClock_quiet.
  destruct type; [done| | | |].
  - intros <-%Ret_inj. eapply quiet_trans; [done|apply explodeRandomCells_quiet].
  - case_decide; intros <-%Ret_inj.
    + eapply quiet_trans; [|apply levelUp_quiet]. by apply sameClock_quiet.
    + by apply sameClock_quiet.
  - intros <-%Ret_inj. by apply sameClock_quiet.
  - intros Hrun. eapply quiet_trans; [done|by apply clearRandomDigit_quiet].
Qed.

Lemma spawnPowerUps_clock (st : Game) : sameClock st (spawnPowerUps st).
Proof.
  unfold spawnPowerUps. destruct (negb (isPlaying st)); [done|].
  simpl. by case_decide.
Qed.

Lemma powerUpExpire_clock (el : nat) (st : Game) : sameClock st (powerUpExpire el st).
Proof. unfold powerUpExpire. by case_decide. Qed.

Lemma pauseGame_clock (st : Game) : sameClock st (pauseGame st).
Proof.
  unfold pauseGame. destruct (isPaused st).
  - eapply sameClock_trans; [|apply startTimer_clock]. done.
  - eapply sameClock_trans; [|apply stopTimer_clock]. done.
Qed.

Lemma comboDecay_clock (st : Game) : sameClock st (comboDecay st).
Proof. unfold comboDecay. by case_decide. Qed.

(** ** The countdown and its warning *)

Lemma quiet_countsDown (st st1 : Game) : quiet st st1 -> countsDown st st1.
Proof.
  intros [Ht (new & He & Hw)]. split; [lia|]. exists new. split; [done|by left].
Qed.

Lemma countsDown_quiet_l (st st1 st2 : Game) :
  quiet st st1 -> countsDown st1 st2 -> countsDown st st2.
Proof.
  intros [Ht (n1 & He1 & Hw1)] [Hle (n2 & He2 & Hw2)].
  split; [lia|]. exists (n1 ++ n2).
  split; [by rewrite He2, He1, app_assoc|].
  unfold warnings in *. rewrite omap_app, Hw1. simpl. rewrite <-Ht. done.
Qed.

Lemma countsDown_quiet_r (st st1 st2 : Game) :
  countsDown st st1 -> quiet st1 st2 -> countsDown st st2.
Proof.
  intros [Hle (n1 & He1 & Hw1)] [Ht (n2 & He2 & Hw2)].
  split; [lia|]. exists (n1 ++ n2).
  split; [by rewrite He2, He1, app_assoc|].
  unfold warnings in *. rewrite omap_app, Hw2, app_nil_r, Ht. done.
Qed.

(** A tick gives the warning only for the value it has just counted
    down to. *)
Lemma timerTick_countsDown (st : Game) : countsDown st (timerTick st).
Proof.
  destruct (isPaused st) eqn:Hp.
  { unfold timerTick. rewrite Hp. apply quiet_countsDown, quiet_refl. }
  unfold timerTick. rewrite Hp. tick_cases st.
  - (* in the last ten seconds, a value not yet signalled *)
    set (st1 := set_lastTickPlayed _ _).
    assert (countsDown st st1) as Hst1.
    { subst st1. split; [simpl; lia|]. exists [SfxTick (timeLeft st - 1)].
      split; [done|]. right. split; [done|]. simpl. lia. }
    case_decide; [|done].
    eapply countsDown_quiet_r; [done|apply endGame_quiet].
  - set (st1 := set_timeLeft _ _).
    assert (countsDown st st1) as Hst1.
    { subst st1. split; [simpl; lia|]. exists []. split; [|by left].
      simpl. by rewrite app_nil_r. }
    case_decide; [|done].
    eapply countsDown_quiet_r; [done|apply endGame_quiet].
  - set (st1 := set_timeLeft _ _).
    assert (countsDown st st1) as Hst1.
    { subst st1. split; [simpl; lia|]. exists []. split; [|by left].
      simpl. by rewrite app_nil_r. }
    case_decide; [|done].
    eapply countsDown_quiet_r; [done|apply endGame_quiet].
Qed.

Lemma runCallback_countsDown (c : callback) (st st1 : Game) :
  runCallback c st = Ret st1 -> countsDown st st1.
Proof.
  destruct c; simpl.
  - intros <-%Ret_inj. apply timerTick_countsDown.
  - intros <-%Ret_inj. by apply quiet_countsDown, sameClock_quiet.
  - intros <-%Ret_inj. by apply quiet_countsDown, sameClock_quiet.
  - intros H. by apply quiet_countsDown, sameClock_quiet, settle_clock.
  - intros H. by apply quiet_countsDown, sameClock_quiet, fillEmpty_clock.
  - intros <-%Ret_inj. apply quiet_countsDown, sameClock_quiet, comboDecay_clock.
  - intros <-%Ret_inj. by apply quiet_countsDown, sameClock_quiet.
  - intros <-%Ret_inj. apply quiet_countsDown, sameClock_quiet, powerUpExpire_clock.
  - intros <-%Ret_inj. apply quiet_countsDown, sameClock_quiet, spawnPowerUps_clock.
Qed.

(** A timer that fires counts down at most. *)
Lemma fire_countsDown (st st1 : Game) : fire st = Some st1 -> countsDown st st1.
Proof.
  unfold fire. destruct (nextTask (tasks st)) as [[t rest]|]; [|done]. simpl.
  set (st0 := set_now _ _).
  assert (quiet st st0) as Hst0 by by apply sameClock_quiet.
  destruct (runCallback (cb t) st0) as [st2| |] eqn:Hcb; [|done..]. simpl.
  apply runCallback_countsDown in Hcb.
  assert (countsDown st st2) as Hst2 by by eapply countsDown_quiet_l.
  destruct (cb t); try (by intros [= <-]).
  case_decide; intros [= <-]; [|done].
  eapply countsDown_quiet_r; [done|]. by apply sameClock_quiet.
Qed.

(** An action that does not set the clock forward is quiet. *)
Lemma perform_quiet (a : action) (st st1 : Game) :
  (forall d, addsTime st (After d a) = false) ->
  perform a st = Some st1 -> quiet st st1.
Proof.
  intros Hadd. specialize (Hadd 0). destruct a; simpl in *; try done.
  - destruct (in_bounds _ _ _); [|done].
    destruct (handleCellClick row col st) as [st2| |] eqn:E; [|done..].
    intros [= <-]. by eapply handleCellClick_quiet.
  - destruct (isPlaying st); [|done]. intros [= <-].
    apply sameClock_quiet, pauseGame_clock.
  - intros [= <-]. apply sameClock_quiet, initializeGrid_clock.
  - destruct (list_find _ _) as [[i [el' type]]|]; [|done]. simpl.
    destruct (activatePowerUp type el st) as [st2| |] eqn:E; [|done..].
    intros [= <-]. eapply activatePowerUp_quiet; [|done].
    by intros ->.
  - intros [= <-]. unfold showRewardedVideo.
    apply sameClock_quiet.
    eapply sameClock_trans; [|apply stopTimer_clock]. done.
Qed.

(** So does every event that does not set the clock forward. *)
Lemma step_countsDown (e : event) (st st1 : Game) :
  addsTime st e = false -> step e st = Some st1 -> countsDown st st1.
Proof.
  destruct e as [|delay a]; simpl.
  - intros _. apply fire_countsDown.
  - intros Hadd. case_decide; [|done]. intros Hp.
    apply quiet_countsDown.
    eapply quiet_trans; [|eapply perform_quiet; [|exact Hp]].
    + by apply sameClock_quiet.
    + intros d. exact Hadd.
Qed.

(** A run proceeds event by event, and stops at an impossible one. *)
Lemma run_cons (e : event) (es : list event) (st : Game) :
  run (e :: es) st = step e st ≫= run es.
Proof.
  unfold run. simpl. destruct (step e st) as [st1|]; [done|].
  simpl. induction es as [|e' es IH]; [done|]. simpl. exact IH.
Qed.

(** Strictly decreasing values are pairwise distinct. *)
Lemma sorted_warnings_NoDup (l : list Z) :
  StronglySorted (fun a b => b < a) l -> NoDup l.
Proof.
  induction 1 as [|a l Hs IH Hall]; constructor; [|done].
  intros Hin. rewrite Forall_forall in Hall. specialize (Hall a Hin). lia.
Qed.

(** Along a run that never sets the clock forward, the warnings carry
    strictly decreasing values, between the final and the initial
    value of the clock. *)
Lemma steady_run_warnings (es : list event) :
  forall st st', steady es st -> run es st = Some st' ->
  timeLeft st' <= timeLeft st
  ∧ exists new,
      emitted st' = emitted st ++ new
      ∧ StronglySorted (fun a b => b < a) (warnings new)
      ∧ Forall (fun t => timeLeft st' <= t < timeLeft st) (warnings new).
Proof.
  induction es as [|e es IH]; intros st st' Hsteady Hrun.
  - injection Hrun as <-. split; [lia|]. exists []. rewrite app_nil_r.
    split; [done|]. split; constructor.
  - rewrite run_cons in Hrun. destruct Hsteady as [Hadd Hrest].
    destruct (step e st) as [st1|] eqn:Hstep; [|done]. simpl in Hrun.
    destruct (step_countsDown e st st1 Hadd Hstep) as [Hle1 (n1 & He1 & Hw1)].
    destruct (IH st1 st' Hrest Hrun) as [Hle2 (n2 & He2 & Hs2 & Hall2)].
    split; [lia|]. exists (n1 ++ n2).
    split; [by rewrite He2, He1, app_assoc|].
    unfold warnings in *. rewrite omap_app.
    destruct Hw1 as [->|[-> Hlt]]; simpl.
    + split; [done|]. eapply Forall_impl; [exact Hall2|]. simpl. lia.
    + split.
      * constructor; [done|]. eapply Forall_impl; [exact Hall2|]. simpl. lia.
      * constructor; [lia|]. eapply Forall_impl; [exact Hall2|]. simpl. lia.
Qed.

(** C8, as the code has it. The low-time warning does repeat a value:
    in the run [warnTrace] it is given for 10, 9, ..., 4, a "⚡" sets
    the clock from 4 to 14, and it is given for 10 again. *)
Lemma lowTime_warning_repeats :
  exists st,
    run warnTrace (newGame zeroTape) = Some st
    ∧ warnings (emitted st) = [10; 9; 8; 7; 6; 5; 4; 10]
    ∧ ¬ NoDup (warnings (emitted st)).
Proof.
  eexists. split; [vm_compute; reflexivity|].
  split; [vm_compute; reflexivity|].
  change (¬ NoDup [10; 9; 8; 7; 6; 5; 4; 10]).
  intros [Hnotin _]%NoDup_cons. apply Hnotin. set_solver.
Qed.

(** C8, amended. In a run during which the clock is never set forward
    (no start or reset, no video reward, no "⚡"), the low-time warning
    is given at most once per value of [timeLeft]: the values it is
    given for are pairwise distinct, strictly decreasing, and lie
    between the final and the initial value of the clock. *)
Theorem lowTime_warning_once_while_counting_down
    (es : list event) (st st' : Game) :
  steady es st -> run es st = Some st' ->
  exists new,
    emitted st' = emitted st ++ new
    ∧ NoDup (warnings new)
    ∧ StronglySorted (fun a b => b < a) (warnings new)
    ∧ Forall (fun t => timeLeft st' <= t < timeLeft st) (warnings new).
Proof.
  intros Hsteady Hrun.
  destruct (steady_run_warnings es st st' Hsteady Hrun)
    as [_ (new & He & Hs & Hall)].
  exists new. split; [done|]. split; [by apply sorted_warnings_NoDup|done].
Qed.

(** An instance: the last three ticks of a game. *)
Lemma lowTime_warning_once_while_counting_down_witness :
  exists new,
    emitted (default (smallGame []) (run [Fire; Fire; Fire]
                                      (set_timeLeft 3 (smallGame []))))
    = emitted (set_timeLeft 3 (smallGame [])) ++ new
    ∧ NoDup (warnings new)
    ∧ StronglySorted (fun a b => b < a) (warnings new)
    ∧ Forall (fun t =>
                timeLeft (default (smallGame []) (run [Fire; Fire; Fire]
                                      (set_timeLeft 3 (smallGame []))))
                <= t < timeLeft (set_timeLeft 3 (smallGame [])))
        (warnings new).
Proof.
  apply (lowTime_warning_once_while_counting_down [Fire; Fire; Fire]
           (set_timeLeft 3 (smallGame []))).
  - vm_compute. repeat split.
  - vm_compute. reflexivity.
Defined.

(** ** Level and combo *)

Lemma pickCells_level (n : nat) (cells : list Cell) (st : Game) :
  level (pickCells n cells st).2 = level st.
Proof.
  revert cells st. induction n as [|n IH]; intros cells st; [done|].
  simpl. etrans; [apply IH|done].
Qed.

Lemma levelUp_level (st : Game) : level (levelUp st) = level st + 1.
Proof. done. Qed.

(** The true half of C2: whatever a click on a cell or on a power-up
    earns, the level goes up by one at most, and never down. *)
Lemma level_step_at_most_one :
  (forall row col st st',
     handleCellClick row col st = Ret st' ->
     level st <= level st' <= level st + 1)
  ∧ (forall type el st st',
       activatePowerUp type el st = Ret st' ->
       level st <= level st' <= level st + 1).
Proof.
  split.
  - intros row col st st'. unfold handleCellClick.
    destruct (negb (isPlaying st) || isPaused st); [intros <-%Ret_inj; lia|].
    destruct (grid_at _ _ _) as [digit| |]; [|done..]. simpl.
    destruct (findConnectedCells _ _ _ _ _) as [cells| |]; [|done..]. simpl.
    case_decide; [|intros <-%Ret_inj; simpl; lia].
    set (st1 := setTimeout _ _ _).
    assert (level st1 = level st) as Hst1.
    { subst st1. by rewrite destroyCells_tasks. }
    clearbody st1.
    case_decide; intros <-%Ret_inj; rewrite ?levelUp_level; lia.
  - intros type el st st'. unfold activatePowerUp.
    set (st0 := set_powerUps _ st).
    assert (level st0 = level st) as Hst0 by done. clearbody st0.
    destruct type.
    + intros <-%Ret_inj. simpl. lia.
    + intros <-%Ret_inj. unfold explodeRandomCells.
      pose proof (pickCells_level 8 [] st0) as Hpick.
      destruct (pickCells 8 [] st0) as [cells st1]. simpl in Hpick.
      set (st2 := set_score _ _).
      assert (level st2 = level st0) as Hst2.
      { subst st2. by rewrite destroyCells_tasks. }
      clearbody st2.
      case_decide; unfold setTimeout; simpl; lia.
    + set (st1 := set_score _ st0).
      assert (level st1 = level st0) as Hst1 by done. clearbody st1.
      case_decide; intros <-%Ret_inj; rewrite ?levelUp_level; lia.
    + intros <-%Ret_inj. simpl. lia.
    + unfold clearRandomDigit. simpl.
      destruct (cellsHolding _ _ _) as [cells| |]; [|done..]. simpl.
      case_decide; [|intros <-%Ret_inj; simpl; lia].
      set (st2 := set_score _ _).
      assert (level st2 = level st0) as Hst2.
      { subst st2. by rewrite destroyCells_tasks. }
      clearbody st2.
      case_decide; intros <-%Ret_inj; unfold setTimeout; simpl; lia.
Qed.

(** The true half of C3: the decay step takes one off a positive
    combo and leaves a combo of 0 at 0, and scoring adds one. *)
Lemma combo_decay_clamped (st : Game) :
  0 <= combo st ->
  combo (comboDecay st) = Z.max 0 (combo st - 1)
  ∧ 0 <= combo (comboDecay st)
  ∧ forall n, combo (calculateScore n st) = combo st + 1.
Proof.
  intros Hc. unfold comboDecay. case_decide; simpl; repeat split; lia.
Qed.

(** C2. The level does exceed 15 through scoring. After eighteen
    "🎯" power-ups the session has score 9000 and level 15; the click
    on a group then passes the test [score > level * 600 && level <= 15]
    at level 15 and leaves level 16, and so does a nineteenth "🎯",
    whose test has no bound on the level. Both sessions are reachable
    from boot. *)
Theorem level_reaches_16 :
  (fun st => (score st, level st)) <$> run levelTrace (newGame (spawnTape 2))
    = Some (9000, 15)
  ∧ level <$> run levelTraceClick (newGame (spawnTape 2)) = Some 16
  ∧ level <$> run levelTraceBonus (newGame (spawnTape 2)) = Some 16
  ∧ exists st, reachable st ∧ isPlaying st = true ∧ level st = 16.
Proof.
  do 3 (split; [vm_compute; reflexivity|]).
  eexists. split.
  - exists (spawnTape 2), levelTraceClick. vm_compute. reflexivity.
  - split; vm_compute; reflexivity.
Qed.

(** C3. The combo does become negative. A "⭐" raises the combo to 3
    and schedules [combo -= 3]; a restart (or a reset) in between
    sets the combo to 0 and leaves the callback pending; when it
    fires the combo is -3, on a playing session in the first run and
    on an idle one in the second. Both sessions are reachable from
    boot. *)
Theorem combo_reaches_minus_3 :
  (fun st => (isPlaying st, combo st)) <$> run comboTrace (newGame (spawnTape 3))
    = Some (true, -3)
  ∧ (fun st => (isPlaying st, combo st))
      <$> run comboTraceReset (newGame (spawnTape 3))
    = Some (false, -3)
  ∧ exists st, reachable st ∧ isPlaying st = true ∧ combo st = -3.
Proof.
  do 2 (split; [vm_compute; reflexivity|]).
  eexists. split.
  - exists (spawnTape 3), comboTrace. vm_compute. reflexivity.
  - split; vm_compute; reflexivity.
Qed.

(** ** Reset *)

Lemma set_drawn_set_drawn (a b : nat) (st : Game) :
  set_drawn a (set_drawn b st) = set_drawn a st.
Proof. done. Qed.

(** A row of [initializeGrid]: [n] digits, [n] draws. *)
Lemma randomRow_spec (n : nat) (st : Game) :
  (randomRow n st).2 = set_drawn (n + drawn st) st
  ∧ length (randomRow n st).1 = n
  ∧ Forall isDigit (randomRow n st).1.
Proof.
  revert st. induction n as [|n IH]; intros st.
  - split; [by destruct st|]. split; [done|constructor].
  - simpl. destruct (floorRandom_digit st) as (Hd & _).
    unfold floorRandom, mathRandom in Hd. simpl in Hd.
    destruct (IH (set_drawn (S (drawn st)) st)) as (Hst & Hlen & Hall).
    destruct (randomRow n _) as [row st1]. simpl in *. subst st1.
    split; [|split].
    + rewrite set_drawn_set_drawn. f_equal. lia.
    + by rewrite Hlen.
    + constructor; [|done]. eexists. split; [exact Hd|done].
Qed.

Lemma randomRows_spec (m n : nat) (st : Game) :
  (randomRows m n st).2 = set_drawn (m * n + drawn st) st
  ∧ length (randomRows m n st).1 = m
  ∧ Forall (fun row => length row = n ∧ Forall isDigit row) (randomRows m n st).1.
Proof.
  revert st. induction m as [|m IH]; intros st.
  - split; [by destruct st|]. split; [done|constructor].
  - simpl. destruct (randomRow_spec n st) as (Hst1 & Hlen1 & Hall1).
    destruct (randomRow n st) as [row st1]. simpl in *. subst st1.
    destruct (IH (set_drawn (n + drawn st) st)) as (Hst & Hlen & Hall).
    destruct (randomRows m n _) as [rows st2]. simpl in *. subst st2.
    split; [|split].
    + rewrite set_drawn_set_drawn. f_equal. lia.
    + by rewrite Hlen.
    + constructor; done.
Qed.

(** [initializeGrid] draws a full board of digits and touches nothing
    else but the tape. *)
Lemma initializeGrid_spec (st : Game) :
  exists g k,
    initializeGrid st = set_grid g (set_drawn k st)
    ∧ wf_grid (gridSize st) g
    ∧ forall r c, inside (gridSize st) (r, c) ->
        exists v, grid_at g r c = Ret v ∧ isDigit v.
Proof.
  unfold initializeGrid.
  destruct (randomRows_spec (Z.to_nat (gridSize st)) (Z.to_nat (gridSize st)) st)
    as (Hst & Hlen & Hall).
  destruct (randomRows _ _ st) as [g st1]. simpl in *. subst st1.
  exists g, (Z.to_nat (gridSize st) * Z.to_nat (gridSize st) + drawn st)%nat.
  assert (wf_grid (gridSize st) g) as Hwf.
  { split; [done|]. eapply Forall_impl; [exact Hall|]. by intros row [? _]. }
  split; [done|]. split; [done|].
  intros r c [[Hr0 Hr] [Hc0 Hc]]. simpl in *.
  destruct (wf_grid_row _ _ _ Hwf (conj Hr0 Hr)) as (row & Hrow & Hrlen).
  unfold grid_at. rewrite decide_True by done. rewrite Hrow.
  destruct (Forall_lookup_1 _ _ _ _ Hall Hrow) as [_ Hdigits].
  destruct (lookup_lt_is_Some_2 row (Z.to_nat c)) as [v Hv]; [lia|].
  exists v. split.
  - unfold row_at. rewrite decide_True by done. by rewrite Hv.
  - by apply (Forall_lookup_1 _ _ _ _ Hdigits Hv).
Qed.

(** C9, as the code has it. The callbacks of a settle cycle survive a
    reset: after a click on a group and a reset 50 ms later the board
    is freshly drawn, the next timer to fire is a [destroyCells]
    callback registered before the reset, and when it fires it
    empties a cell of the new board. *)
Lemma reset_leaves_settle_pending :
  exists st1 st2,
    run resetTrace (newGame zeroTape) = Some st1
    ∧ grid_at (grid st1) 0 0 = Ret (Num 0)
    ∧ fst <$> nextTask (tasks st1) = Some (Task 1600 (CbDestroy 0 0))
    ∧ now st1 = 1400
    ∧ fire st1 = Some st2
    ∧ grid_at (grid st2) 0 0 = Ret Null.
Proof.
  eexists. eexists. split; [vm_compute; reflexivity|].
  repeat split; vm_compute; reflexivity.
Qed.

(** [_stopTimer] cancels the interval and touches nothing else of
    the session. *)
Lemma stopTimer_fields (st : Game) :
  score (_stopTimer st) = score st
  ∧ combo (_stopTimer st) = combo st
  ∧ level (_stopTimer st) = level st
  ∧ timeLeft (_stopTimer st) = timeLeft st
  ∧ isPlaying (_stopTimer st) = isPlaying st
  ∧ isPaused (_stopTimer st) = isPaused st
  ∧ powerUps (_stopTimer st) = powerUps st
  ∧ gridSize (_stopTimer st) = gridSize st
  ∧ timer (_stopTimer st) = None
  ∧ (forall id t, timer st = Some id -> t ∈ tasks (_stopTimer st) ->
       cb t ≠ CbTick id).
Proof.
  unfold _stopTimer. destruct (timer st) as [id|]; simpl.
  - do 9 (split; [done|]).
    intros id' t [= <-] Ht. by apply list_elem_of_filter in Ht as [? _].
  - do 9 (split; [done|]). done.
Qed.

(** C9, amended. [resetGame], from any state, sets the score to 0, the
    combo to 0, the level to 1 and [timeLeft] to 60, leaves the
    session neither playing nor paused, with a board fully populated
    with digits of [0, 9]; it cancels the countdown (no timer, no
    pending tick of the interval) and empties the list of power-ups,
    so that the expiry of a power-up, a spawn or a combo decay that
    fires on the reset session changes nothing. The callbacks of a
    settle cycle are not part of this statement. *)
Theorem resetGame_state (st : Game) :
  score (resetGame st) = 0
  ∧ combo (resetGame st) = 0
  ∧ level (resetGame st) = 1
  ∧ timeLeft (resetGame st) = 60
  ∧ isPlaying (resetGame st) = false
  ∧ isPaused (resetGame st) = false
  ∧ wf_grid (gridSize st) (grid (resetGame st))
  ∧ (forall r c, inside (gridSize st) (r, c) ->
       exists d, 0 <= d <= 9 ∧ grid_at (grid (resetGame st)) r c = Ret (Num d))
  ∧ timer (resetGame st) = None
  ∧ (forall id t, timer st = Some id -> t ∈ tasks (resetGame st) ->
       cb t ≠ CbTick id)
  ∧ powerUps (resetGame st) = []
  ∧ (forall el, powerUpExpire el (resetGame st) = resetGame st)
  ∧ spawnPowerUps (resetGame st) = resetGame st
  ∧ comboDecay (resetGame st) = resetGame st.
Proof.
  unfold resetGame.
  set (st0 := clearPowerUps _).
  destruct (stopTimer_fields st0)
    as (Hsc & Hco & Hle & Htl & Hpl & Hpa & Hpu & Hgs & Htm & Hta).
  destruct (initializeGrid_spec (_stopTimer st0)) as (g & k & -> & Hwf & Hdigits).
  rewrite Hgs in Hwf, Hdigits.
  change (gridSize st0) with (gridSize st) in Hwf, Hdigits.
  change (score st0) with 0 in Hsc. change (combo st0) with 0 in Hco.
  change (level st0) with 1 in Hle. change (timeLeft st0) with 60 in Htl.
  change (isPlaying st0) with false in Hpl. change (isPaused st0) with false in Hpa.
  change (powerUps st0) with (@nil (nat * powerType)) in Hpu.
  change (timer st0) with (timer st) in Hta.
  clearbody st0.
  split; [exact Hsc|]. split; [exact Hco|]. split; [exact Hle|].
  split; [exact Htl|]. split; [exact Hpl|]. split; [exact Hpa|].
  split; [exact Hwf|]. split.
  { intros r c Hin. destruct (Hdigits r c Hin) as (v & Hv & d & Hd & ->). eauto. }
  split; [exact Htm|]. split; [exact Hta|]. split; [exact Hpu|]. split.
  { intros el. unfold powerUpExpire.
    change (powerUps (set_grid g (set_drawn k (_stopTimer st0))))
      with (powerUps (_stopTimer st0)).
    rewrite Hpu. rewrite decide_False by set_solver. done. }
  split.
  { unfold spawnPowerUps.
    change (isPlaying (set_grid g (set_drawn k (_stopTimer st0))))
      with (isPlaying (_stopTimer st0)).
    by rewrite Hpl. }
  unfold comboDecay.
  change (combo (set_grid g (set_drawn k (_stopTimer st0))))
    with (combo (_stopTimer st0)).
  rewrite Hco. by rewrite decide_False by lia.
Qed.

(** ** The board stays well formed *)

Lemma sameBoard_refl (st : Game) : sameBoard st st.
Proof. done. Qed.

Lemma sameBoard_trans (st1 st2 st3 : Game) :
  sameBoard st1 st2 -> sameBoard st2 st3 -> sameBoard st1 st3.
Proof. intros [? ?] [? ?]. split; congruence. Qed.

Lemma sameBoard_ok (st st' : Game) : sameBoard st st' -> boardOk st -> boardOk st'.
Proof. intros [Hg Hs]. unfold boardOk. by rewrite Hg, Hs. Qed.

(** An assignment to a field other than [grid] leaves the board. *)
Lemma set_score_board (v : Z) (st : Game) : sameBoard st (set_score v st).
Proof. done. Qed.

Lemma set_timeLeft_board (v : Z) (st : Game) : sameBoard st (set_timeLeft v st).
Proof. done. Qed.

Lemma set_combo_board (v : Z) (st : Game) : sameBoard st (set_combo v st).
Proof. done. Qed.

Lemma set_level_board (v : Z) (st : Game) : sameBoard st (set_level v st).
Proof. done. Qed.

Lemma set_isPlaying_board (v : bool) (st : Game) : sameBoard st (set_isPlaying v st).
Proof. done. Qed.

Lemma set_isPaused_board (v : bool) (st : Game) : sameBoard st (set_isPaused v st).
Proof. done. Qed.

Lemma set_timer_board (v : option nat) (st : Game) : sameBoard st (set_timer v st).
Proof. done. Qed.

Lemma set_powerUps_board (v : list (nat * powerType)) (st : Game) : sameBoard st (set_powerUps v st).
Proof. done. Qed.

Lemma set_startCooldown_board (v : bool) (st : Game) : sameBoard st (set_startCooldown v st).
Proof. done. Qed.

Lemma set_lastTickPlayed_board (v : option Z) (st : Game) : sameBoard st (set_lastTickPlayed v st).
Proof. done. Qed.

Lemma set_now_board (v : Z) (st : Game) : sameBoard st (set_now v st).
Proof. done. Qed.

Lemma set_tasks_board (v : list task) (st : Game) : sameBoard st (set_tasks v st).
Proof. done. Qed.

Lemma set_nextId_board (v : nat) (st : Game) : sameBoard st (set_nextId v st).
Proof. done. Qed.

Lemma set_drawn_board (v : nat) (st : Game) : sameBoard st (set_drawn v st).
Proof. done. Qed.

Lemma set_emitted_board (v : list signal) (st : Game) : sameBoard st (set_emitted v st).
Proof. done. Qed.

Lemma setTimeout_board (c : callback) (delay : Z) (st : Game) :
  sameBoard st (setTimeout c delay st).
Proof. done. Qed.

Lemma emit_board (sg : signal) (st : Game) : sameBoard st (emit sg st).
Proof. done. Qed.

Lemma clearPowerUps_board (st : Game) : sameBoard st (clearPowerUps st).
Proof. done. Qed.

Lemma levelUp_board (st : Game) : sameBoard st (levelUp st).
Proof. done. Qed.

Lemma stopTimer_board (st : Game) : sameBoard st (_stopTimer st).
Proof. unfold _stopTimer. by destruct (timer st). Qed.

Lemma startTimer_board (st : Game) : sameBoard st (_startTimer st).
Proof. unfold _startTimer, _stopTimer. by destruct (timer st). Qed.

Lemma destroyCells_board (cells : list Cell) (st : Game) :
  sameBoard st (destroyCells cells st).
Proof. by rewrite destroyCells_tasks. Qed.

Lemma calculateScore_board (n : Z) (st : Game) : sameBoard st (calculateScore n st).
Proof. done. Qed.

Lemma comboDecay_board (st : Game) : sameBoard st (comboDecay st).
Proof. unfold comboDecay. by case_decide. Qed.

Lemma powerUpExpire_board (el : nat) (st : Game) : sameBoard st (powerUpExpire el st).
Proof. unfold powerUpExpire. by case_decide. Qed.

Lemma spawnPowerUps_board (st : Game) : sameBoard st (spawnPowerUps st).
Proof.
  unfold spawnPowerUps. destruct (negb (isPlaying st)); [done|].
  simpl. by case_decide.
Qed.

Create HintDb board.
#[local] Hint Resolve set_score_board set_timeLeft_board set_combo_board
  set_level_board set_isPlaying_board set_isPaused_board set_timer_board
  set_powerUps_board set_startCooldown_board set_lastTickPlayed_board
  set_now_board set_tasks_board set_nextId_board set_drawn_board
  set_emitted_board setTimeout_board emit_board clearPowerUps_board
  levelUp_board stopTimer_board startTimer_board destroyCells_board
  calculateScore_board comboDecay_board powerUpExpire_board
  spawnPowerUps_board : board.

(** Peel the calls off a state one at a time, from the outside. *)
Ltac board_chain :=
  repeat first
    [ apply sameBoard_refl
    | eapply sameBoard_trans; [|solve [auto 1 with board]] ].

Lemma pickCells_board (n : nat) (cells : list Cell) (st : Game) :
  sameBoard st (pickCells n cells st).2.
Proof.
  revert cells st. induction n as [|n IH]; intros cells st; [done|].
  simpl. eapply sameBoard_trans; [|apply IH]. done.
Qed.

Lemma endGame_board (st : Game) : sameBoard st (endGame st).
Proof. unfold endGame. cbv zeta. board_chain. Qed.

Lemma timerTick_board (st : Game) : sameBoard st (timerTick st).
Proof.
  destruct (isPaused st) eqn:Hp; unfold timerTick; rewrite Hp; [done|].
  tick_cases st.
  all: case_decide; [eapply sameBoard_trans; [|apply endGame_board]|].
  all: board_chain.
Qed.

Lemma startGame_board (st : Game) : sameBoard st (startGame st).
Proof. unfold startGame. cbv zeta. board_chain. Qed.

Lemma pauseGame_board (st : Game) : sameBoard st (pauseGame st).
Proof. unfold pauseGame. destruct (isPaused st); board_chain. Qed.

Lemma handleCellClick_board (row col : Z) (st st' : Game) :
  handleCellClick row col st = Ret st' -> sameBoard st st'.
Proof.
  unfold handleCellClick.
  destruct (negb (isPlaying st) || isPaused st); [by intros <-%Ret_inj|].
  destruct (grid_at _ _ _) as [digit| |]; [|done..]. simpl.
  destruct (findConnectedCells _ _ _ _ _) as [cells| |]; [|done..]. simpl.
  case_decide; [|by intros <-%Ret_inj].
  case_decide; intros <-%Ret_inj; board_chain.
Qed.

Lemma explodeRandomCells_board (st : Game) : sameBoard st (explodeRandomCells st).
Proof.
  unfold explodeRandomCells.
  pose proof (pickCells_board 8 [] st) as Hpick.
  destruct (pickCells 8 [] st) as [cells st1]. simpl in Hpick.
  eapply sameBoard_trans; [exact Hpick|]. clear Hpick.
  cbv zeta. case_decide; board_chain.
Qed.

Lemma clearRandomDigit_board (st st' : Game) :
  clearRandomDigit st = Ret st' -> sameBoard st st'.
Proof.
  unfold clearRandomDigit, floorRandom, mathRandom.
  set (st1 := set_drawn _ st).
  assert (sameBoard st st1) as Hst1 by (subst st1; board_chain).
  clearbody st1. cbv zeta.
  destruct (cellsHolding _ _ _) as [cells| |]; [|done..]. simpl.
  case_decide; [|by intros <-%Ret_inj].
  intros <-%Ret_inj. eapply sameBoard_trans; [exact Hst1|].
  case_decide; board_chain.
Qed.

Lemma activatePowerUp_board (type : powerType) (el : nat) (st st' : Game) :
  activatePowerUp type el st = Ret st' -> sameBoard st st'.
Proof.
  unfold activatePowerUp.
  set (st0 := set_powerUps _ st).
  assert (sameBoard st st0) as Hst0 by (subst st0; board_chain).
  clearbody st0. cbv zeta. destruct type.
  - intros <-%Ret_inj. eapply sameBoard_trans; [exact Hst0|]. board_chain.
  - intros <-%Ret_inj. eapply sameBoard_trans; [exact Hst0|].
    apply explodeRandomCells_board.
  - case_decide; intros <-%Ret_inj;
      (eapply sameBoard_trans; [exact Hst0|]); board_chain.
  - intros <-%Ret_inj. eapply sameBoard_trans; [exact Hst0|]. board_chain.
  - intros Hrun. eapply sameBoard_trans; [exact Hst0|].
    by apply clearRandomDigit_board.
Qed.

(** What redraws or rewrites the board keeps it well formed. *)
Lemma initializeGrid_ok (st : Game) :
  boardOk (initializeGrid st) ∧ gridSize (initializeGrid st) = gridSize st.
Proof.
  destruct (initializeGrid_spec st) as (g & k & -> & Hwf & _). by split.
Qed.

Lemma resetGame_ok (st : Game) : boardOk (resetGame st).
Proof.
  unfold resetGame. cbv zeta.
  set (st0 := _stopTimer _).
  assert (sameBoard st st0) as [_ Hs] by (subst st0; board_chain).
  clearbody st0. apply initializeGrid_ok.
Qed.

Lemma grid_set_ok (r c : Z) (v : value) (st : Game) :
  boardOk st -> boardOk (set_grid (grid_set (grid st) r c v) st).
Proof. unfold boardOk. simpl. apply grid_set_wf. Qed.

Lemma settle_ok (st st' : Game) : settle st = Ret st' -> boardOk st -> boardOk st'.
Proof.
  unfold settle, boardOk. intros Hrun Hwf.
  destruct (dropCells_spec _ _ Hwf) as (g & Hg & Hwfg & _).
  rewrite Hg in Hrun. simpl in Hrun. apply Ret_inj in Hrun as <-. done.
Qed.

Lemma fillEmpty_ok (st st' : Game) : fillEmpty st = Ret st' -> boardOk st -> boardOk st'.
Proof.
  unfold boardOk. intros Hrun Hwf.
  destruct (fillCell_cells (gridSize st) (grid st) (allCells (gridSize st)) st)
    as (st2 & Hrun2 & Hsize & Hwf2 & _); try done.
  - intros x Hx. by apply elem_of_allCells.
  - intros r c Hin. destruct (grid_at_inside _ _ _ _ Hwf Hin) as [v Hv].
    exists v, v. split; [done|]. split; [done|]. by left.
  - unfold fillEmpty in Hrun. rewrite foldl_cells in Hrun.
    unfold allCells in Hrun2. rewrite Hrun in Hrun2.
    apply Ret_inj in Hrun2 as <-. by rewrite Hsize.
Qed.

Lemma runCallback_ok (c : callback) (st st' : Game) :
  runCallback c st = Ret st' -> boardOk st -> boardOk st'.
Proof.
  destruct c; simpl.
  - intros <-%Ret_inj. apply sameBoard_ok, timerTick_board.
  - intros <-%Ret_inj. apply sameBoard_ok. board_chain.
  - intros <-%Ret_inj. apply grid_set_ok.
  - apply settle_ok.
  - apply fillEmpty_ok.
  - intros <-%Ret_inj. apply sameBoard_ok, comboDecay_board.
  - intros <-%Ret_inj. apply sameBoard_ok. unfold comboBoostEnd. board_chain.
  - intros <-%Ret_inj. apply sameBoard_ok, powerUpExpire_board.
  - intros <-%Ret_inj. apply sameBoard_ok, spawnPowerUps_board.
Qed.

Lemma fire_ok (st st' : Game) : fire st = Some st' -> boardOk st -> boardOk st'.
Proof.
  unfold fire. destruct (nextTask (tasks st)) as [[t rest]|]; [|done]. simpl.
  set (st0 := set_now _ _).
  assert (sameBoard st st0) as Hst0 by (subst st0; board_chain).
  clearbody st0.
  destruct (runCallback (cb t) st0) as [st2| |] eqn:Hcb; [|done..]. simpl.
  intros Hst' Hok. assert (boardOk st2) as Hok2.
  { eapply runCallback_ok; [exact Hcb|]. by eapply sameBoard_ok. }
  destruct (cb t); try (by injection Hst' as <-).
  case_decide; injection Hst' as <-; [|done].
  eapply sameBoard_ok; [|exact Hok2]. board_chain.
Qed.

Lemma handleStartButton_ok (st : Game) : boardOk st -> boardOk (handleStartButton st).
Proof.
  intros Hok. unfold handleStartButton.
  destruct (_startCooldown st); [done|]. cbv zeta.
  set (st0 := setTimeout _ _ _).
  assert (boardOk st0) as Hok0.
  { eapply sameBoard_ok; [|exact Hok]. subst st0. board_chain. }
  clearbody st0.
  destruct (negb (isPlaying st0) || isPaused st0).
  - by eapply sameBoard_ok; [apply startGame_board|].
  - eapply sameBoard_ok; [apply startGame_board|]. apply resetGame_ok.
Qed.

Lemma perform_ok (a : action) (st st' : Game) :
  perform a st = Some st' -> boardOk st -> boardOk st'.
Proof.
  destruct a; simpl.
  - destruct (in_bounds _ _ _); [|done].
    destruct (handleCellClick row col st) as [st2| |] eqn:E; [|done..].
    intros [= <-]. by eapply sameBoard_ok, handleCellClick_board.
  - intros [= <-]. apply handleStartButton_ok.
  - destruct (isPlaying st); [|done]. intros [= <-].
    apply sameBoard_ok, pauseGame_board.
  - intros [= <-] _. apply resetGame_ok.
  - intros [= <-] _. apply initializeGrid_ok.
  - destruct (list_find _ _) as [[i [el' type]]|]; [|done]. simpl.
    destruct (activatePowerUp type el st) as [st2| |] eqn:E; [|done..].
    intros [= <-]. by eapply sameBoard_ok, activatePowerUp_board.
  - intros [= <-]. apply sameBoard_ok. unfold showRewardedVideo. board_chain.
  - intros [= <-]. apply sameBoard_ok. unfold giveReward. cbv zeta. board_chain.
Qed.

Lemma step_ok (e : event) (st st' : Game) :
  step e st = Some st' -> boardOk st -> boardOk st'.
Proof.
  destruct e as [|delay a]; simpl; [apply fire_ok|].
  case_decide; [|done]. intros Hp Hok.
  eapply perform_ok; [exact Hp|].
  eapply sameBoard_ok; [|exact Hok]. board_chain.
Qed.

(** In every reachable session the board is a square of [gridSize]
    rows of [gridSize] slots: the boards the properties above are
    stated for are the boards that occur. *)
Lemma reachable_boardOk (st : Game) : reachable st -> boardOk st.
Proof.
  intros (rnd & es & Hrun). revert Hrun.
  assert (boardOk (newGame rnd)) as Hok by apply initializeGrid_ok.
  revert Hok. generalize (newGame rnd). clear rnd.
  induction es as [|e es IH]; intros st0 Hok Hrun.
  - by injection Hrun as <-.
  - rewrite run_cons in Hrun.
    destruct (step e st0) as [st1|] eqn:Hstep; [|done].
    eapply IH; [|exact Hrun]. by eapply step_ok.
Qed.

(** ** Induction over runs *)

Lemma run_snoc (es : list event) (e : event) (st : Game) :
  run (es ++ [e]) st = run es st ≫= step e.
Proof. unfold run. by rewrite foldl_app. Qed.

Lemma reachable_inv (P : Game -> Prop) :
  (forall rnd, P (newGame rnd)) ->
  (forall e st st', P st -> step e st = Some st' -> P st') ->
  forall st, reachable st -> P st.
Proof.
  intros Hboot Hstep st (rnd & es & Hrun). revert st Hrun.
  induction es as [|e es IH] using rev_ind; intros st Hrun.
  - apply (inj Some) in Hrun. rewrite <- Hrun. apply Hboot.
  - rewrite run_snoc in Hrun.
    destruct (run es (newGame rnd)) as [st0|] eqn:E; [|done].
    simpl in Hrun. eapply Hstep; [by apply IH|done].
Qed.

(** ** What leaves the controls alone *)

Lemma sameControl_refl (st : Game) : sameControl st st.
Proof. done. Qed.

Lemma sameControl_trans (st1 st2 st3 : Game) :
  sameControl st1 st2 -> sameControl st2 st3 -> sameControl st1 st3.
Proof.
  intros (?&?&?&?&?&?) (?&?&?&?&?&?). repeat split; congruence.
Qed.

Lemma set_grid_control (v : Grid) (st : Game) : sameControl st (set_grid v st).
Proof. done. Qed.

Lemma set_score_control (v : Z) (st : Game) : sameControl st (set_score v st).
Proof. done. Qed.

Lemma set_timeLeft_control (v : Z) (st : Game) : sameControl st (set_timeLeft v st).
Proof. done. Qed.

Lemma set_combo_control (v : Z) (st : Game) : sameControl st (set_combo v st).
Proof. done. Qed.

Lemma set_level_control (v : Z) (st : Game) : sameControl st (set_level v st).
Proof. done. Qed.

Lemma set_startCooldown_control (v : bool) (st : Game) :
  sameControl st (set_startCooldown v st).
Proof. done. Qed.

Lemma set_lastTickPlayed_control (v : option Z) (st : Game) :
  sameControl st (set_lastTickPlayed v st).
Proof. done. Qed.

Lemma set_now_control (v : Z) (st : Game) : sameControl st (set_now v st).
Proof. done. Qed.

Lemma set_drawn_control (v : nat) (st : Game) : sameControl st (set_drawn v st).
Proof. done. Qed.

Lemma emit_control (sg : signal) (st : Game) : sameControl st (emit sg st).
Proof. done. Qed.

Lemma filter_none {A : Type} (P : A -> Prop) `{forall x, Decision (P x)}
    (l : list A) :
  Forall (fun x => ¬ P x) l -> filter P l = [].
Proof.
  induction 1 as [|x l Hx _ IH]; [done|]. by rewrite filter_cons_False.
Qed.

Lemma pendingTicks_app (l : list task) (st : Game) :
  Forall (fun t => ¬ isTick t) l ->
  pendingTicks (set_tasks (tasks st ++ l) st) = pendingTicks st.
Proof.
  intros Hl. unfold pendingTicks. simpl. rewrite filter_app.
  rewrite (filter_none _ l); [by rewrite app_nil_r|done].
Qed.

Lemma set_tasks_app_control (l : list task) (st : Game) :
  Forall (fun t => ¬ isTick t) l ->
  sameControl st (set_tasks (tasks st ++ l) st).
Proof. intros Hl. repeat split. by apply pendingTicks_app. Qed.

Lemma setTimeout_control (c : callback) (delay : Z) (st : Game) :
  (forall id, c ≠ CbTick id) -> sameControl st (setTimeout c delay st).
Proof.
  intros Hc. apply set_tasks_app_control. constructor; [|done].
  unfold isTick. simpl. destruct c; try tauto. by specialize (Hc id).
Qed.

Lemma destroyCells_control (cells : list Cell) (st : Game) :
  sameControl st (destroyCells cells st).
Proof.
  rewrite destroyCells_tasks. apply set_tasks_app_control.
  apply Forall_fmap, Forall_forall. intros x _. unfold isTick. simpl. tauto.
Qed.

Lemma calculateScore_control (n : Z) (st : Game) :
  sameControl st (calculateScore n st).
Proof.
  unfold calculateScore. cbv zeta.
  eapply sameControl_trans; [|by apply setTimeout_control]. done.
Qed.

Lemma levelUp_control (st : Game) : sameControl st (levelUp st).
Proof. done. Qed.

Lemma comboDecay_control (st : Game) : sameControl st (comboDecay st).
Proof. unfold comboDecay. by case_decide. Qed.

Lemma comboBoostEnd_control (st : Game) : sameControl st (comboBoostEnd st).
Proof. done. Qed.

Lemma mathRandom_control (st : Game) : sameControl st (mathRandom st).2.
Proof. done. Qed.

Lemma floorRandom_control (n : Z) (st : Game) : sameControl st (floorRandom n st).2.
Proof. done. Qed.

Lemma initializeGrid_control (st : Game) : sameControl st (initializeGrid st).
Proof. destruct (initializeGrid_spec st) as (g & k & -> & _). done. Qed.

Lemma pickCells_control (n : nat) (cells : list Cell) (st : Game) :
  sameControl st (pickCells n cells st).2.
Proof.
  revert cells st. induction n as [|n IH]; intros cells st; [done|].
  simpl. eapply sameControl_trans; [|apply IH]. done.
Qed.

Create HintDb control discriminated.
#[local] Hint Constants Opaque : control.

#[local] Hint Resolve set_grid_control set_score_control set_timeLeft_control
  set_combo_control set_level_control set_startCooldown_control
  set_lastTickPlayed_control set_now_control set_drawn_control emit_control
  destroyCells_control calculateScore_control levelUp_control
  comboDecay_control comboBoostEnd_control initializeGrid_control
  pickCells_control floorRandom_control mathRandom_control : control.

(** Peels the calls of a function off one at a time. *)
Ltac control_chain :=
  repeat first
    [ apply sameControl_refl
    | eapply sameControl_trans;
        [|solve [auto 1 with control | apply setTimeout_control; done]] ].

Lemma explodeRandomCells_control (st : Game) :
  sameControl st (explodeRandomCells st).
Proof.
  unfold explodeRandomCells.
  pose proof (pickCells_control 8 [] st) as Hp.
  destruct (pickCells 8 [] st) as [cells st1]. simpl in Hp.
  eapply sameControl_trans; [exact Hp|]. cbv zeta.
  case_decide; control_chain.
Qed.

Lemma clearRandomDigit_control (st st' : Game) :
  clearRandomDigit st = Ret st' -> sameControl st st'.
Proof.
  unfold clearRandomDigit.
  pose proof (floorRandom_control 10 st) as Hf.
  destruct (floorRandom 10 st) as [target st1]. simpl in Hf.
  destruct (cellsHolding _ _ _) as [cells| |]; simpl; [|done..].
  intros H. eapply sameControl_trans; [exact Hf|].
  case_decide; apply Ret_inj in H; subst st'; [|done].
  cbv zeta. case_decide; control_chain.
Qed.

Lemma handleCellClick_control (row col : Z) (st st' : Game) :
  handleCellClick row col st = Ret st' -> sameControl st st'.
Proof.
  unfold handleCellClick.
  destruct (negb (isPlaying st) || isPaused st).
  { by intros <-%Ret_inj. }
  destruct (grid_at _ _ _) as [digit| |]; simpl; [|done..].
  destruct (findConnectedCells _ _ _ _ _) as [cells| |]; simpl; [|done..].
  case_decide.
  - cbv zeta. case_decide; intros <-%Ret_inj; control_chain.
  - intros <-%Ret_inj. done.
Qed.

Lemma settle_control (st st' : Game) : settle st = Ret st' -> sameControl st st'.
Proof.
  unfold settle. destruct (dropCells _ _) as [g| |]; simpl; [|done..].
  intros <-%Ret_inj. unfold fillEmptySpaces. control_chain.
Qed.

Lemma fillCell_control (r c : Z) (st st' : Game) :
  fillCell r c (Ret st) = Ret st' -> sameControl st st'.
Proof.
  unfold fillCell. simpl. destruct (grid_at _ _ _) as [v| |]; simpl; [|done..].
  destruct (strict_eq v Null); by intros <-%Ret_inj.
Qed.

Lemma fillCell_cells_control (cells : list Cell) (st st' : Game) :
  foldl (fun acc (x : Cell) => fillCell x.1 x.2 acc) (Ret st) cells = Ret st' ->
  sameControl st st'.
Proof.
  revert st'. induction cells as [|x cells IH] using rev_ind; intros st'.
  - by intros <-%Ret_inj.
  - rewrite foldl_app. cbn [foldl].
    destruct (foldl _ (Ret st) cells) as [st1| |] eqn:E; [|done..].
    intros H. eapply sameControl_trans; [by apply IH|].
    by eapply fillCell_control.
Qed.

Lemma fillEmpty_control (st st' : Game) :
  fillEmpty st = Ret st' -> sameControl st st'.
Proof. unfold fillEmpty. rewrite foldl_cells. apply fillCell_cells_control. Qed.

(** ** The countdown controls *)

Lemma sameTimer_refl (st : Game) : sameTimer st st.
Proof. done. Qed.

Lemma sameTimer_trans (st1 st2 st3 : Game) :
  sameTimer st1 st2 -> sameTimer st2 st3 -> sameTimer st1 st3.
Proof. intros (?&?&?&?) (?&?&?&?). repeat split; congruence. Qed.

Lemma sameControl_timer (st st' : Game) : sameControl st st' -> sameTimer st st'.
Proof. intros (?&?&?&?&?&?). done. Qed.

Lemma sameTimer_ok (st st' : Game) :
  sameTimer st st' -> controlOk st -> controlOk st'.
Proof.
  intros (Ht & Hp & Hq & Hk) (H1 & H2 & H3). unfold controlOk, timerOk.
  rewrite Ht, Hp, Hq, Hk. done.
Qed.

Lemma powerUpExpire_timer (el : nat) (st : Game) : sameTimer st (powerUpExpire el st).
Proof. unfold powerUpExpire. by case_decide. Qed.

Lemma spawnPowerUps_timer (st : Game) : sameTimer st (spawnPowerUps st).
Proof.
  unfold spawnPowerUps. destruct (isPlaying st) eqn:Hp; simpl; [|done].
  case_decide.
  - unfold setTimeout. repeat split; try by simpl.
    unfold pendingTicks. simpl. rewrite !filter_app. simpl.
    rewrite !filter_cons_False, !filter_nil, !app_nil_r by (unfold isTick; simpl; tauto).
    done.
  - unfold setTimeout. repeat split; try by simpl.
    unfold pendingTicks. simpl. rewrite !filter_app. simpl.
    rewrite !filter_cons_False, !filter_nil, !app_nil_r by (unfold isTick; simpl; tauto).
    done.
Qed.

Lemma activatePowerUp_timer (type : powerType) (el : nat) (st st' : Game) :
  activatePowerUp type el st = Ret st' -> sameTimer st st'.
Proof.
  unfold activatePowerUp. cbv zeta.
  set (st0 := set_powerUps _ st).
  assert (sameTimer st st0) as H0 by done. clearbody st0.
  intros H. eapply sameTimer_trans; [exact H0|]. apply sameControl_timer.
  destruct type.
  - apply Ret_inj in H. subst st'. done.
  - apply Ret_inj in H. subst st'. apply explodeRandomCells_control.
  - case_decide; apply Ret_inj in H; subst st'; control_chain.
  - apply Ret_inj in H. subst st'. control_chain.
  - by apply clearRandomDigit_control.
Qed.

Lemma timerOk_own (st : Game) : timerOk st -> ownTicks st.
Proof.
  unfold timerOk, ownTicks. destruct (timer st) as [id|].
  - intros [d ->]. by constructor.
  - by intros ->.
Qed.

Lemma stopTimer_own (st : Game) :
  ownTicks st ->
  pendingTicks (_stopTimer st) = []
  ∧ timer (_stopTimer st) = None
  ∧ isPlaying (_stopTimer st) = isPlaying st
  ∧ isPaused (_stopTimer st) = isPaused st
  ∧ powerUps (_stopTimer st) = powerUps st
  ∧ nextId (_stopTimer st) = nextId st
  ∧ now (_stopTimer st) = now st.
Proof.
  unfold ownTicks, _stopTimer, pendingTicks.
  destruct (timer st) as [id|]; simpl.
  - intros Hown. split; [|done].
    rewrite list_filter_filter.
    apply filter_none, Forall_forall. intros t Ht [Htick Hne].
    rewrite Forall_forall in Hown.
    assert (t ∈ filter isTick (tasks st)) as Hin by (by apply list_elem_of_filter).
    specialize (Hown t Hin). congruence.
  - intros Hown. split; [|done].
    destruct (filter isTick (tasks st)) as [|t l]; [done|].
    by apply Forall_cons in Hown as [? _].
Qed.

Lemma stopTimer_ticks (st : Game) :
  timerOk st ->
  pendingTicks (_stopTimer st) = []
  ∧ timer (_stopTimer st) = None
  ∧ isPlaying (_stopTimer st) = isPlaying st
  ∧ isPaused (_stopTimer st) = isPaused st
  ∧ powerUps (_stopTimer st) = powerUps st
  ∧ nextId (_stopTimer st) = nextId st
  ∧ now (_stopTimer st) = now st.
Proof. intros Hok. by apply stopTimer_own, timerOk_own. Qed.

Lemma startTimer_ticks (st : Game) :
  timerOk st ->
  pendingTicks (_startTimer st) = [Task (now st + 1000) (CbTick (nextId st))]
  ∧ timer (_startTimer st) = Some (nextId st)
  ∧ isPlaying (_startTimer st) = isPlaying st
  ∧ isPaused (_startTimer st) = isPaused st
  ∧ powerUps (_startTimer st) = powerUps st
  ∧ nextId (_startTimer st) = S (nextId st)
  ∧ _lastTickPlayed (_startTimer st) = None.
Proof.
  intros Hok. destruct (stopTimer_ticks st Hok) as (Hk & Ht & Hp & Hq & Hu & Hn & Hnow).
  unfold _startTimer. cbv zeta.
  set (st0 := _stopTimer st) in *. clearbody st0.
  unfold pendingTicks in *. simpl. rewrite filter_app, Hk. simpl.
  rewrite filter_cons_True by (unfold isTick; simpl; tauto).
  rewrite Hn, Hnow. done.
Qed.

Lemma stopTimer_timerOk (st : Game) : timerOk st -> timerOk (_stopTimer st).
Proof.
  intros Hok. destruct (stopTimer_ticks st Hok) as (Hk & Ht & _).
  unfold timerOk. by rewrite Ht, Hk.
Qed.

Lemma timerOk_flags (st st' : Game) :
  timer st' = timer st -> pendingTicks st' = pendingTicks st ->
  timerOk st -> timerOk st'.
Proof. unfold timerOk. by intros -> ->. Qed.

Lemma endGame_own (st : Game) :
  ownTicks st ->
  pendingTicks (endGame st) = []
  ∧ timer (endGame st) = None
  ∧ isPlaying (endGame st) = false
  ∧ isPaused (endGame st) = isPaused st
  ∧ powerUps (endGame st) = []
  ∧ nextId (endGame st) = nextId st.
Proof.
  intros Hok. unfold endGame. cbv zeta.
  set (st1 := set_isPlaying false st).
  assert (ownTicks st1) as H1 by done.
  assert (isPaused st1 = isPaused st ∧ nextId st1 = nextId st
          ∧ isPlaying st1 = false) as (Hq & Hn & Hf) by done.
  clearbody st1.
  destruct (stopTimer_own st1 H1) as (Hk & Ht & Hp & Hq' & Hu & Hn' & _).
  set (st2 := _stopTimer st1) in *. clearbody st2.
  unfold clearPowerUps, emit, pendingTicks in *. simpl.
  rewrite Hk, Ht, Hq', Hq, Hn', Hn, Hp, Hf. done.
Qed.

Lemma endGame_control (st : Game) :
  timerOk st ->
  pendingTicks (endGame st) = []
  ∧ timer (endGame st) = None
  ∧ isPlaying (endGame st) = false
  ∧ isPaused (endGame st) = isPaused st
  ∧ powerUps (endGame st) = []
  ∧ nextId (endGame st) = nextId st.
Proof. intros Hok. by apply endGame_own, timerOk_own. Qed.

Lemma endGame_controlOk (st : Game) : timerOk st -> controlOk (endGame st).
Proof.
  intros Hok. destruct (endGame_control st Hok) as (Hk & Ht & Hp & _).
  unfold controlOk, timerOk. rewrite Hk, Ht, Hp. done.
Qed.

(** The interval callback: the session after the decrement and the
    warning, ended or not. *)
Lemma timerTick_cases (st : Game) :
  exists st1,
    sameControl st st1 ∧ sameBoard st st1
    ∧ (timerTick st = st1 ∨ timerTick st = endGame st1).
Proof.
  destruct (isPaused st) eqn:Hq.
  { exists st. unfold timerTick. rewrite Hq. auto using sameControl_refl, sameBoard_refl. }
  unfold timerTick. rewrite Hq. cbv zeta.
  set (st0 := set_timeLeft _ st).
  assert (sameControl st st0 ∧ sameBoard st st0) as [H0 H0'] by done. clearbody st0.
  set (st1 := if decide (timeLeft st0 <= 10 ∧ timeLeft st0 >= 0) then _ else _).
  assert (sameControl st0 st1 ∧ sameBoard st0 st1) as [H1 H1'].
  { unfold st1. repeat case_decide; done. }
  clearbody st1. exists st1. split; [by eapply sameControl_trans|].
  split; [by eapply sameBoard_trans|]. case_decide; auto.
Qed.

Lemma startGame_control (st : Game) :
  timerOk st ->
  pendingTicks (startGame st) = [Task (now st + 1000) (CbTick (nextId st))]
  ∧ timer (startGame st) = Some (nextId st)
  ∧ isPlaying (startGame st) = true
  ∧ isPaused (startGame st) = false.
Proof.
  intros Hok. unfold startGame. cbv zeta.
  set (st1 := set_level 1 _).
  assert (timerOk st1) as H1 by (by apply (timerOk_flags st)).
  assert (now st1 = now st ∧ nextId st1 = nextId st ∧ isPlaying st1 = true
          ∧ isPaused st1 = false) as (Hnow & Hn & Hp & Hq) by done.
  clearbody st1.
  destruct (stopTimer_ticks st1 H1) as (_ & _ & Hp2 & Hq2 & _ & Hn2 & Hnow2).
  apply stopTimer_timerOk in H1.
  set (st2 := _stopTimer st1) in *. clearbody st2.
  destruct (startTimer_ticks st2 H1) as (Hk3 & Ht3 & Hp3 & Hq3 & _).
  set (st3 := _startTimer st2) in *. clearbody st3.
  destruct (spawnPowerUps_timer (clearPowerUps st3)) as (Ht5 & Hp5 & Hq5 & Hk5).
  set (st5 := spawnPowerUps (clearPowerUps st3)) in *. clearbody st5.
  change (pendingTicks st5 = [Task (now st + 1000) (CbTick (nextId st))]
          ∧ timer st5 = Some (nextId st)
          ∧ isPlaying st5 = true ∧ isPaused st5 = false).
  rewrite Ht5, Hp5, Hq5, Hk5. unfold clearPowerUps, pendingTicks in *. simpl.
  rewrite Hk3, Ht3, Hp3, Hq3, Hp2, Hq2, Hn2, Hnow2, Hn, Hnow, Hp, Hq. done.
Qed.

Lemma controlOk_running (st : Game) (id : nat) (d : Z) :
  pendingTicks st = [Task d (CbTick id)] -> timer st = Some id ->
  isPaused st = false -> controlOk st.
Proof.
  intros Hk Ht Hq. unfold controlOk, timerOk. rewrite Hk, Ht, Hq.
  repeat split; eauto. done.
Qed.

Lemma controlOk_stopped (st : Game) :
  pendingTicks st = [] -> timer st = None ->
  (isPlaying st = true -> isPaused st = true) -> controlOk st.
Proof.
  intros Hk Ht Hq. unfold controlOk, timerOk. rewrite Hk, Ht.
  split; [done|]. split; [done|]. intros Hp Hq'. rewrite Hq in Hq'; done.
Qed.

Lemma startGame_controlOk (st : Game) : timerOk st -> controlOk (startGame st).
Proof.
  intros Hok. destruct (startGame_control st Hok) as (Hk & Ht & Hp & Hq).
  by eapply controlOk_running.
Qed.

Lemma pauseGame_control (st : Game) :
  timerOk st ->
  isPlaying (pauseGame st) = isPlaying st
  ∧ isPaused (pauseGame st) = negb (isPaused st)
  ∧ if isPaused st
    then pendingTicks (pauseGame st) = [Task (now st + 1000) (CbTick (nextId st))]
         ∧ timer (pauseGame st) = Some (nextId st)
         ∧ _lastTickPlayed (pauseGame st) = None
    else pendingTicks (pauseGame st) = [] ∧ timer (pauseGame st) = None.
Proof.
  intros Hok. unfold pauseGame. destruct (isPaused st) eqn:Hq.
  - set (st1 := set_isPaused false st).
    assert (timerOk st1) as H1 by (by apply (timerOk_flags st)).
    assert (now st1 = now st ∧ nextId st1 = nextId st
            ∧ isPlaying st1 = isPlaying st ∧ isPaused st1 = false)
      as (Hnow & Hn & Hp & Hq1) by done.
    clearbody st1.
    destruct (startTimer_ticks st1 H1) as (Hk3 & Ht3 & Hp3 & Hq3 & _ & _ & Hl).
    rewrite Hk3, Ht3, Hp3, Hq3, Hl, Hnow, Hn, Hp, Hq1. done.
  - set (st1 := set_isPaused true st).
    assert (timerOk st1) as H1 by (by apply (timerOk_flags st)).
    assert (isPlaying st1 = isPlaying st ∧ isPaused st1 = true) as (Hp & Hq1) by done.
    clearbody st1.
    destruct (stopTimer_ticks st1 H1) as (Hk & Ht & Hp2 & Hq2 & _).
    rewrite Hk, Ht, Hp2, Hq2, Hp, Hq1. done.
Qed.

Lemma pauseGame_controlOk (st : Game) : timerOk st -> controlOk (pauseGame st).
Proof.
  intros Hok. destruct (pauseGame_control st Hok) as (Hp & Hq & H).
  destruct (isPaused st).
  - destruct H as (Hk & Ht & _). by eapply controlOk_running.
  - destruct H as (Hk & Ht). apply controlOk_stopped; [done..|]. by rewrite Hq.
Qed.

Lemma resetGame_control (st : Game) :
  timerOk st ->
  pendingTicks (resetGame st) = [] ∧ timer (resetGame st) = None
  ∧ nextId (resetGame st) = nextId st ∧ now (resetGame st) = now st
  ∧ isPlaying (resetGame st) = false ∧ isPaused (resetGame st) = false
  ∧ powerUps (resetGame st) = [].
Proof.
  intros Hok. unfold resetGame. cbv zeta.
  set (st1 := clearPowerUps _).
  assert (timerOk st1) as H1 by (by apply (timerOk_flags st)).
  assert (nextId st1 = nextId st ∧ now st1 = now st ∧ isPlaying st1 = false
          ∧ isPaused st1 = false ∧ powerUps st1 = [])
    as (Hn & Hnow & Hp & Hq & Hu) by done.
  clearbody st1.
  destruct (stopTimer_ticks st1 H1) as (Hk & Ht & Hp2 & Hq2 & Hu2 & Hn2 & Hnow2).
  set (st2 := _stopTimer st1) in *. clearbody st2.
  destruct (initializeGrid_spec st2) as (g & k & -> & _).
  unfold pendingTicks in *. simpl.
  rewrite Hk, Ht, Hn2, Hnow2, Hn, Hnow, Hp2, Hq2, Hu2, Hp, Hq, Hu. done.
Qed.

Lemma resetGame_controlOk (st : Game) : timerOk st -> controlOk (resetGame st).
Proof.
  intros Hok. destruct (resetGame_control st Hok) as (Hk & Ht & _ & _ & Hp & _).
  apply controlOk_stopped; [done..|]. by rewrite Hp.
Qed.

Lemma handleStartButton_controlOk (st : Game) :
  controlOk st -> controlOk (handleStartButton st).
Proof.
  intros Hok. unfold handleStartButton. destruct (_startCooldown st); [done|].
  cbv zeta. set (st1 := setTimeout _ _ _).
  assert (sameControl st st1) as H1 by (unfold st1; control_chain).
  apply sameControl_timer in H1. apply (sameTimer_ok _ _ H1) in Hok.
  clearbody st1. destruct Hok as [Hok _].
  destruct (negb (isPlaying st1) || isPaused st1).
  - by apply startGame_controlOk.
  - apply startGame_controlOk. by apply resetGame_controlOk.
Qed.

Lemma showRewardedVideo_controlOk (st : Game) :
  timerOk st -> controlOk (showRewardedVideo st).
Proof.
  intros Hok. unfold showRewardedVideo.
  set (st1 := set_isPaused true st).
  assert (timerOk st1) as H1 by (by apply (timerOk_flags st)).
  assert (isPaused st1 = true) as Hq1 by done.
  clearbody st1.
  destruct (stopTimer_ticks st1 H1) as (Hk & Ht & Hp2 & Hq2 & _).
  apply controlOk_stopped; [done..|]. by rewrite Hq2.
Qed.

Lemma giveReward_control (st : Game) :
  timerOk st ->
  pendingTicks (giveReward st) = [Task (now st + 1000) (CbTick (nextId st))]
  ∧ timer (giveReward st) = Some (nextId st)
  ∧ isPaused (giveReward st) = false
  ∧ isPlaying (giveReward st) = isPlaying st
  ∧ timeLeft (giveReward st) = timeLeft st + 20.
Proof.
  intros Hok. unfold giveReward. cbv zeta.
  set (st1 := set_isPaused false _).
  assert (timerOk st1) as H1 by (by apply (timerOk_flags st)).
  assert (now st1 = now st ∧ nextId st1 = nextId st
          ∧ isPlaying st1 = isPlaying st ∧ isPaused st1 = false
          ∧ timeLeft st1 = timeLeft st + 20)
    as (Hnow & Hn & Hp & Hq1 & Htl) by done.
  clearbody st1.
  destruct (startTimer_ticks st1 H1) as (Hk3 & Ht3 & Hp3 & Hq3 & _).
  destruct (startTimer_clock st1) as [Htl3 _].
  rewrite Hk3, Ht3, Hp3, Hq3, Htl3, Hnow, Hn, Hp, Hq1, Htl. done.
Qed.

Lemma giveReward_controlOk (st : Game) : timerOk st -> controlOk (giveReward st).
Proof.
  intros Hok. destruct (giveReward_control st Hok) as (Hk & Ht & Hq & _).
  by eapply controlOk_running.
Qed.

(** The timer that fires is one of the pending ones; the others stay
    pending in their order. *)
Lemma takeDue_split (d : Z) (ts : list task) (t : task) (rest : list task) :
  takeDue d ts = Some (t, rest) ->
  exists l1 l2, ts = l1 ++ t :: l2 ∧ rest = l1 ++ l2 ∧ due t = d.
Proof.
  revert t rest. induction ts as [|t0 ts IH]; intros t rest; [done|].
  simpl. case_decide as Hd.
  - intros [= <- <-]. by exists [], ts.
  - destruct (takeDue d ts) as [[t' rest']|] eqn:E; [|done].
    simpl. intros [= <- <-].
    destruct (IH _ _ eq_refl) as (l1 & l2 & -> & -> & Hdue).
    by exists (t0 :: l1), l2.
Qed.

Lemma nextTask_split (ts : list task) (t : task) (rest : list task) :
  nextTask ts = Some (t, rest) ->
  exists l1 l2, ts = l1 ++ t :: l2 ∧ rest = l1 ++ l2.
Proof.
  unfold nextTask. destruct (minDue ts) as [d|]; [|done]. simpl.
  intros H. destruct (takeDue_split _ _ _ _ H) as (l1 & l2 & ? & ? & _). eauto.
Qed.

Lemma isTick_cb (t : task) : isTick t <-> exists id, cb t = CbTick id.
Proof. unfold isTick. destruct (cb t); naive_solver. Qed.

Lemma runCallback_timer (c : callback) (st st' : Game) :
  (forall id, c ≠ CbTick id) -> runCallback c st = Ret st' -> sameTimer st st'.
Proof.
  intros Hc. destruct c; simpl.
  - by specialize (Hc id).
  - by intros <-%Ret_inj.
  - by intros <-%Ret_inj.
  - intros H. by apply sameControl_timer, settle_control.
  - intros H. by apply sameControl_timer, fillEmpty_control.
  - intros <-%Ret_inj. apply sameControl_timer, comboDecay_control.
  - by intros <-%Ret_inj.
  - intros <-%Ret_inj. apply powerUpExpire_timer.
  - intros <-%Ret_inj. apply spawnPowerUps_timer.
Qed.

(** The session as [fire] hands it to the callback: the timer taken
    off the pending ones, the clock moved. *)
Lemma fire_split (st st' : Game) :
  fire st = Some st' ->
  exists t l1 l2 st1 st2,
    tasks st = l1 ++ t :: l2
    ∧ st1 = set_now (Z.max (now st) (due t)) (set_tasks (l1 ++ l2) st)
    ∧ runCallback (cb t) st1 = Ret st2
    ∧ ((forall id, cb t ≠ CbTick id) ∧ st' = st2
       ∨ exists id, cb t = CbTick id ∧ st2 = timerTick st1
           ∧ (timer st2 = Some id
              ∧ st' = set_tasks (tasks st2 ++ [Task (due t + 1000) (CbTick id)]) st2
              ∨ timer st2 ≠ Some id ∧ st' = st2)).
Proof.
  unfold fire. destruct (nextTask (tasks st)) as [[t rest]|] eqn:E; [|done].
  simpl. destruct (nextTask_split _ _ _ E) as (l1 & l2 & Hts & ->).
  set (st1 := set_now _ _).
  destruct (runCallback (cb t) st1) as [st2| |] eqn:Hcb; [|done..].
  simpl. intros Hrun. exists t, l1, l2, st1, st2.
  split; [done|]. split; [done|]. split; [done|].
  destruct (cb t) as [id| | | | | | | |] eqn:Hc;
    try (left; split; [done|]; by apply (inj Some) in Hrun).
  right. exists id. split; [done|]. simpl in Hcb. apply Ret_inj in Hcb.
  split; [done|]. case_decide; apply (inj Some) in Hrun; auto.
Qed.

Lemma fire_controlOk (st st' : Game) :
  fire st = Some st' -> controlOk st -> controlOk st'.
Proof.
  intros Hfire Hok.
  destruct (fire_split _ _ Hfire) as (t & l1 & l2 & st1 & st2 & Hts & Hst1 & Hcb & Hcase).
  assert (timer st1 = timer st ∧ isPlaying st1 = isPlaying st
          ∧ isPaused st1 = isPaused st
          ∧ pendingTicks st1 = filter isTick l1 ++ filter isTick l2)
    as (Ht1 & Hp1 & Hq1 & Hk1).
  { subst st1. unfold pendingTicks. simpl. by rewrite filter_app. }
  assert (pendingTicks st
          = filter isTick l1 ++ filter isTick [t] ++ filter isTick l2) as Hk.
  { unfold pendingTicks. by rewrite Hts, filter_app, (filter_app _ [t] l2). }
  clear Hst1.
  destruct Hcase as [[Hc ->] | (id & Hc & -> & Hcase)].
  - (* another callback *)
    rewrite filter_cons_False, filter_nil in Hk.
    2:{ intros [id Hid]%isTick_cb. by apply (Hc id). }
    simpl in Hk.
    apply (sameTimer_ok st1); [by eapply runCallback_timer|].
    apply (sameTimer_ok st); [|done]. repeat split; congruence.
  - (* the interval *)
    rewrite filter_cons_True, filter_nil in Hk by (apply isTick_cb; eauto).
    destruct Hok as (Hok & Hpaused & Hplaying). unfold timerOk in Hok.
    destruct (timer st) as [id0|] eqn:Ht.
    2:{ rewrite Hok in Hk. by destruct (filter isTick l1). }
    destruct Hok as [d Hd]. rewrite Hd in Hk.
    assert (filter isTick l1 = [] ∧ filter isTick l2 = [] ∧ t = Task d (CbTick id0))
      as (Hl1 & Hl2 & ->).
    { destruct (filter isTick l1) as [|a [|b l]]; simpl in Hk.
      - by injection Hk as -> Hl2.
      - by injection Hk as _ Hl2.
      - done. }
    simpl in Hc. injection Hc as ->. rewrite Hl1, Hl2 in Hk1. simpl in Hk1.
    destruct (timerTick_cases st1) as (st1' & Hc' & _ & Hcases).
    destruct Hc' as (Hta & Hpa & Hqa & _ & _ & Hka).
    destruct Hcases as [Heq | Heq]; rewrite Heq in *.
    + destruct Hcase as [[_ ->] | [Hne ->]]; [|congruence].
      eapply controlOk_running.
      * unfold pendingTicks in *. simpl. rewrite filter_app, Hka, Hk1. simpl.
        by rewrite filter_cons_True by (unfold isTick; simpl; tauto).
      * simpl. congruence.
      * simpl. rewrite Hqa, Hq1. destruct (isPaused st); [|done].
        by specialize (Hpaused eq_refl).
    + assert (ownTicks st1') as Hown.
      { unfold ownTicks. rewrite Hka, Hk1. constructor. }
      destruct (endGame_own _ Hown) as (Hke & Hte & Hpe & _).
      destruct Hcase as [[Hsome _] | [_ ->]]; [congruence|].
      apply controlOk_stopped; [done..|]. by rewrite Hpe.
Qed.

Lemma perform_controlOk (a : action) (st st' : Game) :
  perform a st = Some st' -> controlOk st -> controlOk st'.
Proof.
  intros Hrun Hok. destruct a; simpl in Hrun.
  - destruct (in_bounds _ _ _); [|done].
    destruct (handleCellClick row col st) as [st1| |] eqn:E; [|done..].
    apply (inj Some) in Hrun. subst st1.
    eapply sameTimer_ok; [|done]. by eapply sameControl_timer, handleCellClick_control.
  - apply (inj Some) in Hrun. subst st'. by apply handleStartButton_controlOk.
  - destruct (isPlaying st); [|done]. apply (inj Some) in Hrun. subst st'.
    apply pauseGame_controlOk, Hok.
  - apply (inj Some) in Hrun. subst st'. apply resetGame_controlOk, Hok.
  - apply (inj Some) in Hrun. subst st'.
    eapply sameTimer_ok; [|done]. apply sameControl_timer, initializeGrid_control.
  - destruct (list_find _ _) as [[i p]|]; [|done]. simpl in Hrun.
    destruct (activatePowerUp p.2 el st) as [st1| |] eqn:E; [|done..].
    apply (inj Some) in Hrun. subst st1.
    eapply sameTimer_ok; [|done]. by eapply activatePowerUp_timer.
  - apply (inj Some) in Hrun. subst st'. apply showRewardedVideo_controlOk, Hok.
  - apply (inj Some) in Hrun. subst st'. apply giveReward_controlOk, Hok.
Qed.

Lemma step_controlOk (e : event) (st st' : Game) :
  step e st = Some st' -> controlOk st -> controlOk st'.
Proof.
  destruct e as [|delay a]; simpl.
  - apply fire_controlOk.
  - case_decide; [|done]. intros Hrun Hok.
    eapply perform_controlOk; [done|]. by apply (sameTimer_ok st).
Qed.

Lemma newGame_fields (rnd : nat -> Z) :
  exists g k,
    newGame rnd
    = MkGame g 8 0 60 0 1 false false None [] false None 0 [] 1 rnd k []
    ∧ wf_grid 8 g
    ∧ forall r c, inside 8 (r, c) -> exists v, grid_at g r c = Ret v ∧ isDigit v.
Proof.
  unfold newGame.
  destruct (initializeGrid_spec
              (MkGame [] 8 0 60 0 1 false false None [] false None 0 [] 1 rnd 0 []))
    as (g & k & -> & Hwf & Hcells).
  by exists g, k.
Qed.

Lemma newGame_controlOk (rnd : nat -> Z) : controlOk (newGame rnd).
Proof.
  destruct (newGame_fields rnd) as (g & k & -> & _).
  by apply controlOk_stopped.
Qed.

(** X1. In every state a session can reach, the countdown is
    consistent: a live interval (timer not null) has exactly one
    pending run, registered under the id held in [timer]; without an
    interval no run is pending; a paused session has no interval, and
    a session that is playing and not paused has one. *)
Theorem reachable_single_countdown (st : Game) :
  reachable st ->
  match timer st with
  | Some id => exists d, pendingTicks st = [Task d (CbTick id)]
  | None => pendingTicks st = []
  end
  ∧ (isPaused st = true -> timer st = None)
  ∧ (isPlaying st = true -> isPaused st = false -> is_Some (timer st)).
Proof.
  revert st. apply (reachable_inv controlOk).
  - apply newGame_controlOk.
  - intros e st st' Hok Hstep. by eapply step_controlOk.
Qed.

Lemma startedGame_reachable : reachable startedGame.
Proof. exists zeroTape, startedTrace. vm_compute. reflexivity. Qed.

Lemma reachable_single_countdown_witness :
  match timer startedGame with
  | Some id => exists d, pendingTicks startedGame = [Task d (CbTick id)]
  | None => pendingTicks startedGame = []
  end
  ∧ (isPaused startedGame = true -> timer startedGame = None)
  ∧ (isPlaying startedGame = true -> isPaused startedGame = false ->
     is_Some (timer startedGame)).
Proof.
  apply (reachable_single_countdown startedGame), startedGame_reachable.
Defined.

(** ** The power-ups on the page *)

Lemma keepsPowerUps_refl (st : Game) : keepsPowerUps st st.
Proof. done. Qed.

Lemma keepsPowerUps_trans (st1 st2 st3 : Game) :
  keepsPowerUps st1 st2 -> keepsPowerUps st2 st3 -> keepsPowerUps st1 st3.
Proof. intros (?&?&?) (?&?&?). repeat split; try congruence. lia. Qed.

Lemma sameControl_keeps (st st' : Game) : sameControl st st' -> keepsPowerUps st st'.
Proof. intros (?&?&?&?&Hn&?). repeat split; try done. by rewrite Hn. Qed.

Lemma keepsPowerUps_ok (st st' : Game) :
  keepsPowerUps st st' -> powerUpsOk st -> powerUpsOk st'.
Proof.
  intros (Hu & Hp & Hn) (H1 & H2 & H3 & H4). unfold powerUpsOk.
  rewrite Hu, Hp. repeat split; try done.
  eapply Forall_impl; [exact H2|]. simpl. lia.
Qed.

Lemma stopTimer_keeps (st : Game) : keepsPowerUps st (_stopTimer st).
Proof. unfold _stopTimer. by destruct (timer st). Qed.

Lemma startTimer_keeps (st : Game) : keepsPowerUps st (_startTimer st).
Proof.
  unfold _startTimer. cbv zeta.
  destruct (stopTimer_keeps st) as (Hu & Hp & Hn).
  set (st1 := _stopTimer st) in *. clearbody st1.
  repeat split; simpl; try done. lia.
Qed.

Lemma Forall_filter_keep {A : Type} (P Q : A -> Prop) `{forall x, Decision (Q x)}
    (l : list A) :
  Forall P l -> Forall P (filter Q l).
Proof.
  rewrite !Forall_forall. intros Hl x [_ Hx]%list_elem_of_filter. by apply Hl.
Qed.

Lemma powerUpsOk_filter (el : nat) (st st' : Game) :
  powerUps st' = filter (fun p => p.1 ≠ el) (powerUps st) ->
  isPlaying st' = isPlaying st -> nextId st' = nextId st ->
  powerUpsOk st -> powerUpsOk st'.
Proof.
  intros Hu Hp Hn (H1 & H2 & H3 & H4). unfold powerUpsOk. rewrite Hu, Hp, Hn.
  split.
  { clear -H1. induction (powerUps st) as [|p l IH]; [done|].
    simpl in H1. apply NoDup_cons in H1 as [Hp Hl].
    rewrite filter_cons. case_decide; [|by apply IH].
    simpl. apply NoDup_cons. split; [|by apply IH].
    intros Hin. apply Hp. apply list_elem_of_fmap in Hin as (q & Hq & Hin).
    apply list_elem_of_filter in Hin as [_ Hin].
    apply list_elem_of_fmap. eauto. }
  split; [by apply Forall_filter_keep|]. split; [by apply Forall_filter_keep|].
  intros Hf. by rewrite (H4 Hf).
Qed.

Lemma powerUpExpire_ok (el : nat) (st : Game) :
  powerUpsOk st -> powerUpsOk (powerUpExpire el st).
Proof.
  unfold powerUpExpire. case_decide; [|done].
  by apply (powerUpsOk_filter el st).
Qed.

Lemma activatePowerUp_ok (type : powerType) (el : nat) (st st' : Game) :
  activatePowerUp type el st = Ret st' -> powerUpsOk st -> powerUpsOk st'.
Proof.
  unfold activatePowerUp. cbv zeta.
  set (st0 := set_powerUps _ st). intros H Hok.
  assert (powerUpsOk st0) as H0 by (by apply (powerUpsOk_filter el st)).
  clearbody st0. eapply keepsPowerUps_ok; [|exact H0]. apply sameControl_keeps.
  destruct type.
  - apply Ret_inj in H. subst st'. done.
  - apply Ret_inj in H. subst st'. apply explodeRandomCells_control.
  - case_decide; apply Ret_inj in H; subst st'; control_chain.
  - apply Ret_inj in H. subst st'. control_chain.
  - by apply clearRandomDigit_control.
Qed.

Lemma types_lookup (i : Z) : default TimeBoost (types !! Z.to_nat i) ∈ types.
Proof.
  destruct (types !! Z.to_nat i) as [t|] eqn:E; simpl.
  - by eapply list_elem_of_lookup_2.
  - by left.
Qed.

Lemma spawnPowerUps_ok (st : Game) : powerUpsOk st -> powerUpsOk (spawnPowerUps st).
Proof.
  intros Hok. pose proof Hok as (H1 & H2 & H3 & H4). unfold spawnPowerUps.
  destruct (isPlaying st) eqn:Hp; simpl; [|done].
  case_decide.
  - unfold powerUpsOk, setTimeout. simpl.
    rewrite fmap_app. simpl. split.
    { apply NoDup_app. split; [done|]. split; [|apply NoDup_singleton].
      intros x Hx ->%list_elem_of_singleton.
      apply list_elem_of_fmap in Hx as (p & Hp' & Hin).
      rewrite Forall_forall in H2. specialize (H2 p Hin). lia. }
    split.
    { apply Forall_app. split.
      - eapply Forall_impl; [exact H2|]. simpl. lia.
      - constructor; [simpl; lia|done]. }
    split; [|congruence].
    apply Forall_app. split; [done|]. constructor; [|done].
    apply types_lookup.
  - unfold powerUpsOk, setTimeout. simpl. repeat split; try done. congruence.
Qed.

Lemma powerUpsOk_nil (st : Game) : powerUps st = [] -> powerUpsOk st.
Proof.
  intros Hu. unfold powerUpsOk. rewrite Hu. repeat split; try done. constructor.
Qed.

Lemma endGame_powerUps (st : Game) : powerUps (endGame st) = [].
Proof. done. Qed.

Lemma timerTick_ok (st : Game) : powerUpsOk st -> powerUpsOk (timerTick st).
Proof.
  intros Hok. destruct (timerTick_cases st) as (st1 & Hc & _ & [-> | ->]).
  - apply (keepsPowerUps_ok st st1 (sameControl_keeps _ _ Hc) Hok).
  - apply powerUpsOk_nil, endGame_powerUps.
Qed.

Lemma startGame_ok (st : Game) : powerUpsOk (startGame st).
Proof.
  unfold startGame. cbv zeta.
  apply (keepsPowerUps_ok _ _ (sameControl_keeps _ _ (emit_control _ _))).
  apply spawnPowerUps_ok. by apply powerUpsOk_nil.
Qed.

Lemma pauseGame_keeps (st : Game) : keepsPowerUps st (pauseGame st).
Proof.
  unfold pauseGame. destruct (isPaused st).
  - eapply keepsPowerUps_trans; [|apply startTimer_keeps]. done.
  - eapply keepsPowerUps_trans; [|apply stopTimer_keeps]. done.
Qed.

Lemma resetGame_powerUps (st : Game) : powerUps (resetGame st) = [].
Proof.
  unfold resetGame. cbv zeta. set (st1 := clearPowerUps _).
  assert (powerUps st1 = []) as H1 by done. clearbody st1.
  destruct (stopTimer_keeps st1) as (Hu & _).
  set (st2 := _stopTimer st1) in *. clearbody st2.
  destruct (initializeGrid_control st2) as (_ & _ & _ & Hu2 & _).
  congruence.
Qed.

Lemma handleStartButton_powerUpsOk (st : Game) :
  powerUpsOk st -> powerUpsOk (handleStartButton st).
Proof.
  intros Hok. unfold handleStartButton. destruct (_startCooldown st); [done|].
  cbv zeta. destruct (negb _ || _); apply startGame_ok.
Qed.

Lemma showRewardedVideo_keeps (st : Game) : keepsPowerUps st (showRewardedVideo st).
Proof.
  unfold showRewardedVideo.
  eapply keepsPowerUps_trans; [|apply stopTimer_keeps]. done.
Qed.

Lemma giveReward_keeps (st : Game) : keepsPowerUps st (giveReward st).
Proof.
  unfold giveReward. cbv zeta.
  eapply keepsPowerUps_trans; [|apply startTimer_keeps]. done.
Qed.

Lemma runCallback_powerUpsOk (c : callback) (st st' : Game) :
  runCallback c st = Ret st' -> powerUpsOk st -> powerUpsOk st'.
Proof.
  destruct c; simpl.
  - intros <-%Ret_inj. apply timerTick_ok.
  - by intros <-%Ret_inj.
  - by intros <-%Ret_inj.
  - intros H. by apply keepsPowerUps_ok, sameControl_keeps, settle_control.
  - intros H. by apply keepsPowerUps_ok, sameControl_keeps, fillEmpty_control.
  - intros <-%Ret_inj. apply keepsPowerUps_ok, sameControl_keeps, comboDecay_control.
  - by intros <-%Ret_inj.
  - intros <-%Ret_inj. apply powerUpExpire_ok.
  - intros <-%Ret_inj. apply spawnPowerUps_ok.
Qed.

Lemma fire_powerUpsOk (st st' : Game) :
  fire st = Some st' -> powerUpsOk st -> powerUpsOk st'.
Proof.
  intros Hfire Hok.
  destruct (fire_split _ _ Hfire) as (t & l1 & l2 & st1 & st2 & Hts & Hst1 & Hcb & Hcase).
  assert (powerUpsOk st1) as H1 by (by subst st1). clear Hst1.
  apply (runCallback_powerUpsOk _ _ _ Hcb) in H1.
  destruct Hcase as [[_ ->] | (id & _ & _ & [[_ ->] | [_ ->]])]; done.
Qed.

Lemma perform_powerUpsOk (a : action) (st st' : Game) :
  perform a st = Some st' -> powerUpsOk st -> powerUpsOk st'.
Proof.
  intros Hrun Hok. destruct a; simpl in Hrun.
  - destruct (in_bounds _ _ _); [|done].
    destruct (handleCellClick row col st) as [st1| |] eqn:E; [|done..].
    apply (inj Some) in Hrun. subst st1.
    eapply keepsPowerUps_ok; [|done]. by eapply sameControl_keeps, handleCellClick_control.
  - apply (inj Some) in Hrun. subst st'. by apply handleStartButton_powerUpsOk.
  - destruct (isPlaying st); [|done]. apply (inj Some) in Hrun. subst st'.
    eapply keepsPowerUps_ok; [|done]. apply pauseGame_keeps.
  - apply (inj Some) in Hrun. subst st'. apply powerUpsOk_nil, resetGame_powerUps.
  - apply (inj Some) in Hrun. subst st'.
    eapply keepsPowerUps_ok; [|done]. apply sameControl_keeps, initializeGrid_control.
  - destruct (list_find _ _) as [[i p]|]; [|done]. simpl in Hrun.
    destruct (activatePowerUp p.2 el st) as [st1| |] eqn:E; [|done..].
    apply (inj Some) in Hrun. subst st1. by eapply activatePowerUp_ok.
  - apply (inj Some) in Hrun. subst st'.
    eapply keepsPowerUps_ok; [|done]. apply showRewardedVideo_keeps.
  - apply (inj Some) in Hrun. subst st'.
    eapply keepsPowerUps_ok; [|done]. apply giveReward_keeps.
Qed.

Lemma step_powerUpsOk (e : event) (st st' : Game) :
  step e st = Some st' -> powerUpsOk st -> powerUpsOk st'.
Proof.
  destruct e as [|delay a]; simpl.
  - apply fire_powerUpsOk.
  - case_decide; [|done]. intros Hrun Hok.
    eapply perform_powerUpsOk; [done|]. by apply (keepsPowerUps_ok st).
Qed.

(** X2. In every state a session can reach, the power-up elements
    on the page have pairwise distinct identities, each created before
    the id counter reached its present value and of one of the five
    kinds, and a session that is not playing has none. A click on a
    power-up therefore designates one element. *)
Theorem reachable_powerUps_distinct (st : Game) :
  reachable st ->
  NoDup (powerUps st).*1
  ∧ Forall (fun p => (p.1 < nextId st)%nat) (powerUps st)
  ∧ Forall (fun p => p.2 ∈ types) (powerUps st)
  ∧ (isPlaying st = false -> powerUps st = []).
Proof.
  revert st. apply (reachable_inv powerUpsOk).
  - intros rnd. destruct (newGame_fields rnd) as (g & k & -> & _).
    by apply powerUpsOk_nil.
  - intros e st st' Hok Hstep. by eapply step_powerUpsOk.
Qed.

Lemma reachable_powerUps_distinct_witness :
  NoDup (powerUps startedGame).*1
  ∧ Forall (fun p => (p.1 < nextId startedGame)%nat) (powerUps startedGame)
  ∧ Forall (fun p => p.2 ∈ types) (powerUps startedGame)
  ∧ (isPlaying startedGame = false -> powerUps startedGame = []).
Proof.
  apply (reachable_powerUps_distinct startedGame), startedGame_reachable.
Defined.

(** ** What the board holds *)

Lemma sameBoard_cellsOk (st st' : Game) :
  sameBoard st st' -> cellsOk st -> cellsOk st'.
Proof.
  intros [Hg Hs] (H8 & Hok & Hcells). unfold cellsOk, boardOk in *.
  rewrite Hg, Hs. done.
Qed.

Lemma initializeGrid_cellsOk (st : Game) :
  gridSize st = 8 -> cellsOk (initializeGrid st).
Proof.
  intros H8. destruct (initializeGrid_spec st) as (g & k & -> & Hwf & Hcells).
  split; [done|]. split; [done|]. simpl. intros r c Hin.
  destruct (Hcells r c Hin) as (v & Hv & Hd). exists v. split; [done|]. by right.
Qed.

Lemma grid_set_cellsOk (r c : Z) (v : value) (st : Game) :
  cellOk v -> cellsOk st -> cellsOk (set_grid (grid_set (grid st) r c v) st).
Proof.
  intros Hv (H8 & Hok & Hcells). split; [done|].
  split; [by apply grid_set_ok|]. simpl. intros r' c' Hin.
  destruct (decide ((r, c) = (r', c'))) as [[= <- <-]|Hne].
  - exists v. split; [|done]. by eapply grid_at_grid_set.
  - rewrite grid_at_grid_set_ne; [by apply Hcells|done|..];
      destruct Hin as [[? ?] [? ?]]; simpl in *; lia.
Qed.

(** A value found on the board after [dropCells] is empty or was in
    the same column before. *)
Lemma dropCells_values (size : Z) (g g' : Grid) (r c : Z) :
  wf_grid size g -> dropCells size g = Ret g' -> inside size (r, c) ->
  exists v, grid_at g' r c = Ret v
    ∧ (v = Null ∨ exists r', inside size (r', c) ∧ grid_at g r' c = Ret v).
Proof.
  intros Hwf Hrun [[Hr0 Hr1] [Hc0 Hc1]]. simpl in *.
  destruct (dropCells_spec _ _ Hwf) as (g2 & Hg2 & Hwf2 & Hcol).
  rewrite Hrun in Hg2. apply Ret_inj in Hg2. subst g2.
  rewrite (grid_at_column size) by done.
  destruct (column g' c !! Z.to_nat r) as [v|] eqn:E.
  2:{ apply lookup_ge_None in E. rewrite (length_column size) in E by done. lia. }
  exists v. split; [done|].
  rewrite Hcol in E by done. unfold slidDown in E.
  apply list_elem_of_lookup_2, elem_of_app in E as [E|E].
  - left. by apply elem_of_replicate in E as [-> _].
  - right. apply list_elem_of_filter in E as [_ E].
    apply list_elem_of_lookup_1 in E as [i Hi].
    assert (i < Z.to_nat size)%nat as Hlt.
    { apply lookup_lt_Some in Hi. by rewrite (length_column size) in Hi. }
    exists (Z.of_nat i). split; [split; simpl; lia|].
    rewrite (grid_at_column size) by (done || lia).
    by rewrite Nat2Z.id, Hi.
Qed.

Lemma settle_cellsOk (st st' : Game) :
  settle st = Ret st' -> cellsOk st -> cellsOk st'.
Proof.
  intros Hrun (H8 & Hok & Hcells).
  assert (boardOk st') as Hok' by (by eapply settle_ok).
  unfold settle in Hrun.
  destruct (dropCells (gridSize st) (grid st)) as [g| |] eqn:Hg; [|done..].
  simpl in Hrun. apply Ret_inj in Hrun. subst st'.
  split; [done|]. split; [done|]. simpl.
  intros r c Hin.
  destruct (dropCells_values _ _ _ r c Hok Hg Hin) as (v & Hv & [-> | (r' & Hin' & Hv')]).
  - exists Null. split; [done|]. by left.
  - exists v. split; [done|].
    destruct (Hcells r' c Hin') as (v' & Hv'' & Hcell). congruence.
Qed.

Lemma fillEmpty_cellsOk (st st' : Game) :
  fillEmpty st = Ret st' -> cellsOk st -> cellsOk st'.
Proof.
  intros Hrun (H8 & Hok & Hcells).
  destruct (fillCell_cells (gridSize st) (grid st) (allCells (gridSize st)) st)
    as (st2 & Hrun2 & Hsize & Hwf2 & Hcells2); try done.
  - intros x Hx. by apply elem_of_allCells.
  - intros r c Hin. destruct (Hcells r c Hin) as (v & Hv & _).
    exists v, v. split; [done|]. split; [done|]. by left.
  - unfold fillEmpty in Hrun. rewrite foldl_cells in Hrun.
    unfold allCells in Hrun2. rewrite Hrun in Hrun2.
    apply Ret_inj in Hrun2 as <-.
    split; [congruence|]. split; [unfold boardOk; by rewrite Hsize|].
    rewrite Hsize. intros r c Hin.
    destruct (Hcells2 r c Hin) as (a & b & Ha & Hb & Hre & _).
    exists b. split; [done|].
    destruct (Hcells r c Hin) as (v & Hv & Hcell).
    destruct Hre as [-> | (_ & d & Hd & ->)]; [congruence|].
    right. by exists d.
Qed.

Lemma runCallback_cellsOk (c : callback) (st st' : Game) :
  runCallback c st = Ret st' -> cellsOk st -> cellsOk st'.
Proof.
  destruct c; simpl.
  - intros <-%Ret_inj. apply sameBoard_cellsOk, timerTick_board.
  - intros <-%Ret_inj. apply sameBoard_cellsOk. board_chain.
  - intros <-%Ret_inj. apply grid_set_cellsOk. by left.
  - apply settle_cellsOk.
  - apply fillEmpty_cellsOk.
  - intros <-%Ret_inj. apply sameBoard_cellsOk, comboDecay_board.
  - intros <-%Ret_inj. apply sameBoard_cellsOk. unfold comboBoostEnd. board_chain.
  - intros <-%Ret_inj. apply sameBoard_cellsOk, powerUpExpire_board.
  - intros <-%Ret_inj. apply sameBoard_cellsOk, spawnPowerUps_board.
Qed.

Lemma fire_cellsOk (st st' : Game) :
  fire st = Some st' -> cellsOk st -> cellsOk st'.
Proof.
  intros Hfire Hok.
  destruct (fire_split _ _ Hfire) as (t & l1 & l2 & st1 & st2 & Hts & Hst1 & Hcb & Hcase).
  assert (cellsOk st1) as H1.
  { eapply sameBoard_cellsOk; [|exact Hok]. subst st1. board_chain. }
  clear Hst1. apply (runCallback_cellsOk _ _ _ Hcb) in H1.
  destruct Hcase as [[_ ->] | (id & _ & _ & [[_ ->] | [_ ->]])]; done.
Qed.

Lemma resetGame_cellsOk (st : Game) : gridSize st = 8 -> cellsOk (resetGame st).
Proof.
  intros H8. unfold resetGame. cbv zeta.
  set (st0 := _stopTimer _).
  assert (sameBoard st st0) as [_ Hs] by (subst st0; board_chain).
  clearbody st0. apply initializeGrid_cellsOk. congruence.
Qed.

Lemma handleStartButton_cellsOk (st : Game) :
  cellsOk st -> cellsOk (handleStartButton st).
Proof.
  intros Hok. unfold handleStartButton.
  destruct (_startCooldown st); [done|]. cbv zeta.
  set (st0 := setTimeout _ _ _).
  assert (cellsOk st0) as Hok0.
  { eapply sameBoard_cellsOk; [|exact Hok]. subst st0. board_chain. }
  clearbody st0.
  destruct (negb (isPlaying st0) || isPaused st0).
  - by eapply sameBoard_cellsOk; [apply startGame_board|].
  - eapply sameBoard_cellsOk; [apply startGame_board|].
    apply resetGame_cellsOk, Hok0.
Qed.

Lemma perform_cellsOk (a : action) (st st' : Game) :
  perform a st = Some st' -> cellsOk st -> cellsOk st'.
Proof.
  intros Hrun Hok. destruct a; simpl in Hrun.
  - destruct (in_bounds _ _ _); [|done].
    destruct (handleCellClick row col st) as [st2| |] eqn:E; [|done..].
    apply (inj Some) in Hrun. subst st2.
    eapply sameBoard_cellsOk; [|exact Hok]. by eapply handleCellClick_board.
  - apply (inj Some) in Hrun. subst st'. by apply handleStartButton_cellsOk.
  - destruct (isPlaying st); [|done]. apply (inj Some) in Hrun. subst st'.
    eapply sameBoard_cellsOk; [|exact Hok]. apply pauseGame_board.
  - apply (inj Some) in Hrun. subst st'. apply resetGame_cellsOk, Hok.
  - apply (inj Some) in Hrun. subst st'. apply initializeGrid_cellsOk, Hok.
  - destruct (list_find _ _) as [[i p]|]; [|done]. simpl in Hrun.
    destruct (activatePowerUp p.2 el st) as [st2| |] eqn:E; [|done..].
    apply (inj Some) in Hrun. subst st2.
    eapply sameBoard_cellsOk; [|exact Hok]. by eapply activatePowerUp_board.
  - apply (inj Some) in Hrun. subst st'.
    eapply sameBoard_cellsOk; [|exact Hok]. unfold showRewardedVideo. board_chain.
  - apply (inj Some) in Hrun. subst st'.
    eapply sameBoard_cellsOk; [|exact Hok]. unfold giveReward. cbv zeta. board_chain.
Qed.

Lemma step_cellsOk (e : event) (st st' : Game) :
  step e st = Some st' -> cellsOk st -> cellsOk st'.
Proof.
  destruct e as [|delay a]; simpl; [apply fire_cellsOk|].
  case_decide; [|done]. intros Hp Hok.
  eapply perform_cellsOk; [exact Hp|].
  eapply sameBoard_cellsOk; [|exact Hok]. board_chain.
Qed.

(** X3. In every state a session can reach, the board is 8 rows of
    8 slots, and each slot holds a digit of [0, 9] or is empty
    ([null]): no read inside the board throws or gives [undefined]. *)
Theorem reachable_board_cells (st : Game) :
  reachable st ->
  gridSize st = 8
  ∧ wf_grid 8 (grid st)
  ∧ forall r c, 0 <= r < 8 -> 0 <= c < 8 ->
      grid_at (grid st) r c = Ret Null
      ∨ exists d, 0 <= d <= 9 ∧ grid_at (grid st) r c = Ret (Num d).
Proof.
  intros Hreach.
  assert (cellsOk st) as (H8 & Hok & Hcells).
  { revert st Hreach. apply (reachable_inv cellsOk).
    - intros rnd. destruct (newGame_fields rnd) as (g & k & -> & Hwf & Hcells).
      split; [done|]. split; [done|]. simpl. intros r c Hin.
      destruct (Hcells r c Hin) as (v & Hv & Hd). exists v. split; [done|]. by right.
    - intros e st st' Hok Hstep. by eapply step_cellsOk. }
  split; [done|]. unfold boardOk in Hok. rewrite H8 in *. split; [done|].
  intros r c Hr Hc. destruct (Hcells r c) as (v & Hv & [-> | (d & Hd & ->)]).
  - by split.
  - by left.
  - right. eauto.
Qed.

Lemma reachable_board_cells_witness :
  gridSize startedGame = 8
  ∧ wf_grid 8 (grid startedGame)
  ∧ forall r c, 0 <= r < 8 -> 0 <= c < 8 ->
      grid_at (grid startedGame) r c = Ret Null
      ∨ exists d, 0 <= d <= 9 ∧ grid_at (grid startedGame) r c = Ret (Num d).
Proof.
  apply (reachable_board_cells startedGame), startedGame_reachable.
Defined.

(** ** The draws of [initializeGrid] *)

Lemma randomRow_lookup (n : nat) (st : Game) (c : nat) :
  (c < n)%nat ->
  (randomRow n st).1 !! c = Some (Num (digitAt st (drawn st + c))).
Proof.
  revert st c. induction n as [|n IH]; intros st c Hc; [lia|].
  simpl.
  pose proof (IH (set_drawn (S (drawn st)) st)) as IH'.
  destruct (randomRow n (set_drawn (S (drawn st)) st)) as [row st2].
  simpl in *. destruct c as [|c].
  - simpl. by rewrite Nat.add_0_r.
  - simpl. rewrite IH' by lia. unfold digitAt. simpl.
    by replace (S (drawn st + c)) with (drawn st + S c)%nat by lia.
Qed.

Lemma randomRows_lookup (m n : nat) (st : Game) (r : nat) :
  (r < m)%nat ->
  (randomRows m n st).1 !! r
  = Some (randomRow n (set_drawn (r * n + drawn st) st)).1.
Proof.
  revert st r. induction m as [|m IH]; intros st r Hr; [lia|].
  simpl.
  pose proof (randomRow_spec n st) as (Hst1 & _).
  destruct (randomRow n st) as [row st1] eqn:Erow. simpl in Hst1.
  pose proof (IH st1) as IH'.
  destruct (randomRows m n st1) as [rows st2]. simpl in *.
  destruct r as [|r]; simpl.
  - assert (set_drawn (drawn st) st = st) as -> by (by destruct st).
    by rewrite Erow.
  - rewrite IH' by lia. subst st1. simpl.
    rewrite set_drawn_set_drawn.
    by replace (r * n + (n + drawn st))%nat with (n + r * n + drawn st)%nat by lia.
Qed.

(** X4. [initializeGrid] reads exactly gridSize * gridSize numbers
    of the tape and nothing else of the session changes; the board it
    leaves has gridSize rows of gridSize slots, and slot (r, c) holds
    the digit of [0, 9] made from the (r * gridSize + c)-th number
    read: the board is drawn row by row. *)
Theorem initializeGrid_row_major (st : Game) :
  exists g,
    initializeGrid st
    = set_grid g
        (set_drawn (Z.to_nat (gridSize st) * Z.to_nat (gridSize st) + drawn st) st)
    ∧ wf_grid (gridSize st) g
    ∧ forall r c, inside (gridSize st) (r, c) ->
        grid_at g r c
        = Ret (Num (digitAt st (drawn st + Z.to_nat r * Z.to_nat (gridSize st)
                                + Z.to_nat c)))
        ∧ 0 <= digitAt st (drawn st + Z.to_nat r * Z.to_nat (gridSize st)
                           + Z.to_nat c) <= 9.
Proof.
  unfold initializeGrid. cbv zeta.
  set (n := Z.to_nat (gridSize st)).
  pose proof (randomRows_spec n n st) as (Hst & Hlen & Hrows).
  pose proof (randomRows_lookup n n st) as Hlook.
  destruct (randomRows n n st) as [g st1]. simpl in *. subst st1.
  exists g. split; [done|]. split.
  { split; [done|]. eapply Forall_impl; [exact Hrows|]. by intros row [? _]. }
  intros r c [[Hr0 Hr1] [Hc0 Hc1]]. simpl in *.
  assert (Z.to_nat r < n)%nat as Hr by (unfold n; lia).
  assert (Z.to_nat c < n)%nat as Hc by (unfold n; lia).
  split.
  - unfold grid_at. rewrite decide_True by done. rewrite (Hlook _ Hr).
    unfold row_at. rewrite decide_True by done.
    rewrite randomRow_lookup by done. simpl. do 3 f_equal. lia.
  - unfold digitAt.
    assert (0 < randomUnit) as HU by done.
    pose proof (Z.mod_pos_bound
                  (tape st (drawn st + Z.to_nat r * n + Z.to_nat c)) randomUnit HU)
      as Hu.
    pose proof (mathFloor_range _ 10 (timesDouble_range _ 10 Hu eq_refl)). lia.
Qed.

(** ** Pending timeouts are never cancelled *)

Lemma keepsTimeouts_refl (st : Game) : keepsTimeouts st st.
Proof. exists []. by rewrite app_nil_r. Qed.

Lemma keepsTimeouts_trans (st1 st2 st3 : Game) :
  keepsTimeouts st1 st2 -> keepsTimeouts st2 st3 -> keepsTimeouts st1 st3.
Proof.
  intros [n1 H1] [n2 H2]. exists (n1 ++ n2). by rewrite H2, H1, app_assoc.
Qed.

Lemma tasks_same_keeps (st st' : Game) :
  tasks st' = tasks st -> keepsTimeouts st st'.
Proof. intros H. exists []. unfold timeouts. by rewrite H, app_nil_r. Qed.

Lemma tasks_app_keeps (new : list task) (st st' : Game) :
  tasks st' = tasks st ++ new -> keepsTimeouts st st'.
Proof.
  intros H. exists (filter (fun t => ¬ isTick t) new).
  unfold timeouts. by rewrite H, filter_app.
Qed.

Lemma setTimeout_keeps (c : callback) (delay : Z) (st : Game) :
  keepsTimeouts st (setTimeout c delay st).
Proof. by eapply tasks_app_keeps. Qed.

Lemma destroyCells_keeps (cells : list Cell) (st : Game) :
  keepsTimeouts st (destroyCells cells st).
Proof. rewrite destroyCells_tasks. by eapply tasks_app_keeps. Qed.

Lemma stopTimer_timeouts (st : Game) : timeouts (_stopTimer st) = timeouts st.
Proof.
  unfold _stopTimer, timeouts. destruct (timer st) as [id|]; [|done]. simpl.
  rewrite list_filter_filter. apply list_filter_iff. intros t.
  split; [tauto|]. intros Ht. split; [done|]. intros Hc. apply Ht.
  unfold isTick. by rewrite Hc.
Qed.

Lemma stopTimer_keepsTimeouts (st : Game) : keepsTimeouts st (_stopTimer st).
Proof. exists []. by rewrite stopTimer_timeouts, app_nil_r. Qed.

Lemma startTimer_timeouts (st : Game) : timeouts (_startTimer st) = timeouts st.
Proof.
  unfold _startTimer. cbv zeta. rewrite <- (stopTimer_timeouts st).
  set (st1 := _stopTimer st). clearbody st1. unfold timeouts. simpl.
  rewrite filter_app, filter_cons_False, filter_nil, app_nil_r; [done|].
  unfold isTick. simpl. tauto.
Qed.

Lemma startTimer_keepsTimeouts (st : Game) : keepsTimeouts st (_startTimer st).
Proof. exists []. by rewrite startTimer_timeouts, app_nil_r. Qed.

Lemma calculateScore_keeps (n : Z) (st : Game) :
  keepsTimeouts st (calculateScore n st).
Proof. unfold calculateScore. cbv zeta. by eapply tasks_app_keeps. Qed.

Lemma initializeGrid_keeps (st : Game) : keepsTimeouts st (initializeGrid st).
Proof. destruct (initializeGrid_spec st) as (g & k & -> & _). by apply tasks_same_keeps. Qed.

Lemma pickCells_tasks (n : nat) (cells : list Cell) (st : Game) :
  tasks (pickCells n cells st).2 = tasks st.
Proof.
  revert cells st. induction n as [|n IH]; intros cells st; [done|].
  simpl. by rewrite IH.
Qed.

Lemma set_grid_keeps (v : Grid) (st : Game) : keepsTimeouts st (set_grid v st).
Proof. by apply tasks_same_keeps. Qed.

Lemma set_score_keeps (v : Z) (st : Game) : keepsTimeouts st (set_score v st).
Proof. by apply tasks_same_keeps. Qed.

Lemma set_timeLeft_keeps (v : Z) (st : Game) : keepsTimeouts st (set_timeLeft v st).
Proof. by apply tasks_same_keeps. Qed.

Lemma set_combo_keeps (v : Z) (st : Game) : keepsTimeouts st (set_combo v st).
Proof. by apply tasks_same_keeps. Qed.

Lemma set_level_keeps (v : Z) (st : Game) : keepsTimeouts st (set_level v st).
Proof. by apply tasks_same_keeps. Qed.

Lemma set_isPlaying_keeps (v : bool) (st : Game) : keepsTimeouts st (set_isPlaying v st).
Proof. by apply tasks_same_keeps. Qed.

Lemma set_isPaused_keeps (v : bool) (st : Game) : keepsTimeouts st (set_isPaused v st).
Proof. by apply tasks_same_keeps. Qed.

Lemma set_timer_keeps (v : option nat) (st : Game) : keepsTimeouts st (set_timer v st).
Proof. by apply tasks_same_keeps. Qed.

Lemma set_powerUps_keeps (v : list (nat * powerType)) (st : Game) : keepsTimeouts st (set_powerUps v st).
Proof. by apply tasks_same_keeps. Qed.

Lemma set_startCooldown_keeps (v : bool) (st : Game) : keepsTimeouts st (set_startCooldown v st).
Proof. by apply tasks_same_keeps. Qed.

Lemma set_lastTickPlayed_keeps (v : option Z) (st : Game) : keepsTimeouts st (set_lastTickPlayed v st).
Proof. by apply tasks_same_keeps. Qed.

Lemma set_now_keeps (v : Z) (st : Game) : keepsTimeouts st (set_now v st).
Proof. by apply tasks_same_keeps. Qed.

Lemma set_nextId_keeps (v : nat) (st : Game) : keepsTimeouts st (set_nextId v st).
Proof. by apply tasks_same_keeps. Qed.

Lemma set_drawn_keeps (v : nat) (st : Game) : keepsTimeouts st (set_drawn v st).
Proof. by apply tasks_same_keeps. Qed.

Lemma set_emitted_keeps (v : list signal) (st : Game) : keepsTimeouts st (set_emitted v st).
Proof. by apply tasks_same_keeps. Qed.

Lemma levelUp_keeps (st : Game) : keepsTimeouts st (levelUp st).
Proof. by apply tasks_same_keeps. Qed.

Lemma clearPowerUps_keeps (st : Game) : keepsTimeouts st (clearPowerUps st).
Proof. by apply tasks_same_keeps. Qed.

Lemma emit_keeps (sg : signal) (st : Game) : keepsTimeouts st (emit sg st).
Proof. by apply tasks_same_keeps. Qed.

Create HintDb timeouts discriminated.
#[local] Hint Constants Opaque : timeouts.

#[local] Hint Resolve setTimeout_keeps destroyCells_keeps stopTimer_keepsTimeouts
  startTimer_keepsTimeouts calculateScore_keeps initializeGrid_keeps
  levelUp_keeps clearPowerUps_keeps emit_keeps
  set_grid_keeps set_score_keeps set_timeLeft_keeps set_combo_keeps
  set_level_keeps set_isPlaying_keeps set_isPaused_keeps set_timer_keeps
  set_powerUps_keeps set_startCooldown_keeps set_lastTickPlayed_keeps set_now_keeps
  set_nextId_keeps set_drawn_keeps set_emitted_keeps : timeouts.

(** Peels the calls of a function off one at a time. *)
Ltac timeouts_chain :=
  repeat first
    [ apply keepsTimeouts_refl
    | match goal with
      | |- keepsTimeouts _ (?f ?x) =>
          apply (keepsTimeouts_trans _ x); [|solve [auto 1 with timeouts]]
      end ].

Lemma explodeRandomCells_keeps (st : Game) :
  keepsTimeouts st (explodeRandomCells st).
Proof.
  unfold explodeRandomCells.
  pose proof (pickCells_tasks 8 [] st) as Hp.
  destruct (pickCells 8 [] st) as [cells st1]. simpl in Hp.
  eapply keepsTimeouts_trans; [by apply (tasks_same_keeps st st1)|]. cbv zeta.
  case_decide; timeouts_chain.
Qed.

Lemma clearRandomDigit_keeps (st st' : Game) :
  clearRandomDigit st = Ret st' -> keepsTimeouts st st'.
Proof.
  unfold clearRandomDigit.
  assert (tasks (floorRandom 10 st).2 = tasks st) as Hf by done.
  destruct (floorRandom 10 st) as [target st1]. simpl in Hf.
  destruct (cellsHolding _ _ _) as [cells| |]; simpl; [|done..].
  intros H. eapply keepsTimeouts_trans; [by apply (tasks_same_keeps st st1)|].
  case_decide; apply Ret_inj in H; subst st'; [|apply keepsTimeouts_refl].
  cbv zeta. case_decide; timeouts_chain.
Qed.

Lemma handleCellClick_keeps (row col : Z) (st st' : Game) :
  handleCellClick row col st = Ret st' -> keepsTimeouts st st'.
Proof.
  unfold handleCellClick.
  destruct (negb (isPlaying st) || isPaused st).
  { intros <-%Ret_inj. apply keepsTimeouts_refl. }
  destruct (grid_at _ _ _) as [digit| |]; simpl; [|done..].
  destruct (findConnectedCells _ _ _ _ _) as [cells| |]; simpl; [|done..].
  case_decide.
  - cbv zeta. case_decide; intros <-%Ret_inj; timeouts_chain.
  - intros <-%Ret_inj. timeouts_chain.
Qed.

Lemma activatePowerUp_keeps (type : powerType) (el : nat) (st st' : Game) :
  activatePowerUp type el st = Ret st' -> keepsTimeouts st st'.
Proof.
  unfold activatePowerUp. cbv zeta.
  set (st0 := set_powerUps _ st).
  assert (keepsTimeouts st st0) as H0 by (by apply tasks_same_keeps).
  clearbody st0. intros H. eapply keepsTimeouts_trans; [exact H0|].
  destruct type.
  - apply Ret_inj in H. subst st'. timeouts_chain.
  - apply Ret_inj in H. subst st'. apply explodeRandomCells_keeps.
  - case_decide; apply Ret_inj in H; subst st'; timeouts_chain.
  - apply Ret_inj in H. subst st'. timeouts_chain.
  - by apply clearRandomDigit_keeps.
Qed.

Lemma spawnPowerUps_keeps (st : Game) : keepsTimeouts st (spawnPowerUps st).
Proof.
  unfold spawnPowerUps. destruct (isPlaying st); simpl; [|apply keepsTimeouts_refl].
  case_decide; unfold keepsTimeouts, timeouts, setTimeout; simpl;
    rewrite <- ?app_assoc, filter_app; eauto.
Qed.

Lemma startGame_keeps (st : Game) : keepsTimeouts st (startGame st).
Proof.
  unfold startGame. cbv zeta.
  eapply keepsTimeouts_trans; [|apply emit_keeps].
  eapply keepsTimeouts_trans; [|apply spawnPowerUps_keeps]. timeouts_chain.
Qed.

Lemma resetGame_keeps (st : Game) : keepsTimeouts st (resetGame st).
Proof. unfold resetGame. cbv zeta. timeouts_chain. Qed.

Lemma pauseGame_keeps_timeouts (st : Game) : keepsTimeouts st (pauseGame st).
Proof. unfold pauseGame. destruct (isPaused st); timeouts_chain. Qed.

Lemma handleStartButton_keeps (st : Game) : keepsTimeouts st (handleStartButton st).
Proof.
  unfold handleStartButton. destruct (_startCooldown st); [apply keepsTimeouts_refl|].
  cbv zeta. destruct (negb _ || _).
  - eapply keepsTimeouts_trans; [|apply startGame_keeps]. timeouts_chain.
  - eapply keepsTimeouts_trans; [|apply startGame_keeps].
    eapply keepsTimeouts_trans; [|apply resetGame_keeps]. timeouts_chain.
Qed.

(** X5. Nothing the player or the rewarded-video glue does cancels
    a pending timeout: after any action, every [setTimeout] callback
    that was pending (cell destructions, the settle and refill steps,
    combo decay and boost expiry, power-up expiry and spawn, the
    start cooldown) is still pending, in the same order, before the
    ones the action registered. Only the countdown interval is ever
    cleared. *)
Theorem actions_cancel_no_timeout (a : action) (st st' : Game) :
  perform a st = Some st' ->
  exists new, timeouts st' = timeouts st ++ new.
Proof.
  intros Hrun. change (keepsTimeouts st st'). destruct a; simpl in Hrun.
  - destruct (in_bounds _ _ _); [|done].
    destruct (handleCellClick row col st) as [st1| |] eqn:E; [|done..].
    apply (inj Some) in Hrun. subst st1. by eapply handleCellClick_keeps.
  - apply (inj Some) in Hrun. subst st'. apply handleStartButton_keeps.
  - destruct (isPlaying st); [|done]. apply (inj Some) in Hrun. subst st'.
    apply pauseGame_keeps_timeouts.
  - apply (inj Some) in Hrun. subst st'. apply resetGame_keeps.
  - apply (inj Some) in Hrun. subst st'. apply initializeGrid_keeps.
  - destruct (list_find _ _) as [[i p]|]; [|done]. simpl in Hrun.
    destruct (activatePowerUp p.2 el st) as [st1| |] eqn:E; [|done..].
    apply (inj Some) in Hrun. subst st1. by eapply activatePowerUp_keeps.
  - apply (inj Some) in Hrun. subst st'. unfold showRewardedVideo. timeouts_chain.
  - apply (inj Some) in Hrun. subst st'. unfold giveReward. cbv zeta. timeouts_chain.
Qed.

Lemma actions_cancel_no_timeout_witness :
  exists new, timeouts (resetGame startedGame) = timeouts startedGame ++ new.
Proof.
  apply (actions_cancel_no_timeout ClickReset startedGame (resetGame startedGame)).
  reflexivity.
Defined.

(** ** What leaves the score board alone *)

Lemma sameStats_refl (st : Game) : sameStats st st.
Proof. done. Qed.

Lemma sameStats_trans (st1 st2 st3 : Game) :
  sameStats st1 st2 -> sameStats st2 st3 -> sameStats st1 st3.
Proof.
  intros (?&?&?&?&?&?&?) (?&?&?&?&?&?&?). repeat split; congruence.
Qed.

Lemma set_grid_stats (v : Grid) (st : Game) : sameStats st (set_grid v st).
Proof. done. Qed.

Lemma set_isPlaying_stats (v : bool) (st : Game) : sameStats st (set_isPlaying v st).
Proof. done. Qed.

Lemma set_isPaused_stats (v : bool) (st : Game) : sameStats st (set_isPaused v st).
Proof. done. Qed.

Lemma set_timer_stats (v : option nat) (st : Game) : sameStats st (set_timer v st).
Proof. done. Qed.

Lemma set_powerUps_stats (v : list (nat * powerType)) (st : Game) : sameStats st (set_powerUps v st).
Proof. done. Qed.

Lemma set_lastTickPlayed_stats (v : option Z) (st : Game) : sameStats st (set_lastTickPlayed v st).
Proof. done. Qed.

Lemma set_tasks_stats (v : list task) (st : Game) : sameStats st (set_tasks v st).
Proof. done. Qed.

Lemma set_nextId_stats (v : nat) (st : Game) : sameStats st (set_nextId v st).
Proof. done. Qed.

Lemma set_drawn_stats (v : nat) (st : Game) : sameStats st (set_drawn v st).
Proof. done. Qed.

Lemma set_emitted_stats (v : list signal) (st : Game) : sameStats st (set_emitted v st).
Proof. done. Qed.

Lemma setTimeout_stats (c : callback) (delay : Z) (st : Game) :
  sameStats st (setTimeout c delay st).
Proof. done. Qed.

Lemma emit_stats (sg : signal) (st : Game) : sameStats st (emit sg st).
Proof. done. Qed.

Lemma clearPowerUps_stats (st : Game) : sameStats st (clearPowerUps st).
Proof. done. Qed.

Lemma stopTimer_stats (st : Game) : sameStats st (_stopTimer st).
Proof. unfold _stopTimer. by destruct (timer st). Qed.

Lemma startTimer_stats (st : Game) : sameStats st (_startTimer st).
Proof.
  unfold _startTimer. cbv zeta.
  eapply sameStats_trans; [apply stopTimer_stats|]. done.
Qed.

Lemma destroyCells_stats (cells : list Cell) (st : Game) :
  sameStats st (destroyCells cells st).
Proof. by rewrite destroyCells_tasks. Qed.

Lemma initializeGrid_stats (st : Game) : sameStats st (initializeGrid st).
Proof. destruct (initializeGrid_spec st) as (g & k & -> & _). done. Qed.

Lemma powerUpExpire_stats (el : nat) (st : Game) : sameStats st (powerUpExpire el st).
Proof. unfold powerUpExpire. by case_decide. Qed.

Lemma spawnPowerUps_stats (st : Game) : sameStats st (spawnPowerUps st).
Proof.
  unfold spawnPowerUps. destruct (isPlaying st); simpl; [|done].
  case_decide; done.
Qed.

Create HintDb stats discriminated.
#[local] Hint Constants Opaque : stats.

#[local] Hint Resolve setTimeout_stats emit_stats clearPowerUps_stats
  stopTimer_stats startTimer_stats destroyCells_stats initializeGrid_stats
  powerUpExpire_stats spawnPowerUps_stats
  set_grid_stats set_isPlaying_stats set_isPaused_stats set_timer_stats
  set_powerUps_stats set_lastTickPlayed_stats set_tasks_stats set_nextId_stats
  set_drawn_stats set_emitted_stats : stats.

Ltac stats_chain :=
  repeat first
    [ apply sameStats_refl
    | match goal with
      | |- sameStats _ (?f ?x) =>
          apply (sameStats_trans _ x); [|solve [auto 1 with stats]]
      end ].

Lemma pauseGame_stats (st : Game) : sameStats st (pauseGame st).
Proof. unfold pauseGame. destruct (isPaused st); stats_chain. Qed.

Lemma settle_stats (st st' : Game) : settle st = Ret st' -> sameStats st st'.
Proof.
  unfold settle. destruct (dropCells _ _) as [g| |]; simpl; [|done..].
  by intros <-%Ret_inj.
Qed.

Lemma fillCell_stats (r c : Z) (st st' : Game) :
  fillCell r c (Ret st) = Ret st' -> sameStats st st'.
Proof.
  unfold fillCell. simpl. destruct (grid_at _ _ _) as [v| |]; simpl; [|done..].
  destruct (strict_eq v Null); by intros <-%Ret_inj.
Qed.

Lemma fillEmpty_stats (st st' : Game) : fillEmpty st = Ret st' -> sameStats st st'.
Proof.
  unfold fillEmpty. rewrite foldl_cells. generalize (r ← seqZ 0 (gridSize st); c ← seqZ 0 (gridSize st); [(r, c)]).
  intros cells. revert st'. induction cells as [|x cells IH] using rev_ind; intros st'.
  - by intros <-%Ret_inj.
  - rewrite foldl_app. cbn [foldl].
    destruct (foldl _ (Ret st) cells) as [st1| |] eqn:E; [|done..].
    intros H. eapply sameStats_trans; [by apply IH|]. by eapply fillCell_stats.
Qed.

(** ** The start button *)

Lemma startGame_fields (st : Game) :
  score (startGame st) = 0
  ∧ combo (startGame st) = 0
  ∧ level (startGame st) = 1
  ∧ timeLeft (startGame st) = 60
  ∧ _startCooldown (startGame st) = _startCooldown st
  ∧ now (startGame st) = now st.
Proof.
  unfold startGame. cbv zeta. set (st1 := set_level 1 _).
  assert (score st1 = 0 ∧ combo st1 = 0 ∧ level st1 = 1 ∧ timeLeft st1 = 60
          ∧ _startCooldown st1 = _startCooldown st ∧ now st1 = now st)
    as (H1 & H2 & H3 & H4 & H5 & H6) by done.
  clearbody st1.
  assert (sameStats st1 (spawnPowerUps (clearPowerUps (_startTimer (_stopTimer st1)))))
    as (?&?&?&?&?&?&?) by stats_chain.
  set (st5 := spawnPowerUps _) in *. clearbody st5. unfold emit. simpl.
  repeat split; congruence.
Qed.

(** The start fanfare: the one signal of [startGame]. *)
Lemma startGame_fanfare (st : Game) :
  emitted (startGame st) = emitted st ++ [SfxLevelUp 1].
Proof.
  destruct (startGame_fields st) as (_ & _ & Hl & _). revert Hl.
  unfold startGame. cbv zeta. set (st1 := set_level 1 _).
  assert (emitted st1 = emitted st) as H1 by done. clearbody st1.
  destruct (stopTimer_clock st1) as [_ H2].
  set (st2 := _stopTimer st1) in *. clearbody st2.
  destruct (startTimer_clock st2) as [_ H3].
  set (st3 := _startTimer st2) in *. clearbody st3.
  destruct (spawnPowerUps_clock (clearPowerUps st3)) as [_ H4].
  set (st5 := spawnPowerUps _) in *. clearbody st5.
  unfold emit. simpl. intros ->. rewrite H4. simpl. by rewrite H3, H2, H1.
Qed.

Lemma resetGame_redraws (st : Game) :
  exists st0, sameBoard st st0 ∧ resetGame st = initializeGrid st0.
Proof.
  eexists. split; [|reflexivity]. board_chain.
Qed.

Lemma resetGame_digits (st : Game) :
  wf_grid (gridSize st) (grid (resetGame st))
  ∧ gridSize (resetGame st) = gridSize st
  ∧ forall r c, inside (gridSize st) (r, c) ->
      exists v, grid_at (grid (resetGame st)) r c = Ret v ∧ isDigit v.
Proof.
  destruct (resetGame_redraws st) as (st0 & [_ Hs] & ->). rewrite <- Hs.
  destruct (initializeGrid_spec st0) as (g & k & -> & Hwf & Hcells). done.
Qed.

Lemma resetGame_flags (st : Game) :
  _startCooldown (resetGame st) = _startCooldown st.
Proof.
  unfold resetGame. cbv zeta. set (st1 := clearPowerUps _).
  assert (_startCooldown st1 = _startCooldown st) as H1 by done. clearbody st1.
  assert (sameStats st1 (initializeGrid (_stopTimer st1)))
    as (?&?&?&?&?&?&?) by stats_chain.
  congruence.
Qed.

Lemma handleStartButton_again (st : Game) :
  _startCooldown st = true -> handleStartButton st = st.
Proof. intros H. unfold handleStartButton. by rewrite H. Qed.

(** The session on which [handleStartButton] starts the game. *)
Lemma handleStartButton_unfold (st : Game) :
  _startCooldown st = false ->
  exists st1,
    sameControl st st1
    ∧ (now st1 = now st ∧ gridSize st1 = gridSize st)
    ∧ sameBoard st st1
    ∧ _startCooldown st1 = true
    ∧ Task (now st + 250) CbStartCooldown ∈ timeouts st1
    ∧ handleStartButton st
      = if negb (isPlaying st1) || isPaused st1
        then startGame st1 else startGame (resetGame st1).
Proof.
  intros Hcool.
  exists (setTimeout CbStartCooldown 250 (set_startCooldown true st)).
  split; [control_chain|]. split; [done|]. split; [done|]. split; [done|].
  split.
  - unfold timeouts, setTimeout. simpl. rewrite filter_app.
    apply elem_of_app. right. rewrite filter_cons_True; [by left|].
    unfold isTick. simpl. tauto.
  - unfold handleStartButton. by rewrite Hcool.
Qed.

(** X6. A click on Start while the cooldown flag is clear, on a
    session whose countdown is consistent, leaves a fresh game: score
    0, combo 0, level 1, 60 seconds, playing and not paused, with one
    run of a new countdown interval pending 1000 ms later. The flag is
    set and its 250 ms timeout pending, so a further click before that
    timeout has fired changes nothing. The board is kept when the
    session was idle or paused, and drawn afresh (digits of [0, 9]
    everywhere) when a game was running. *)
Theorem handleStartButton_fresh_game (st : Game) :
  timerOk st -> _startCooldown st = false ->
  score (handleStartButton st) = 0
  ∧ combo (handleStartButton st) = 0
  ∧ level (handleStartButton st) = 1
  ∧ timeLeft (handleStartButton st) = 60
  ∧ isPlaying (handleStartButton st) = true
  ∧ isPaused (handleStartButton st) = false
  ∧ timer (handleStartButton st) = Some (nextId st)
  ∧ pendingTicks (handleStartButton st)
    = [Task (now st + 1000) (CbTick (nextId st))]
  ∧ _startCooldown (handleStartButton st) = true
  ∧ Task (now st + 250) CbStartCooldown ∈ tasks (handleStartButton st)
  ∧ handleStartButton (handleStartButton st) = handleStartButton st
  ∧ (negb (isPlaying st) || isPaused st = true ->
     grid (handleStartButton st) = grid st)
  ∧ (negb (isPlaying st) || isPaused st = false ->
     wf_grid (gridSize st) (grid (handleStartButton st))
     ∧ forall r c, inside (gridSize st) (r, c) ->
         exists d, 0 <= d <= 9
           ∧ grid_at (grid (handleStartButton st)) r c = Ret (Num d)).
Proof.
  intros Hok Hcool.
  destruct (handleStartButton_unfold st Hcool)
    as (st1 & Hc & (Hnow & Hsize) & [Hg _] & Hcool1 & Hin & Heq).
  assert (timerOk st1) as Hok1.
  { destruct Hc as (Ht & _ & _ & _ & _ & Hk). by apply (timerOk_flags st). }
  destruct Hc as (_ & Hp & Hq & _ & Hn & _).
  assert (forall s, keepsTimeouts st1 s ->
            Task (now st + 250) CbStartCooldown ∈ tasks s) as Hkeep.
  { intros s [new Hnew].
    assert (Task (now st + 250) CbStartCooldown ∈ timeouts s) as Hs.
    { rewrite Hnew. apply elem_of_app. by left. }
    unfold timeouts in Hs. by apply list_elem_of_filter in Hs as [_ Hs]. }
  rewrite <- Hp, <- Hq.
  destruct (negb (isPlaying st1) || isPaused st1) eqn:Hidle.
  - destruct (startGame_control st1 Hok1) as (Hk & Ht & Hp' & Hq').
    destruct (startGame_fields st1) as (H1 & H2 & H3 & H4 & H5 & H6).
    rewrite Hnow, Hn in Hk. rewrite Hn in Ht. rewrite Heq.
    split; [exact H1|]. split; [exact H2|]. split; [exact H3|].
    split; [exact H4|]. split; [exact Hp'|]. split; [exact Hq'|].
    split; [exact Ht|]. split; [exact Hk|].
    split; [rewrite H5; exact Hcool1|]. split; [apply Hkeep, startGame_keeps|].
    split; [apply handleStartButton_again; rewrite H5; exact Hcool1|].
    split; [|intros [=]]. intros _.
    destruct (startGame_board st1) as [Hg' _]. rewrite Hg'. exact Hg.
  - assert (timerOk (resetGame st1)) as Hok2 by (by apply resetGame_controlOk).
    destruct (resetGame_control st1 Hok1) as (_ & _ & Hn2 & Hnow2 & _).
    destruct (startGame_control _ Hok2) as (Hk & Ht & Hp' & Hq').
    destruct (startGame_fields (resetGame st1)) as (H1 & H2 & H3 & H4 & H5 & H6).
    rewrite Hnow2, Hn2, Hnow, Hn in Hk. rewrite Hn2, Hn in Ht. rewrite Heq.
    split; [exact H1|]. split; [exact H2|]. split; [exact H3|].
    split; [exact H4|]. split; [exact Hp'|]. split; [exact Hq'|].
    split; [exact Ht|]. split; [exact Hk|].
    split; [rewrite H5, resetGame_flags; exact Hcool1|].
    split.
    { apply Hkeep. eapply keepsTimeouts_trans;
        [apply resetGame_keeps|apply startGame_keeps]. }
    split; [apply handleStartButton_again; rewrite H5, resetGame_flags; exact Hcool1|].
    split; [intros [=]|]. intros _.
    destruct (startGame_board (resetGame st1)) as [Hg' _]. rewrite Hg'.
    destruct (resetGame_digits st1) as (Hwf & _ & Hcells).
    rewrite <- Hsize. split; [done|]. intros r c Hin'.
    destruct (Hcells r c Hin') as (v & Hv & d & Hd & ->). eauto.
Qed.

Lemma handleStartButton_fresh_game_witness :
  score (handleStartButton (newGame zeroTape)) = 0
  ∧ combo (handleStartButton (newGame zeroTape)) = 0
  ∧ level (handleStartButton (newGame zeroTape)) = 1
  ∧ timeLeft (handleStartButton (newGame zeroTape)) = 60
  ∧ isPlaying (handleStartButton (newGame zeroTape)) = true
  ∧ isPaused (handleStartButton (newGame zeroTape)) = false
  ∧ timer (handleStartButton (newGame zeroTape)) = Some (nextId (newGame zeroTape))
  ∧ pendingTicks (handleStartButton (newGame zeroTape))
    = [Task (now (newGame zeroTape) + 1000) (CbTick (nextId (newGame zeroTape)))]
  ∧ _startCooldown (handleStartButton (newGame zeroTape)) = true
  ∧ Task (now (newGame zeroTape) + 250) CbStartCooldown
      ∈ tasks (handleStartButton (newGame zeroTape))
  ∧ handleStartButton (handleStartButton (newGame zeroTape))
    = handleStartButton (newGame zeroTape)
  ∧ (negb (isPlaying (newGame zeroTape)) || isPaused (newGame zeroTape) = true ->
     grid (handleStartButton (newGame zeroTape)) = grid (newGame zeroTape))
  ∧ (negb (isPlaying (newGame zeroTape)) || isPaused (newGame zeroTape) = false ->
     wf_grid (gridSize (newGame zeroTape)) (grid (handleStartButton (newGame zeroTape)))
     ∧ forall r c, inside (gridSize (newGame zeroTape)) (r, c) ->
         exists d, 0 <= d <= 9
           ∧ grid_at (grid (handleStartButton (newGame zeroTape))) r c = Ret (Num d)).
Proof.
  apply (handleStartButton_fresh_game (newGame zeroTape)).
  - vm_compute. reflexivity.
  - vm_compute. reflexivity.
Defined.

(** ** Pause and resume *)

Lemma timerOk_set_now (t : Z) (st : Game) : timerOk st -> timerOk (set_now t st).
Proof. by apply timerOk_flags. Qed.

Lemma timeouts_set_now (t : Z) (st : Game) : timeouts (set_now t st) = timeouts st.
Proof. done. Qed.

(** ** The area explosion *)

Lemma floorRandom_range (n : Z) (st : Game) :
  0 < n -> 0 <= (floorRandom n st).1 < n.
Proof.
  intros Hn. unfold floorRandom, mathRandom. simpl.
  assert (0 < randomUnit) as HU by done.
  pose proof (Z.mod_pos_bound (tape st (drawn st)) randomUnit HU) as Hu.
  exact (mathFloor_range _ n (timesDouble_range _ n Hu Hn)).
Qed.

Lemma floorRandom_state (n : Z) (st : Game) :
  (floorRandom n st).2 = set_drawn (S (drawn st)) st.
Proof. done. Qed.

Lemma pickCells_state (n : nat) (cells : list Cell) (st : Game) :
  (pickCells n cells st).2 = set_drawn (2 * n + drawn st) st.
Proof.
  revert cells st. induction n as [|n IH]; intros cells st.
  - simpl. by destruct st.
  - simpl. rewrite IH. simpl. rewrite !set_drawn_set_drawn.
    f_equal. lia.
Qed.

Lemma pickCells_cells (n : nat) (cells : list Cell) (st : Game) :
  0 < gridSize st -> NoDup cells ->
  (forall x, x ∈ cells -> inside (gridSize st) x) ->
  NoDup (pickCells n cells st).1
  ∧ (forall x, x ∈ (pickCells n cells st).1 -> inside (gridSize st) x)
  ∧ (length cells <= length (pickCells n cells st).1 <= length cells + n)%nat
  ∧ ((0 < n)%nat -> (pickCells n cells st).1 ≠ []).
Proof.
  intros Hsize. revert cells st Hsize.
  induction n as [|n IH]; intros cells st Hsize Hnd Hin.
  { simpl. split; [done|]. split; [done|]. split; [lia|]. intros ?. lia. }
  simpl.
  pose proof (floorRandom_range (gridSize st) st Hsize) as Hrow.
  pose proof (floorRandom_range (gridSize st) (set_drawn (S (drawn st)) st) Hsize) as Hcol.
  set (row := (floorRandom (gridSize st) st).1) in *.
  set (col := (floorRandom (gridSize st) (set_drawn (S (drawn st)) st)).1) in *.
  set (st2 := set_drawn (S (S (drawn st))) st).
  set (cells' := if decide ((row, col) ∈ cells) then cells else cells ++ [(row, col)]).
  change (NoDup (pickCells n cells' st2).1
          ∧ (forall x, x ∈ (pickCells n cells' st2).1 -> inside (gridSize st) x)
          ∧ (length cells <= length (pickCells n cells' st2).1 <= length cells + S n)%nat
          ∧ ((0 < S n)%nat -> (pickCells n cells' st2).1 ≠ [])).
  assert (NoDup cells' ∧ (forall x, x ∈ cells' -> inside (gridSize st) x)
          ∧ (length cells <= length cells' <= length cells + 1)%nat
          ∧ cells' ≠ []) as (Hnd' & Hin' & Hlen' & Hne').
  { unfold cells'. case_decide as Hmem.
    - split; [done|]. split; [done|]. split; [lia|].
      intros ->. by apply elem_of_nil in Hmem.
    - split.
      { apply NoDup_app. split; [done|]. split; [|apply NoDup_singleton].
        by intros x Hx ->%list_elem_of_singleton. }
      split.
      { intros x [Hx | ->%list_elem_of_singleton]%elem_of_app; [by apply Hin|].
        split; simpl; lia. }
      split; [rewrite length_app; simpl; lia|].
      by destruct cells. }
  clearbody cells'.
  destruct (IH cells' st2 Hsize Hnd' Hin') as (H1 & H2 & H3 & H4).
  split; [done|]. split; [done|]. split; [lia|].
  intros _ Hnil. rewrite Hnil in H3. simpl in H3.
  destruct cells'; [done|]. simpl in H3. lia.
Qed.

Lemma filter_all {A : Type} (P : A -> Prop) `{forall x, Decision (P x)}
    (l : list A) :
  Forall P l -> filter P l = l.
Proof.
  induction 1 as [|x l Hx _ IH]; [done|]. by rewrite filter_cons_True, IH.
Qed.

(** X8. The area explosion, on a board of positive size, draws 16
    numbers for 8 cells of the board and keeps the distinct ones:
    between 1 and 8 cells, no cell twice. It schedules the destruction
    of exactly these cells 250 ms later and one settle step 500 ms
    later, adds 20 points per cell (20 to 160 in all), raises the level
    by at most one, and leaves the board as it is for now. *)
Theorem explodeRandomCells_bounds (st : Game) :
  0 < gridSize st ->
  exists cells,
    (pickCells 8 [] st).1 = cells
    ∧ NoDup cells
    ∧ (1 <= length cells <= 8)%nat
    ∧ (forall x, x ∈ cells -> inside (gridSize st) x)
    ∧ score (explodeRandomCells st) = score st + Z.of_nat (length cells) * 20
    ∧ score st + 20 <= score (explodeRandomCells st) <= score st + 160
    ∧ drawn (explodeRandomCells st) = (drawn st + 16)%nat
    ∧ tasks (explodeRandomCells st)
      = tasks st
        ++ ((fun x : Cell => Task (now st + 250) (CbDestroy x.1 x.2)) <$> cells)
        ++ [Task (now st + 500) CbSettle]
    ∧ grid (explodeRandomCells st) = grid st
    ∧ level st <= level (explodeRandomCells st) <= level st + 1.
Proof.
  intros Hsize.
  destruct (pickCells_cells 8 [] st Hsize) as (Hnd & Hin & Hlen & Hne).
  { constructor. }
  { intros x Hx. by apply elem_of_nil in Hx. }
  pose proof (pickCells_state 8 [] st) as Hst.
  unfold explodeRandomCells.
  destruct (pickCells 8 [] st) as [cells st1]. simpl in *. subst st1.
  exists cells. split; [done|]. split; [done|].
  assert (1 <= length cells <= 8)%nat as Hlen'.
  { split; [|lia]. destruct cells; [by exfalso; apply Hne; [lia|]|simpl; lia]. }
  split; [done|]. split; [done|].
  rewrite destroyCells_tasks. simpl.
  rewrite (filter_all _ cells).
  2:{ apply Forall_forall. intros [r c] Hx. simpl.
      apply Is_true_true, in_bounds_inside. by apply Hin. }
  case_decide; simpl.
  - split; [done|]. split; [lia|]. split; [lia|].
    split; [by rewrite <- app_assoc|]. split; [done|]. lia.
  - split; [done|]. split; [lia|]. split; [lia|].
    split; [by rewrite <- app_assoc|]. split; [done|]. lia.
Qed.

Lemma explodeRandomCells_bounds_witness :
  exists cells,
    (pickCells 8 [] startedGame).1 = cells
    ∧ NoDup cells
    ∧ (1 <= length cells <= 8)%nat
    ∧ (forall x, x ∈ cells -> inside (gridSize startedGame) x)
    ∧ score (explodeRandomCells startedGame)
      = score startedGame + Z.of_nat (length cells) * 20
    ∧ score startedGame + 20 <= score (explodeRandomCells startedGame)
      <= score startedGame + 160
    ∧ drawn (explodeRandomCells startedGame) = (drawn startedGame + 16)%nat
    ∧ tasks (explodeRandomCells startedGame)
      = tasks startedGame
        ++ ((fun x : Cell => Task (now startedGame + 250) (CbDestroy x.1 x.2))
              <$> cells)
        ++ [Task (now startedGame + 500) CbSettle]
    ∧ grid (explodeRandomCells startedGame) = grid startedGame
    ∧ level startedGame <= level (explodeRandomCells startedGame)
      <= level startedGame + 1.
Proof.
  apply (explodeRandomCells_bounds startedGame). vm_compute. reflexivity.
Defined.

(** ** The digit clear *)

Lemma NoDup_allCells (size : Z) : NoDup (allCells size).
Proof.
  unfold allCells. apply NoDup_bind.
  - intros r1 r2 y _ _ H1 H2.
    apply list_elem_of_bind in H1 as (c1 & H1 & _).
    apply list_elem_of_bind in H2 as (c2 & H2 & _).
    apply list_elem_of_singleton in H1, H2. congruence.
  - intros r _. apply NoDup_bind.
    + intros c1 c2 y _ _ H1 H2.
      apply list_elem_of_singleton in H1, H2. congruence.
    + intros c _. apply NoDup_singleton.
    + apply NoDup_seqZ.
  - apply NoDup_seqZ.
Qed.

Lemma scanCell_cells (size : Z) (g : Grid) (target : value) (cells acc : list Cell) :
  wf_grid size g -> (forall x, x ∈ cells -> inside size x) ->
  foldl (fun a (x : Cell) => scanCell g target x.1 x.2 a) (Ret acc) cells
  = Ret (acc ++ filter (holds g target) cells).
Proof.
  intros Hwf. revert acc. induction cells as [|[r c] cells IH]; intros acc Hin.
  - simpl. by rewrite app_nil_r.
  - cbn [foldl]. unfold scanCell at 2. simpl.
    destruct (grid_at_inside size g r c Hwf) as [v Hv]; [apply Hin; by left|].
    rewrite Hv. simpl. rewrite filter_cons.
    destruct (decide (holds g target (r, c))) as [Hh|Hh];
      unfold holds in Hh; simpl in Hh; rewrite Hv in Hh; unfold strict_eq.
    + apply Ret_inj in Hh. subst v.
      rewrite bool_decide_eq_true_2 by done.
      rewrite IH by (intros x Hx; apply Hin; by right).
      by rewrite <- app_assoc.
    + rewrite bool_decide_eq_false_2 by congruence.
      apply IH. intros x Hx. apply Hin. by right.
Qed.

Lemma cellsHolding_spec (size : Z) (g : Grid) (target : value) :
  wf_grid size g ->
  cellsHolding size g target = Ret (filter (holds g target) (allCells size)).
Proof.
  intros Hwf. unfold cellsHolding.
  rewrite (foldl_cells (fun r c acc => scanCell g target r c acc)).
  fold (allCells size). rewrite (scanCell_cells size); [done..|].
  intros x Hx. by apply elem_of_allCells.
Qed.

(** X9. The digit clear draws a target digit and, on a well-formed
    board, collects exactly the cells holding it, row by row and each
    once. If there is none, only the draw is consumed: nothing is
    scored or scheduled. Otherwise it schedules the destruction of
    exactly these cells 250 ms later and one settle step 500 ms later,
    adds 15 points per cell, raises the level by at most one and leaves
    the board as it is for now. *)
Theorem clearRandomDigit_spec (st : Game) :
  boardOk st ->
  exists cells st',
    cellsHolding (gridSize st) (grid st) (Num (digitAt st (drawn st))) = Ret cells
    ∧ cells = filter (holds (grid st) (Num (digitAt st (drawn st))))
                (allCells (gridSize st))
    ∧ NoDup cells
    ∧ (forall x, x ∈ cells <->
         inside (gridSize st) x ∧ holds (grid st) (Num (digitAt st (drawn st))) x)
    ∧ clearRandomDigit st = Ret st'
    ∧ (cells = [] -> st' = set_drawn (S (drawn st)) st)
    ∧ (cells ≠ [] ->
       score st' = score st + Z.of_nat (length cells) * 15
       ∧ tasks st'
         = tasks st
           ++ ((fun x : Cell => Task (now st + 250) (CbDestroy x.1 x.2)) <$> cells)
           ++ [Task (now st + 500) CbSettle]
       ∧ grid st' = grid st
       ∧ level st <= level st' <= level st + 1).
Proof.
  intros Hwf. unfold boardOk in Hwf.
  set (target := Num (digitAt st (drawn st))).
  set (cells := filter (holds (grid st) target) (allCells (gridSize st))).
  assert (forall x, x ∈ cells <-> inside (gridSize st) x ∧ holds (grid st) target x)
    as Hmem.
  { intros x. unfold cells. rewrite list_elem_of_filter, elem_of_allCells. tauto. }
  exists cells.
  unfold clearRandomDigit. rewrite (surjective_pairing (floorRandom 10 st)).
  rewrite floorRandom_state.
  change (floorRandom 10 st).1 with (digitAt st (drawn st)). fold target.
  change (gridSize (set_drawn (S (drawn st)) st)) with (gridSize st).
  change (grid (set_drawn (S (drawn st)) st)) with (grid st).
  rewrite (cellsHolding_spec _ _ _ Hwf). fold cells. simpl.
  destruct (decide (cells ≠ [])) as [Hne|Heq].
  - eexists. split; [done|]. split; [done|].
    split; [apply NoDup_filter, NoDup_allCells|]. split; [done|].
    split; [reflexivity|]. split; [done|]. intros _.
    rewrite destroyCells_tasks. simpl.
    rewrite (filter_all _ cells).
    2:{ apply Forall_forall. intros [r c] Hx. simpl.
        apply Is_true_true, in_bounds_inside. by apply Hmem. }
    case_decide; simpl.
    + split; [done|]. split; [by rewrite <- app_assoc|]. split; [done|]. lia.
    + split; [done|]. split; [by rewrite <- app_assoc|]. split; [done|]. lia.
  - eexists. split; [done|]. split; [done|].
    split; [apply NoDup_filter, NoDup_allCells|]. split; [done|].
    split; [reflexivity|]. split; [done|]. intros Hne. by destruct Heq.
Qed.

Lemma clearRandomDigit_spec_witness :
  exists cells st',
    cellsHolding (gridSize startedGame) (grid startedGame)
      (Num (digitAt startedGame (drawn startedGame))) = Ret cells
    ∧ cells = filter (holds (grid startedGame)
                        (Num (digitAt startedGame (drawn startedGame))))
                (allCells (gridSize startedGame))
    ∧ NoDup cells
    ∧ (forall x, x ∈ cells <->
         inside (gridSize startedGame) x
         ∧ holds (grid startedGame)
             (Num (digitAt startedGame (drawn startedGame))) x)
    ∧ clearRandomDigit startedGame = Ret st'
    ∧ (cells = [] -> st' = set_drawn (S (drawn startedGame)) startedGame)
    ∧ (cells ≠ [] ->
       score st' = score startedGame + Z.of_nat (length cells) * 15
       ∧ tasks st'
         = tasks startedGame
           ++ ((fun x : Cell => Task (now startedGame + 250) (CbDestroy x.1 x.2))
                 <$> cells)
           ++ [Task (now startedGame + 500) CbSettle]
       ∧ grid st' = grid startedGame
       ∧ level startedGame <= level st' <= level startedGame + 1).
Proof.
  apply (clearRandomDigit_spec startedGame).
  vm_compute. split; [reflexivity|repeat constructor].
Defined.

(** ** Power-ups: single use, spawn chain *)

Lemma activatePowerUp_powerUps (type : powerType) (el : nat) (st st' : Game) :
  activatePowerUp type el st = Ret st' ->
  powerUps st' = filter (fun p => p.1 ≠ el) (powerUps st).
Proof.
  unfold activatePowerUp. cbv zeta.
  set (st0 := set_powerUps _ st).
  assert (powerUps st0 = filter (fun p => p.1 ≠ el) (powerUps st)) as H0 by done.
  clearbody st0. intros H. rewrite <- H0.
  assert (sameControl st0 st') as (_ & _ & _ & Hu & _); [|done].
  destruct type.
  - apply Ret_inj in H. subst st'. done.
  - apply Ret_inj in H. subst st'. apply explodeRandomCells_control.
  - case_decide; apply Ret_inj in H; subst st'; control_chain.
  - apply Ret_inj in H. subst st'. control_chain.
  - by apply clearRandomDigit_control.
Qed.

Lemma not_elem_of_filter_fst (el : nat) (l : list (nat * powerType)) :
  el ∉ (filter (fun p => p.1 ≠ el) l).*1.
Proof.
  intros (p & Hp & Hin)%list_elem_of_fmap.
  apply list_elem_of_filter in Hin as [Hne _]. done.
Qed.

(** X10. A power-up is used once: activating the element [el]
    takes it, and only it, off the list of power-ups, whatever its
    kind does. Afterwards a click on [el] is impossible and its expiry
    callback, still pending, does nothing. *)
Theorem activatePowerUp_once (type : powerType) (el : nat) (st st' : Game) :
  activatePowerUp type el st = Ret st' ->
  powerUps st' = filter (fun p => p.1 ≠ el) (powerUps st)
  ∧ (el ∉ (powerUps st').*1)
  ∧ (forall p, p ∈ powerUps st -> p.1 ≠ el -> p ∈ powerUps st')
  ∧ perform (ClickPowerUp el) st' = None
  ∧ powerUpExpire el st' = st'.
Proof.
  intros H. pose proof (activatePowerUp_powerUps _ _ _ _ H) as Hu.
  assert (el ∉ (powerUps st').*1) as Hnot.
  { rewrite Hu. apply not_elem_of_filter_fst. }
  split; [done|]. split; [done|]. split.
  { intros p Hp Hne. rewrite Hu. by apply list_elem_of_filter. }
  split.
  - simpl. destruct (list_find _ _) as [[i p]|] eqn:E; [|done].
    apply list_find_Some in E as (Hi & Hp & _). exfalso. apply Hnot.
    apply list_elem_of_fmap. exists p. split; [done|].
    by eapply list_elem_of_lookup_2.
  - unfold powerUpExpire. by rewrite decide_False.
Qed.

Lemma activatePowerUp_once_witness :
  powerUps (set_timeLeft (timeLeft startedGame + 10)
              (set_powerUps (filter (fun p => p.1 ≠ 2%nat) (powerUps startedGame))
                 startedGame))
  = filter (fun p => p.1 ≠ 2%nat) (powerUps startedGame)
  ∧ (2%nat ∉ (powerUps (set_timeLeft (timeLeft startedGame + 10)
                         (set_powerUps
                            (filter (fun p => p.1 ≠ 2%nat) (powerUps startedGame))
                            startedGame))).*1)
  ∧ (forall p, p ∈ powerUps startedGame -> p.1 ≠ 2%nat ->
       p ∈ powerUps (set_timeLeft (timeLeft startedGame + 10)
                       (set_powerUps
                          (filter (fun p => p.1 ≠ 2%nat) (powerUps startedGame))
                          startedGame)))
  ∧ perform (ClickPowerUp 2)
      (set_timeLeft (timeLeft startedGame + 10)
         (set_powerUps (filter (fun p => p.1 ≠ 2%nat) (powerUps startedGame))
            startedGame)) = None
  ∧ powerUpExpire 2
      (set_timeLeft (timeLeft startedGame + 10)
         (set_powerUps (filter (fun p => p.1 ≠ 2%nat) (powerUps startedGame))
            startedGame))
    = set_timeLeft (timeLeft startedGame + 10)
        (set_powerUps (filter (fun p => p.1 ≠ 2%nat) (powerUps startedGame))
           startedGame).
Proof.
  apply (activatePowerUp_once TimeBoost 2 startedGame).
  vm_compute. reflexivity.
Defined.

(** X11. [spawnPowerUps] does nothing on a session that is not
    playing, so the spawn chain ends there. On a playing session it
    registers exactly one next spawn, between 8000 ms and 15000 ms
    later, both included: the delay is the sum
    [8000 + Math.random() * 7000] of doubles, for a number read,
    without its fraction. A power-up is added exactly when the first
    number read is below 0.3:
    one, of one of the five kinds, under a new id, with its expiry
    pending 5000 ms later. Score, combo, level, time left, board and
    countdown are not touched. *)
Theorem spawnPowerUps_chain (st : Game) :
  (isPlaying st = false -> spawnPowerUps st = st)
  ∧ (isPlaying st = true ->
     exists u d,
       0 <= u < randomUnit
       ∧ d = spawnDelay u
       ∧ 8000 <= d <= 15000
       ∧ sameStats st (spawnPowerUps st)
       ∧ sameBoard st (spawnPowerUps st)
       ∧ sameTimer st (spawnPowerUps st)
       ∧ ((¬ belowThreeTenths (tape st (drawn st) `mod` randomUnit)
           ∧ powerUps (spawnPowerUps st) = powerUps st
           ∧ nextId (spawnPowerUps st) = nextId st
           ∧ tasks (spawnPowerUps st) = tasks st ++ [Task (now st + d) CbSpawn])
          ∨ (belowThreeTenths (tape st (drawn st) `mod` randomUnit)
             ∧ exists t,
                 t ∈ types
                 ∧ powerUps (spawnPowerUps st) = powerUps st ++ [(nextId st, t)]
                 ∧ nextId (spawnPowerUps st) = S (nextId st)
                 ∧ tasks (spawnPowerUps st)
                   = tasks st
                     ++ [Task (now st + 5000) (CbPowerUpExpire (nextId st));
                         Task (now st + d) CbSpawn]))).
Proof.
  split.
  { intros Hp. unfold spawnPowerUps. by rewrite Hp. }
  intros Hp.
  assert (forall i, 0 <= tape st i `mod` randomUnit < randomUnit) as Hu.
  { intros i. by apply Z.mod_pos_bound. }
  pose proof (spawnPowerUps_stats st) as Hstats.
  pose proof (spawnPowerUps_board st) as Hboard.
  pose proof (spawnPowerUps_timer st) as Htimer.
  revert Hstats Hboard Htimer.
  unfold spawnPowerUps. rewrite Hp. simpl.
  destruct (decide (belowThreeTenths (tape st (drawn st) `mod` randomUnit)))
    as [Hlt|Hge].
  - intros Hstats Hboard Htimer.
    exists (tape st (S (S (drawn st))) `mod` randomUnit),
      (spawnDelay (tape st (S (S (drawn st))) `mod` randomUnit)).
    split; [apply Hu|]. split; [reflexivity|].
    split; [apply spawnDelay_range, Hu|].
    split; [done|]. split; [done|]. split; [done|].
    right. split; [done|].
    eexists. split; [apply types_lookup|].
    unfold setTimeout. simpl. split; [done|]. split; [done|].
    by rewrite <- app_assoc.
  - intros Hstats Hboard Htimer.
    exists (tape st (S (drawn st)) `mod` randomUnit),
      (spawnDelay (tape st (S (drawn st)) `mod` randomUnit)).
    split; [apply Hu|]. split; [reflexivity|].
    split; [apply spawnDelay_range, Hu|].
    split; [done|]. split; [done|]. split; [done|]. by left.
Qed.

(** The bound of 15000 ms is reached: for the largest number
    [Math.random()] can give, the sum [8000 + Math.random() * 7000]
    rounds up to 15000. *)
Example spawnPowerUps_latest :
  tasks (spawnPowerUps (set_isPlaying true (newGame (fun _ => randomUnit - 1))))
  = [Task 15000 CbSpawn].
Proof. vm_compute. reflexivity. Qed.

(** ** Game over *)

Lemma endGame_emitted (st : Game) :
  emitted (endGame st) = emitted st ++ [PostScore (score st); SfxGameOver].
Proof.
  unfold endGame. cbv zeta. set (st1 := set_isPlaying false st).
  assert (emitted st1 = emitted st ∧ score st1 = score st) as [He Hs] by done.
  clearbody st1.
  destruct (stopTimer_clock st1) as [_ He2].
  destruct (stopTimer_stats st1) as (Hs2 & _).
  set (st2 := _stopTimer st1) in *. clearbody st2.
  unfold emit, clearPowerUps. simpl. rewrite He2, Hs2, He, Hs.
  by rewrite <- app_assoc.
Qed.

Lemma endGame_stats (st : Game) : sameStats st (endGame st).
Proof.
  unfold endGame. cbv zeta.
  assert (sameStats st (clearPowerUps (_stopTimer (set_isPlaying false st))))
    as H by stats_chain.
  revert H. generalize (clearPowerUps (_stopTimer (set_isPlaying false st))).
  intros st2 H. eapply sameStats_trans; [exact H|]. done.
Qed.

Lemma endGame_timeouts (st : Game) : timeouts (endGame st) = timeouts st.
Proof.
  unfold endGame. cbv zeta.
  transitivity (timeouts (_stopTimer (set_isPlaying false st)));
    [|by rewrite stopTimer_timeouts].
  generalize (_stopTimer (set_isPlaying false st)). intros st2. done.
Qed.

(** X12. [endGame], on a session whose countdown is consistent,
    stops the game for good: the session is not playing, the interval
    is cancelled with no run pending, the power-ups are gone, and the
    score is posted once, followed by the game-over sound. Score,
    combo, level, time left, board and pending timeouts are left as
    they were. On the ended session cell clicks, the spawn callback
    and power-up expiries do nothing, and neither the pause button nor
    a power-up can be clicked. *)
Theorem endGame_final (st : Game) :
  timerOk st ->
  isPlaying (endGame st) = false
  ∧ timer (endGame st) = None
  ∧ pendingTicks (endGame st) = []
  ∧ powerUps (endGame st) = []
  ∧ emitted (endGame st) = emitted st ++ [PostScore (score st); SfxGameOver]
  ∧ sameStats st (endGame st)
  ∧ sameBoard st (endGame st)
  ∧ timeouts (endGame st) = timeouts st
  ∧ (forall row col, handleCellClick row col (endGame st) = Ret (endGame st))
  ∧ spawnPowerUps (endGame st) = endGame st
  ∧ (forall el, powerUpExpire el (endGame st) = endGame st)
  ∧ (forall el, perform (ClickPowerUp el) (endGame st) = None)
  ∧ perform ClickPause (endGame st) = None.
Proof.
  intros Hok.
  destruct (endGame_control st Hok) as (Hk & Ht & Hp & Hq & Hu & Hn).
  split; [exact Hp|]. split; [exact Ht|]. split; [exact Hk|].
  split; [exact Hu|]. split; [apply endGame_emitted|].
  split; [apply endGame_stats|]. split; [apply endGame_board|].
  split; [apply endGame_timeouts|].
  generalize dependent (endGame st). intros e _ _ Hp _ Hu _.
  split.
  { intros row col. unfold handleCellClick. by rewrite Hp. }
  split.
  { unfold spawnPowerUps. by rewrite Hp. }
  split.
  { intros el. unfold powerUpExpire. rewrite Hu. by rewrite decide_False by
      (intros Hin; by apply elem_of_nil in Hin). }
  split.
  { intros el. simpl. by rewrite Hu. }
  simpl. by rewrite Hp.
Qed.

Lemma endGame_final_witness :
  isPlaying (endGame startedGame) = false
  ∧ timer (endGame startedGame) = None
  ∧ pendingTicks (endGame startedGame) = []
  ∧ powerUps (endGame startedGame) = []
  ∧ emitted (endGame startedGame)
    = emitted startedGame ++ [PostScore (score startedGame); SfxGameOver]
  ∧ sameStats startedGame (endGame startedGame)
  ∧ sameBoard startedGame (endGame startedGame)
  ∧ timeouts (endGame startedGame) = timeouts startedGame
  ∧ (forall row col,
       handleCellClick row col (endGame startedGame) = Ret (endGame startedGame))
  ∧ spawnPowerUps (endGame startedGame) = endGame startedGame
  ∧ (forall el, powerUpExpire el (endGame startedGame) = endGame startedGame)
  ∧ (forall el, perform (ClickPowerUp el) (endGame startedGame) = None)
  ∧ perform ClickPause (endGame startedGame) = None.
Proof.
  apply (endGame_final startedGame). vm_compute. eauto.
Defined.

(** ** The hover preview *)

(** X13. On a game in progress, hovering a cell of a well-formed
    board previews what a click on it would do. When the group of the
    cell has at least two cells, the preview is that group, and a
    click schedules the destruction of exactly the previewed cells,
    then the combo decay and the settle step. When the cell stands
    alone, the preview is empty and a click only signals the invalid
    selection. The session itself is not changed by hovering, and
    leaving the cell clears the preview. *)
Theorem hover_previews_the_click (row col : Z) (v : View) :
  isPlaying (session v) = true -> isPaused (session v) = false ->
  boardOk (session v) -> inside (gridSize (session v)) (row, col) ->
  exists digit cells v' st',
    grid_at (grid (session v)) row col = Ret digit
    ∧ findConnectedCells (grid (session v)) (gridSize (session v)) row col digit
      = Ret cells
    ∧ handleCellHover row col v = Ret v'
    ∧ session v' = session v
    ∧ previewCells (handleCellLeave v') = []
    ∧ handleCellClick row col (session v) = Ret st'
    ∧ ((2 <= length cells)%nat ->
       previewCells v' = cells
       ∧ tasks st'
         = tasks (session v)
           ++ ((fun x : Cell => Task (now (session v) + 250) (CbDestroy x.1 x.2))
                 <$> previewCells v')
           ++ [Task (now (session v) + 3000) CbComboDecay;
               Task (now (session v) + 500) CbSettle])
    ∧ ((length cells < 2)%nat ->
       previewCells v' = []
       ∧ tasks st' = tasks (session v)
       ∧ score st' = score (session v)
       ∧ emitted st' = emitted (session v) ++ [SfxInvalid]).
Proof.
  intros Hp Hq Hwf Hin. unfold boardOk in Hwf.
  destruct (grid_at_inside _ _ _ _ Hwf Hin) as [digit Hdigit].
  destruct (findConnectedCells_post _ _ row col digit Hwf Hin)
    as (cells & V' & Hcells & Hpost).
  exists digit, cells.
  unfold handleCellHover, handleCellClick. rewrite Hp, Hq. simpl.
  rewrite Hdigit. simpl. rewrite Hcells. simpl.
  destruct (decide (Z.of_nat (length cells) >= 2)) as [Hlen|Hlen].
  - assert (filter (fun x : Cell => in_bounds (gridSize (session v)) x.1 x.2) cells
            = cells) as Hfilter.
    { apply filter_all, Forall_forall. intros [r c] Hx. simpl.
      apply Is_true_true, in_bounds_inside. by apply (vp_cells _ _ _ _ _ _ _ Hpost). }
    case_decide.
    + eexists. eexists. split; [done|]. split; [done|].
      split; [reflexivity|]. split; [done|]. split; [done|].
      split; [reflexivity|]. split; [|lia]. intros _. split; [done|].
      unfold levelUp, setTimeout, calculateScore, setTimeout. simpl.
      rewrite destroyCells_tasks. simpl. rewrite Hfilter.
      by rewrite <- !app_assoc.
    + eexists. eexists. split; [done|]. split; [done|].
      split; [reflexivity|]. split; [done|]. split; [done|].
      split; [reflexivity|]. split; [|lia]. intros _. split; [done|].
      unfold setTimeout, calculateScore, setTimeout. simpl.
      rewrite destroyCells_tasks. simpl. rewrite Hfilter.
      by rewrite <- !app_assoc.
  - eexists. eexists. split; [done|]. split; [done|].
    split; [reflexivity|]. split; [done|]. split; [done|].
    split; [reflexivity|]. split; [lia|]. done.
Qed.

Lemma hover_previews_the_click_witness :
  exists digit cells v' st',
    grid_at (grid (session (MkView startedGame [(7, 7)]))) 0 0 = Ret digit
    ∧ findConnectedCells (grid (session (MkView startedGame [(7, 7)])))
        (gridSize (session (MkView startedGame [(7, 7)]))) 0 0 digit
      = Ret cells
    ∧ handleCellHover 0 0 (MkView startedGame [(7, 7)]) = Ret v'
    ∧ session v' = session (MkView startedGame [(7, 7)])
    ∧ previewCells (handleCellLeave v') = []
    ∧ handleCellClick 0 0 (session (MkView startedGame [(7, 7)])) = Ret st'
    ∧ ((2 <= length cells)%nat ->
       previewCells v' = cells
       ∧ tasks st'
         = tasks (session (MkView startedGame [(7, 7)]))
           ++ ((fun x : Cell =>
                  Task (now (session (MkView startedGame [(7, 7)])) + 250)
                    (CbDestroy x.1 x.2))
                 <$> previewCells v')
           ++ [Task (now (session (MkView startedGame [(7, 7)])) + 3000) CbComboDecay;
               Task (now (session (MkView startedGame [(7, 7)])) + 500) CbSettle])
    ∧ ((length cells < 2)%nat ->
       previewCells v' = []
       ∧ tasks st' = tasks (session (MkView startedGame [(7, 7)]))
       ∧ score st' = score (session (MkView startedGame [(7, 7)]))
       ∧ emitted st'
         = emitted (session (MkView startedGame [(7, 7)])) ++ [SfxInvalid]).
Proof.
  apply (hover_previews_the_click 0 0 (MkView startedGame [(7, 7)])).
  - vm_compute. reflexivity.
  - vm_compute. reflexivity.
  - vm_compute. split; [reflexivity|repeat constructor].
  - vm_compute. repeat split; discriminate.
Defined.

(** ** Gravity settles a board once *)

Lemma column_lookup (g : Grid) (row : list value) (r c : nat) :
  g !! r = Some row -> column g (Z.of_nat c) !! r = Some (default Undefined (row !! c)).
Proof.
  intros Hr. unfold column. rewrite list_lookup_fmap, Hr. simpl.
  unfold row_at. rewrite decide_True by lia. by rewrite Nat2Z.id.
Qed.

(** Two well-formed boards with the same columns are the same board. *)
Lemma grid_ext (size : Z) (g1 g2 : Grid) :
  wf_grid size g1 -> wf_grid size g2 ->
  (forall c, 0 <= c < size -> column g1 c = column g2 c) -> g1 = g2.
Proof.
  intros [Hl1 Hr1] [Hl2 Hr2] Hcol. apply list_eq_same_length with (Z.to_nat size);
    [done..|].
  intros r row1 row2 Hr Hrow1 Hrow2.
  rewrite Forall_forall in Hr1, Hr2.
  assert (length row1 = Z.to_nat size) as Hlen1
    by (by eapply Hr1, list_elem_of_lookup_2).
  assert (length row2 = Z.to_nat size) as Hlen2
    by (by eapply Hr2, list_elem_of_lookup_2).
  apply list_eq_same_length with (Z.to_nat size); [done..|].
  intros c x y Hc Hx Hy.
  assert (column g1 (Z.of_nat c) = column g2 (Z.of_nat c)) as Hcc
    by (apply Hcol; lia).
  pose proof (column_lookup g1 row1 r c Hrow1) as H1.
  pose proof (column_lookup g2 row2 r c Hrow2) as H2.
  rewrite Hcc, H2, Hx, Hy in H1. simpl in H1. congruence.
Qed.

Lemma length_slidDown (l : list value) : length (slidDown l) = length l.
Proof.
  unfold slidDown. rewrite length_app, length_replicate.
  pose proof (length_filter nonEmpty l). lia.
Qed.

Lemma slidDown_idemp (l : list value) : slidDown (slidDown l) = slidDown l.
Proof.
  unfold slidDown at 1. by rewrite filter_slidDown, length_slidDown.
Qed.

Lemma slidDown_full (l : list value) : Forall nonEmpty l -> slidDown l = l.
Proof.
  intros Hl. unfold slidDown. rewrite (filter_all _ l) by done.
  by rewrite Nat.sub_diag.
Qed.

(** X14. Gravity settles a well-formed board in one pass: applying
    [dropCells] to its own result changes nothing, and a board whose
    columns hold no empty slot is returned as it is. *)
Theorem dropCells_idempotent (size : Z) (g g' : Grid) :
  wf_grid size g -> dropCells size g = Ret g' ->
  dropCells size g' = Ret g'
  ∧ ((forall c, 0 <= c < size -> Forall nonEmpty (column g c)) -> g' = g).
Proof.
  intros Hwf Hrun.
  destruct (dropCells_spec _ _ Hwf) as (g1 & Hg1 & Hwf1 & Hcol1).
  rewrite Hrun in Hg1. apply Ret_inj in Hg1. subst g1.
  destruct (dropCells_spec _ _ Hwf1) as (g2 & Hg2 & Hwf2 & Hcol2).
  split.
  - rewrite Hg2. f_equal. apply (grid_ext size); [done..|].
    intros c Hc. by rewrite Hcol2, Hcol1, slidDown_idemp.
  - intros Hfull. apply (grid_ext size); [done..|].
    intros c Hc. rewrite Hcol1 by done. by apply slidDown_full, Hfull.
Qed.

Lemma dropCells_idempotent_witness :
  dropCells 2 [[Null; Null]; [Num 1; Num 4]] = Ret [[Null; Null]; [Num 1; Num 4]]
  ∧ ((forall c, 0 <= c < 2 ->
        Forall nonEmpty (column [[Num 1; Null]; [Null; Num 4]] c)) ->
     [[Null; Null]; [Num 1; Num 4]] = [[Num 1; Null]; [Null; Num 4]]).
Proof.
  apply (dropCells_idempotent 2 [[Num 1; Null]; [Null; Num 4]]).
  - vm_compute. split; [reflexivity|repeat constructor].
  - vm_compute. reflexivity.
Defined.

(** ** The refill draws one digit per empty slot *)

Lemma fillCell_draws (size : Z) (g0 : Grid) (st0 : Game) (cells : list Cell) :
  gridSize st0 = size -> NoDup cells ->
  (forall x, x ∈ cells -> inside size x) ->
  forall (k : nat) (g : Grid),
  wf_grid size g ->
  (forall x, x ∈ cells -> grid_at g x.1 x.2 = grid_at g0 x.1 x.2) ->
  exists g',
    foldl (fun acc (x : Cell) => fillCell x.1 x.2 acc)
      (Ret (set_grid g (set_drawn k st0))) cells
    = Ret (set_grid g'
             (set_drawn (k + length (filter (holds g0 Null) cells)) st0))
    ∧ wf_grid size g'
    ∧ (filter (holds g0 Null) cells = [] -> g' = g).
Proof.
  intros Hsize Hnd Hin. induction cells as [|[r c] cells IH]; intros k g Hwf Hsame.
  { exists g. simpl. by rewrite Nat.add_0_r. }
  apply NoDup_cons in Hnd as [Hx Hnd].
  assert (inside size (r, c)) as Hrc by (apply Hin; by left).
  destruct (grid_at_inside _ _ _ _ Hwf Hrc) as [v Hv].
  assert (grid_at g0 r c = Ret v) as Hv0.
  { rewrite <- Hv. symmetry. apply (Hsame (r, c)). by left. }
  cbn [foldl]. unfold fillCell at 2. simpl. rewrite Hv. simpl.
  rewrite filter_cons.
  destruct (decide (holds g0 Null (r, c))) as [Hh|Hh];
    unfold holds in Hh; simpl in Hh; rewrite Hv0 in Hh; unfold strict_eq.
  - apply Ret_inj in Hh. subst v. rewrite bool_decide_eq_true_2 by done.
    set (d := mathFloor (timesDouble (tape st0 k `mod` randomUnit) 10)).
    destruct (IH Hnd (fun x Hx' => Hin x (list_elem_of_further _ _ _ Hx'))
                (S k) (grid_set g r c (Num d))) as (g' & Hrun & Hwf' & _).
    + by apply grid_set_wf.
    + intros [r' c'] Hx'. simpl.
      rewrite grid_at_grid_set_ne.
      * apply (Hsame (r', c')). by right.
      * intros [= -> ->]. done.
      * destruct (Hin (r', c')) as [[? _] _]; [by right|done].
      * destruct (Hin (r', c')) as [_ [? _]]; [by right|done].
    + exists g'. split; [|split; [done|done]].
      simpl. rewrite <- Nat.add_succ_comm. exact Hrun.
  - rewrite bool_decide_eq_false_2 by congruence.
    destruct (IH Hnd (fun x Hx' => Hin x (list_elem_of_further _ _ _ Hx')) k g Hwf)
      as (g' & Hrun & Hwf' & Hsame').
    + intros x Hx'. apply Hsame. by right.
    + exists g'. done.
Qed.

(** X15. The refill callback, on a well-formed board, reads exactly
    one random number per empty slot and changes nothing of the
    session but the board and the position on the tape. On a board
    without empty slot it leaves the session exactly as it was. *)
Theorem fillEmpty_draws (st : Game) :
  boardOk st ->
  exists g',
    fillEmpty st
    = Ret (set_grid g'
             (set_drawn
                (drawn st
                 + length (filter (holds (grid st) Null) (allCells (gridSize st))))
                st))
    ∧ wf_grid (gridSize st) g'
    ∧ (filter (holds (grid st) Null) (allCells (gridSize st)) = [] ->
       fillEmpty st = Ret st).
Proof.
  intros Hwf. unfold boardOk in Hwf.
  destruct (fillCell_draws (gridSize st) (grid st) st (allCells (gridSize st)))
    with (k := drawn st) (g := grid st) as (g' & Hrun & Hwf' & Hsame);
    try done.
  - apply NoDup_allCells.
  - intros x Hx. by apply elem_of_allCells.
  - assert (set_grid (grid st) (set_drawn (drawn st) st) = st) as Hst
      by (by destruct st).
    rewrite Hst in Hrun.
    assert (fillEmpty st
            = foldl (fun acc (x : Cell) => fillCell x.1 x.2 acc) (Ret st)
                (allCells (gridSize st))) as Heq.
    { unfold fillEmpty. by rewrite foldl_cells. }
    exists g'. rewrite Heq. split; [exact Hrun|]. split; [done|].
    intros Hnone. rewrite Hrun, Hnone, (Hsame Hnone). simpl.
    by rewrite Nat.add_0_r, Hst.
Qed.

Lemma fillEmpty_draws_witness :
  exists g',
    fillEmpty (smallGame [[Null; Num 2]; [Num 3; Null]])
    = Ret (set_grid g'
             (set_drawn
                (drawn (smallGame [[Null; Num 2]; [Num 3; Null]])
                 + length (filter
                             (holds (grid (smallGame [[Null; Num 2]; [Num 3; Null]]))
                                Null)
                             (allCells
                                (gridSize (smallGame [[Null; Num 2]; [Num 3; Null]])))))
                (smallGame [[Null; Num 2]; [Num 3; Null]])))
    ∧ wf_grid (gridSize (smallGame [[Null; Num 2]; [Num 3; Null]])) g'
    ∧ (filter (holds (grid (smallGame [[Null; Num 2]; [Num 3; Null]])) Null)
         (allCells (gridSize (smallGame [[Null; Num 2]; [Num 3; Null]]))) = [] ->
       fillEmpty (smallGame [[Null; Num 2]; [Num 3; Null]])
       = Ret (smallGame [[Null; Num 2]; [Num 3; Null]])).
Proof.
  apply (fillEmpty_draws (smallGame [[Null; Num 2]; [Num 3; Null]])).
  vm_compute. split; [reflexivity|repeat constructor].
Defined.

(** ** A group is the same from each of its cells *)

Lemma findConnectedCells_regions (g : Grid) (size r c : Z) (digit : value) :
  wf_grid size g -> inside size (r, c) -> grid_at g r c = Ret digit ->
  exists out,
    findConnectedCells g size r c digit = Ret out
    ∧ NoDup out
    ∧ head out = Some (r, c)
    ∧ (forall x, x ∈ out <-> region g size digit (r, c) x)
    ∧ (forall x, x ∈ out -> inside size x ∧ holds g digit x).
Proof.
  intros Hwf Hin Hdigit.
  destruct (findConnectedCells_post g size r c digit Hwf Hin)
    as (out & V' & Hrun & Hpost).
  pose proof (visit_post_maximal _ _ _ _ _ _ Hpost) as Hmax.
  destruct (visit_post_start _ _ _ _ _ _ Hpost Hdigit) as [Hhd Hstart].
  destruct Hpost as [_ Hnd _ Hcells _ _ _].
  exists out. do 3 (split; [done|]). split.
  - intros x. split.
    + intros Hx. by apply Hcells.
    + unfold region. intros Hr.
      eapply (rtc_ind_r (fun z => z ∈ out)); [exact Hstart| |exact Hr].
      intros y z _ Hl Hy. by eapply Hmax.
  - intros x Hx. destruct (Hcells x Hx) as (? & ? & _). done.
Qed.

Lemma adjacent_sym (x y : Cell) : adjacent x y -> adjacent y x.
Proof. unfold adjacent. lia. Qed.

(** Same-digit steps can be walked back. *)
Lemma region_back (g : Grid) (size : Z) (digit : value) (x y : Cell) :
  inside size x -> holds g digit x ->
  rtc (link g size digit) x y -> rtc (link g size digit) y x.
Proof.
  intros Hin Hh Hr. induction Hr as [x|x m y Hl Hr IH]; [done|].
  destruct Hl as (Hadj & Him & Hhm).
  eapply rtc_r; [by apply IH|].
  split; [by apply adjacent_sym|done].
Qed.

Lemma region_member (g : Grid) (size : Z) (digit : value) (x y z : Cell) :
  inside size x -> holds g digit x -> region g size digit x y ->
  region g size digit y z <-> region g size digit x z.
Proof.
  unfold region. intros Hin Hh Hxy. split; intros H.
  - by etrans.
  - etrans; [|exact H]. by eapply region_back.
Qed.

(** The outcome of a click in terms of the group found. *)
Lemma handleCellClick_group (row col : Z) (digit : value) (cells : list Cell)
    (st : Game) :
  isPlaying st = true -> isPaused st = false ->
  grid_at (grid st) row col = Ret digit ->
  findConnectedCells (grid st) (gridSize st) row col digit = Ret cells ->
  (forall x, x ∈ cells -> inside (gridSize st) x) ->
  exists s,
    handleCellClick row col st = Ret s
    ∧ score s
      = (if decide (Z.of_nat (length cells) >= 2)
         then score st + (Z.of_nat (length cells) * 10
                          + Z.max 0 ((Z.of_nat (length cells) - 2) * 15)
                          + combo st * 5 + level st * 2)
         else score st)
    ∧ combo s = (if decide (Z.of_nat (length cells) >= 2)
                 then combo st + 1 else combo st)
    ∧ level s
      = (if decide (Z.of_nat (length cells) >= 2
                    ∧ score st + (Z.of_nat (length cells) * 10
                                  + Z.max 0 ((Z.of_nat (length cells) - 2) * 15)
                                  + combo st * 5 + level st * 2) > level st * 600
                    ∧ level st <= 15)
         then level st + 1 else level st)
    ∧ tasks s
      = (if decide (Z.of_nat (length cells) >= 2)
         then tasks st
              ++ ((fun x : Cell => Task (now st + 250) (CbDestroy x.1 x.2)) <$> cells)
              ++ [Task (now st + 3000) CbComboDecay; Task (now st + 500) CbSettle]
         else tasks st).
Proof.
  intros Hp Hq Hdigit Hcells Hin.
  unfold handleCellClick. rewrite Hp, Hq, Hdigit. simpl. rewrite Hcells. simpl.
  assert (filter (fun x : Cell => in_bounds (gridSize st) x.1 x.2) cells = cells)
    as Hfilter.
  { apply filter_all, Forall_forall. intros [r c] Hx. simpl.
    apply Is_true_true, in_bounds_inside. by apply Hin. }
  destruct (decide (Z.of_nat (length cells) >= 2)) as [Hlen|Hlen].
  - rewrite destroyCells_tasks. simpl. rewrite Hfilter.
    case_decide as Hup.
    + eexists. split; [reflexivity|]. simpl.
      rewrite decide_True by tauto. by rewrite <- !app_assoc.
    + eexists. split; [reflexivity|]. simpl.
      rewrite decide_False by tauto. by rewrite <- !app_assoc.
  - eexists. split; [reflexivity|]. simpl.
    by rewrite decide_False by tauto.
Qed.

(** X16. A group does not depend on which of its cells is clicked:
    from any cell of the group found from (row, col), the traversal
    returns the same cells, in another order and starting with the
    cell clicked. A click on either cell therefore gives the same
    score, combo and level, and schedules the same callbacks. *)
Theorem group_same_from_any_member (row col row' col' : Z) (digit : value)
    (cells : list Cell) (st : Game) :
  isPlaying st = true -> isPaused st = false -> boardOk st ->
  inside (gridSize st) (row, col) ->
  grid_at (grid st) row col = Ret digit ->
  findConnectedCells (grid st) (gridSize st) row col digit = Ret cells ->
  (row', col') ∈ cells ->
  exists cells' s s',
    grid_at (grid st) row' col' = Ret digit
    ∧ findConnectedCells (grid st) (gridSize st) row' col' digit = Ret cells'
    ∧ cells' ≡ₚ cells
    ∧ head cells' = Some (row', col')
    ∧ handleCellClick row col st = Ret s
    ∧ handleCellClick row' col' st = Ret s'
    ∧ score s' = score s
    ∧ combo s' = combo s
    ∧ level s' = level s
    ∧ tasks s' ≡ₚ tasks s.
Proof.
  intros Hp Hq Hwf Hin Hdigit Hcells Hmem. unfold boardOk in Hwf.
  destruct (findConnectedCells_regions _ _ _ _ _ Hwf Hin Hdigit)
    as (out & Hout & Hnd & _ & Hreg & Hall).
  rewrite Hcells in Hout. apply Ret_inj in Hout. subst out.
  destruct (Hall _ Hmem) as [Hin' Hdigit']. unfold holds in Hdigit'. simpl in Hdigit'.
  destruct (findConnectedCells_regions _ _ _ _ _ Hwf Hin' Hdigit')
    as (cells' & Hcells' & Hnd' & Hhead' & Hreg' & Hall').
  assert (cells' ≡ₚ cells) as Hperm.
  { apply NoDup_Permutation; [done..|]. intros x.
    rewrite Hreg, Hreg'. apply (region_member _ _ _ (row, col)); [done..|].
    by apply Hreg. }
  assert (length cells' = length cells) as Hlen by (by rewrite Hperm).
  destruct (handleCellClick_group row col digit cells st)
    as (s & Hs & Hscore & Hcombo & Hlevel & Htasks); try done.
  { intros x Hx. by apply Hall. }
  destruct (handleCellClick_group row' col' digit cells' st)
    as (s' & Hs' & Hscore' & Hcombo' & Hlevel' & Htasks'); try done.
  { intros x Hx. by apply Hall'. }
  exists cells', s, s'. do 6 (split; [done|]).
  rewrite Hscore, Hscore', Hcombo, Hcombo', Hlevel, Hlevel', Htasks, Htasks', Hlen.
  do 3 (split; [done|]).
  destruct (decide (Z.of_nat (length cells) >= 2)); [|reflexivity].
  apply Permutation_app; [reflexivity|]. apply Permutation_app; [|reflexivity].
  by apply fmap_Permutation.
Qed.

Lemma group_same_from_any_member_witness :
  exists cells' s s',
    grid_at (grid (smallGame [[Num 1; Num 1]; [Num 2; Num 1]])) 1 1 = Ret (Num 1)
    ∧ findConnectedCells (grid (smallGame [[Num 1; Num 1]; [Num 2; Num 1]]))
        (gridSize (smallGame [[Num 1; Num 1]; [Num 2; Num 1]])) 1 1 (Num 1)
      = Ret cells'
    ∧ cells' ≡ₚ [(0, 0); (0, 1); (1, 1)]
    ∧ head cells' = Some (1, 1)
    ∧ handleCellClick 0 0 (smallGame [[Num 1; Num 1]; [Num 2; Num 1]]) = Ret s
    ∧ handleCellClick 1 1 (smallGame [[Num 1; Num 1]; [Num 2; Num 1]]) = Ret s'
    ∧ score s' = score s
    ∧ combo s' = combo s
    ∧ level s' = level s
    ∧ tasks s' ≡ₚ tasks s.
Proof.
  apply (group_same_from_any_member 0 0 1 1 (Num 1) [(0, 0); (0, 1); (1, 1)]
           (smallGame [[Num 1; Num 1]; [Num 2; Num 1]])).
  - reflexivity.
  - reflexivity.
  - vm_compute. split; [reflexivity|repeat constructor].
  - vm_compute. repeat split; discriminate.
  - reflexivity.
  - vm_compute. reflexivity.
  - vm_compute. set_solver.
Defined.

(** ** The destroy callbacks of a group *)

Lemma set_grid_same (st : Game) : set_grid (grid st) st = st.
Proof. by destruct st. Qed.

(** X17. When the destroy callbacks scheduled for the cells of a
    group have run, in any order of scheduling and with nothing else
    in between, exactly these cells of the board are empty; every
    other cell holds what it held, the board keeps its shape, and
    nothing but the board has changed. *)
Theorem destroy_callbacks_empty_the_cells (cells : list Cell) (st : Game) :
  boardOk st -> (forall x, x ∈ cells -> inside (gridSize st) x) ->
  exists st',
    foldl (fun acc (x : Cell) => s ← acc; runCallback (CbDestroy x.1 x.2) s)
      (Ret st) cells = Ret st'
    ∧ st' = set_grid (grid st') st
    ∧ boardOk st'
    ∧ forall r c, inside (gridSize st) (r, c) ->
        grid_at (grid st') r c
        = if decide ((r, c) ∈ cells) then Ret Null else grid_at (grid st) r c.
Proof.
  intros Hwf Hin. induction cells as [|x cells IH] using rev_ind.
  { exists st. split; [done|]. split; [by rewrite set_grid_same|]. split; [done|].
    intros r c _. rewrite decide_False; [done|]. apply not_elem_of_nil. }
  destruct IH as (st1 & Hrun & Hst1 & Hwf1 & Hcells).
  { intros y Hy. apply Hin, elem_of_app. by left. }
  rewrite foldl_app. cbn [foldl]. rewrite Hrun. simpl.
  eexists. split; [reflexivity|]. simpl.
  split; [by rewrite Hst1 at 2|]. split; [by apply grid_set_ok|].
  assert (gridSize st1 = gridSize st) as Hsize by (by rewrite Hst1).
  assert (inside (gridSize st) x) as Hx.
  { apply Hin, elem_of_app. right. by left. }
  intros r c Hrc. destruct x as [r0 c0]. simpl.
  destruct (decide ((r0, c0) = (r, c))) as [[= -> ->]|Hne].
  - rewrite (grid_at_grid_set (gridSize st)); [|by rewrite <- Hsize|done].
    rewrite decide_True; [done|]. apply elem_of_app. right. by left.
  - rewrite grid_at_grid_set_ne; [|done|apply Hrc..].
    rewrite Hcells by done.
    destruct (decide ((r, c) ∈ cells)) as [Hmem|Hmem].
    + rewrite decide_True; [done|]. apply elem_of_app. by left.
    + rewrite decide_False; [done|].
      intros [?|?%list_elem_of_singleton]%elem_of_app; congruence.
Qed.

Lemma destroy_callbacks_empty_the_cells_witness :
  exists st',
    foldl (fun acc (x : Cell) => s ← acc; runCallback (CbDestroy x.1 x.2) s)
      (Ret (smallGame [[Num 1; Num 1]; [Num 2; Num 1]])) [(0, 0); (0, 1); (1, 1)]
    = Ret st'
    ∧ st' = set_grid (grid st') (smallGame [[Num 1; Num 1]; [Num 2; Num 1]])
    ∧ boardOk st'
    ∧ forall r c,
        inside (gridSize (smallGame [[Num 1; Num 1]; [Num 2; Num 1]])) (r, c) ->
        grid_at (grid st') r c
        = if decide ((r, c) ∈ [(0, 0); (0, 1); (1, 1)]) then Ret Null
          else grid_at (grid (smallGame [[Num 1; Num 1]; [Num 2; Num 1]])) r c.
Proof.
  apply (destroy_callbacks_empty_the_cells [(0, 0); (0, 1); (1, 1)]
           (smallGame [[Num 1; Num 1]; [Num 2; Num 1]])).
  - vm_compute. split; [reflexivity|repeat constructor].
  - intros x Hx. vm_compute.
    repeat (apply elem_of_cons in Hx as [->|Hx]); [..|by apply elem_of_nil in Hx];
      repeat split; discriminate.
Defined.

(** ** The rewarded video *)

Lemma showRewardedVideo_fields (st : Game) :
  timerOk st ->
  pendingTicks (showRewardedVideo st) = []
  ∧ timer (showRewardedVideo st) = None
  ∧ isPlaying (showRewardedVideo st) = isPlaying st
  ∧ isPaused (showRewardedVideo st) = true
  ∧ powerUps (showRewardedVideo st) = powerUps st
  ∧ nextId (showRewardedVideo st) = nextId st
  ∧ sameStats st (showRewardedVideo st)
  ∧ grid (showRewardedVideo st) = grid st.
Proof.
  intros Hok. unfold showRewardedVideo. set (st1 := set_isPaused true st).
  assert (timerOk st1) as Hok1 by (by apply (timerOk_flags st)).
  assert (isPlaying st1 = isPlaying st ∧ isPaused st1 = true
          ∧ powerUps st1 = powerUps st ∧ nextId st1 = nextId st
          ∧ sameStats st st1 ∧ grid st1 = grid st)
    as (Hp1 & Hq1 & Hu1 & Hn1 & Hs1 & Hg1) by done.
  clearbody st1.
  destruct (stopTimer_ticks st1 Hok1) as (Hk & Ht & Hp & Hq & Hu & Hn & _).
  pose proof (stopTimer_stats st1) as Hs.
  destruct (stopTimer_board st1) as [Hg _].
  split; [exact Hk|]. split; [exact Ht|]. split; [by rewrite Hp|].
  split; [by rewrite Hq|]. split; [by rewrite Hu|]. split; [by rewrite Hn|].
  split; [by eapply sameStats_trans|]. by rewrite Hg.
Qed.

(** ** The level, event by event *)

Lemma timerTick_level (st : Game) : level (timerTick st) = level st.
Proof.
  destruct (isPaused st) eqn:Hq; unfold timerTick; rewrite Hq; [done|].
  cbv zeta. set (st0 := set_timeLeft _ st).
  assert (level st0 = level st) as H0 by done. clearbody st0.
  set (st1 := if decide (timeLeft st0 <= 10 ∧ timeLeft st0 >= 0) then _ else _).
  assert (level st1 = level st0) as H1.
  { unfold st1. repeat case_decide; done. }
  clearbody st1. case_decide; [|congruence].
  destruct (endGame_stats st1) as (_ & _ & Hl & _). congruence.
Qed.

Lemma resetGame_level (st : Game) : level (resetGame st) = 1.
Proof.
  unfold resetGame. cbv zeta. set (st1 := clearPowerUps _).
  assert (level st1 = 1) as H1 by done. clearbody st1.
  assert (sameStats st1 (initializeGrid (_stopTimer st1)))
    as (_ & _ & Hl & _) by stats_chain.
  congruence.
Qed.

Lemma giveReward_level (st : Game) : level (giveReward st) = level st.
Proof.
  unfold giveReward. cbv zeta.
  destruct (startTimer_stats (set_isPaused false (set_timeLeft (timeLeft st + 20) st)))
    as (_ & _ & Hl & _).
  by rewrite Hl.
Qed.

Lemma runCallback_level (c : callback) (st st' : Game) :
  runCallback c st = Ret st' -> level st' = level st.
Proof.
  destruct c; simpl.
  - intros <-%Ret_inj. apply timerTick_level.
  - by intros <-%Ret_inj.
  - by intros <-%Ret_inj.
  - intros H. by destruct (settle_stats _ _ H) as (_ & _ & Hl & _).
  - intros H. by destruct (fillEmpty_stats _ _ H) as (_ & _ & Hl & _).
  - intros <-%Ret_inj. unfold comboDecay. by case_decide.
  - by intros <-%Ret_inj.
  - intros <-%Ret_inj. by destruct (powerUpExpire_stats id st) as (_ & _ & Hl & _).
  - intros <-%Ret_inj. by destruct (spawnPowerUps_stats st) as (_ & _ & Hl & _).
Qed.

Lemma fire_level (st st' : Game) : fire st = Some st' -> level st' = level st.
Proof.
  intros Hfire.
  destruct (fire_split _ _ Hfire) as (t & l1 & l2 & st1 & st2 & _ & Hst1 & Hcb & Hcase).
  assert (level st1 = level st) as H1 by (by subst st1). clear Hst1.
  apply runCallback_level in Hcb.
  destruct Hcase as [[_ ->] | (id & _ & _ & [[_ ->] | [_ ->]])]; simpl; congruence.
Qed.

Lemma level_per_event_all (e : event) (st st' : Game) :
  step e st = Some st' ->
  match e with
  | Fire | After _ ClickPause | After _ ClickShuffle
  | After _ WatchAd | After _ AdReward => level st' = level st
  | After _ ClickReset => level st' = 1
  | After _ ClickStart => level st' = if _startCooldown st then level st else 1
  | After _ (ClickCell _ _) | After _ (ClickPowerUp _) =>
      level st <= level st' <= level st + 1
  end.
Proof.
  destruct e as [|delay a]; simpl; [apply fire_level|].
  case_decide; [|done].
  set (st0 := set_now (now st + delay) st).
  assert (level st0 = level st ∧ _startCooldown st0 = _startCooldown st)
    as [H0 H0'] by done.
  rewrite <- H0, <- H0'. clearbody st0.
  destruct level_step_at_most_one as [Hclick Hpower].
  destruct a; simpl.
  - destruct (in_bounds _ _ _); [|done].
    destruct (handleCellClick row col st0) as [s| |] eqn:E; [|done..].
    intros [= <-]. by eapply Hclick.
  - intros [= <-]. unfold handleStartButton.
    destruct (_startCooldown st0); [done|]. cbv zeta.
    destruct (negb _ || _).
    + by destruct (startGame_fields (setTimeout CbStartCooldown 250
                                       (set_startCooldown true st0)))
        as (_ & _ & Hl & _).
    + by destruct (startGame_fields
                     (resetGame (setTimeout CbStartCooldown 250
                                   (set_startCooldown true st0))))
        as (_ & _ & Hl & _).
  - destruct (isPlaying st0); [|done]. intros [= <-].
    by destruct (pauseGame_stats st0) as (_ & _ & Hl & _).
  - intros [= <-]. apply resetGame_level.
  - intros [= <-]. by destruct (initializeGrid_stats st0) as (_ & _ & Hl & _).
  - destruct (list_find _ _) as [[i p]|]; [|done]. simpl.
    destruct (activatePowerUp p.2 el st0) as [s| |] eqn:E; [|done..].
    intros [= <-]. by eapply Hpower.
  - intros [= <-]. unfold showRewardedVideo.
    by destruct (stopTimer_stats (set_isPaused true st0)) as (_ & _ & Hl & _).
  - intros [= <-]. apply giveReward_level.
Qed.


(** X19. Event by event, the level moves as follows. No timer
    callback changes it, nor do pause, shuffle or the rewarded video.
    A cell click or a power-up click raises it by at most one and
    never lowers it. Reset sets it to 1. Start sets it to 1 when the
    cooldown flag is clear, and leaves it as it is when the flag is
    set and the click ignored. *)
Theorem level_per_event (e : event) (st st' : Game) :
  step e st = Some st' ->
  match e with
  | Fire | After _ ClickPause | After _ ClickShuffle
  | After _ WatchAd | After _ AdReward => level st' = level st
  | After _ ClickReset => level st' = 1
  | After _ ClickStart => level st' = if _startCooldown st then level st else 1
  | After _ (ClickCell _ _) | After _ (ClickPowerUp _) =>
      level st <= level st' <= level st + 1
  end.
Proof. apply level_per_event_all. Qed.

(** An instance: Start is clicked on a running game whose cooldown
    has elapsed. *)
Lemma level_per_event_witness :
  level (default startedGame (step (After 100 ClickStart) startedGame))
  = if _startCooldown startedGame then level startedGame else 1.
Proof.
  apply (level_per_event (After 100 ClickStart) startedGame
           (default startedGame (step (After 100 ClickStart) startedGame))).
  vm_compute. reflexivity.
Defined.

(** The two cases of Start in a run: the click that starts the game
    sets the flag, a second click 100 ms later is ignored, and one
    after the 250 ms of the cooldown starts the game again. *)
Example level_after_start :
  _startCooldown (newGame zeroTape) = false
  ∧ (level <$> run [After 1000 ClickStart] (newGame zeroTape)) = Some 1
  ∧ (_startCooldown <$> run [After 1000 ClickStart] (newGame zeroTape))
    = Some true
  ∧ run [After 1000 ClickStart; After 100 ClickStart] (newGame zeroTape)
    = set_now 1100 <$> run [After 1000 ClickStart] (newGame zeroTape).
Proof. vm_compute. done. Qed.

(** ** The combo and its pending callbacks *)

Lemma comboOf_app (l1 l2 : list task) : comboOf (l1 ++ l2) = comboOf l1 + comboOf l2.
Proof. unfold comboOf. rewrite !filter_app, !length_app. lia. Qed.

Lemma comboOf_nonneg (l : list task) : 0 <= comboOf l.
Proof. unfold comboOf. lia. Qed.

Lemma comboOf_single (t : task) :
  comboOf [t]
  = match cb t with
    | CbComboDecay => 1
    | CbComboBoostEnd => 3
    | _ => 0
    end.
Proof.
  unfold comboOf. rewrite !filter_cons, !filter_nil.
  destruct (cb t); repeat case_decide; try done.
Qed.

Lemma comboOf_no_ticks (id : nat) (l : list task) :
  comboOf (filter (fun t => cb t ≠ CbTick id) l) = comboOf l.
Proof.
  induction l as [|t l IH]; [done|].
  rewrite filter_cons. change (t :: l) with ([t] ++ l).
  case_decide as Hc.
  - change (t :: filter (fun t => cb t ≠ CbTick id) l)
      with ([t] ++ filter (fun t => cb t ≠ CbTick id) l).
    by rewrite !comboOf_app, IH.
  - rewrite comboOf_app, IH, comboOf_single.
    destruct (cb t) eqn:E; try done; exfalso; apply Hc; congruence.
Qed.

Lemma samePending_refl (st : Game) : samePending st st.
Proof. done. Qed.

Lemma samePending_trans (st1 st2 st3 : Game) :
  samePending st1 st2 -> samePending st2 st3 -> samePending st1 st3.
Proof. unfold samePending. congruence. Qed.

Lemma set_grid_pending (v : Grid) (st : Game) : samePending st (set_grid v st).
Proof. done. Qed.

Lemma set_score_pending (v : Z) (st : Game) : samePending st (set_score v st).
Proof. done. Qed.

Lemma set_timeLeft_pending (v : Z) (st : Game) : samePending st (set_timeLeft v st).
Proof. done. Qed.

Lemma set_combo_pending (v : Z) (st : Game) : samePending st (set_combo v st).
Proof. done. Qed.

Lemma set_level_pending (v : Z) (st : Game) : samePending st (set_level v st).
Proof. done. Qed.

Lemma set_isPlaying_pending (v : bool) (st : Game) : samePending st (set_isPlaying v st).
Proof. done. Qed.

Lemma set_isPaused_pending (v : bool) (st : Game) : samePending st (set_isPaused v st).
Proof. done. Qed.

Lemma set_timer_pending (v : option nat) (st : Game) : samePending st (set_timer v st).
Proof. done. Qed.

Lemma set_powerUps_pending (v : list (nat * powerType)) (st : Game) : samePending st (set_powerUps v st).
Proof. done. Qed.

Lemma set_startCooldown_pending (v : bool) (st : Game) : samePending st (set_startCooldown v st).
Proof. done. Qed.

Lemma set_lastTickPlayed_pending (v : option Z) (st : Game) : samePending st (set_lastTickPlayed v st).
Proof. done. Qed.

Lemma set_now_pending (v : Z) (st : Game) : samePending st (set_now v st).
Proof. done. Qed.

Lemma set_nextId_pending (v : nat) (st : Game) : samePending st (set_nextId v st).
Proof. done. Qed.

Lemma set_drawn_pending (v : nat) (st : Game) : samePending st (set_drawn v st).
Proof. done. Qed.

Lemma set_emitted_pending (v : list signal) (st : Game) : samePending st (set_emitted v st).
Proof. done. Qed.

Lemma tasks_app_pending (l : list task) (st : Game) :
  comboOf l = 0 -> samePending st (set_tasks (tasks st ++ l) st).
Proof.
  intros Hl. unfold samePending, comboPending. simpl. rewrite comboOf_app. lia.
Qed.

Lemma emit_pending (sg : signal) (st : Game) : samePending st (emit sg st).
Proof. done. Qed.

Lemma clearPowerUps_pending (st : Game) : samePending st (clearPowerUps st).
Proof. done. Qed.

Lemma levelUp_pending (st : Game) : samePending st (levelUp st).
Proof. done. Qed.

Lemma destroyCells_pending (cells : list Cell) (st : Game) :
  samePending st (destroyCells cells st).
Proof.
  rewrite destroyCells_tasks. apply tasks_app_pending.
  induction (filter _ cells) as [|x l IH]; [done|].
  rewrite fmap_cons. change (?t :: ?l') with ([t] ++ l').
  by rewrite comboOf_app, IH, comboOf_single.
Qed.

Lemma stopTimer_pending (st : Game) : samePending st (_stopTimer st).
Proof.
  unfold _stopTimer, samePending, comboPending.
  destruct (timer st) as [id|]; [|done]. simpl. apply comboOf_no_ticks.
Qed.

Lemma startTimer_pending (st : Game) : samePending st (_startTimer st).
Proof.
  unfold _startTimer. cbv zeta.
  eapply samePending_trans; [apply stopTimer_pending|].
  generalize (_stopTimer st). intros st1.
  unfold samePending, comboPending. simpl. rewrite comboOf_app, comboOf_single.
  simpl. lia.
Qed.

Lemma initializeGrid_pending (st : Game) : samePending st (initializeGrid st).
Proof. destruct (initializeGrid_spec st) as (g & k & -> & _). done. Qed.

Lemma setTimeout_settle_pending (st : Game) : samePending st (setTimeout CbSettle 500 st).
Proof. by apply tasks_app_pending. Qed.

Lemma spawnPowerUps_pending (st : Game) : samePending st (spawnPowerUps st).
Proof.
  unfold spawnPowerUps. destruct (isPlaying st); simpl; [|done].
  case_decide; unfold samePending, comboPending, setTimeout; simpl;
    rewrite !comboOf_app, !comboOf_single; simpl; lia.
Qed.

Lemma powerUpExpire_pending (el : nat) (st : Game) :
  samePending st (powerUpExpire el st).
Proof. unfold powerUpExpire. by case_decide. Qed.

Create HintDb pending discriminated.
#[local] Hint Constants Opaque : pending.

#[local] Hint Resolve emit_pending clearPowerUps_pending levelUp_pending
  destroyCells_pending stopTimer_pending startTimer_pending
  initializeGrid_pending setTimeout_settle_pending spawnPowerUps_pending
  powerUpExpire_pending
  set_grid_pending set_score_pending set_timeLeft_pending set_combo_pending
  set_level_pending set_isPlaying_pending set_isPaused_pending set_timer_pending
  set_powerUps_pending set_startCooldown_pending set_lastTickPlayed_pending set_now_pending
  set_nextId_pending set_drawn_pending set_emitted_pending : pending.

Ltac pending_chain :=
  repeat first
    [ apply samePending_refl
    | match goal with
      | |- samePending _ (?f ?x) =>
          apply (samePending_trans _ x); [|solve [auto 1 with pending]]
      end ].

Lemma setTimeout_cooldown_pending (st : Game) :
  samePending st (setTimeout CbStartCooldown 250 st).
Proof. by apply tasks_app_pending. Qed.

Lemma setTimeout_fill_pending (st : Game) : samePending st (setTimeout CbFill 800 st).
Proof. by apply tasks_app_pending. Qed.

#[local] Hint Resolve setTimeout_cooldown_pending setTimeout_fill_pending : pending.

Lemma calculateScore_combo (n : Z) (st : Game) :
  combo (calculateScore n st) = combo st + 1
  ∧ comboPending (calculateScore n st) = comboPending st + 1.
Proof.
  split; [done|]. unfold calculateScore, comboPending, setTimeout. simpl.
  by rewrite comboOf_app, comboOf_single.
Qed.

Lemma pickCells_same (n : nat) (cells : list Cell) (st : Game) :
  combo (pickCells n cells st).2 = combo st
  ∧ samePending st (pickCells n cells st).2.
Proof. by rewrite pickCells_state. Qed.

Lemma explodeRandomCells_combo (st : Game) :
  combo (explodeRandomCells st) = combo st
  ∧ samePending st (explodeRandomCells st).
Proof.
  unfold explodeRandomCells.
  destruct (pickCells_same 8 [] st) as [Hc Hp].
  destruct (pickCells 8 [] st) as [cells st1]. simpl in Hc, Hp. cbv zeta.
  split.
  - rewrite <- Hc. destruct (destroyCells_stats cells st1) as (_ & Hc1 & _).
    rewrite <- Hc1. by case_decide.
  - eapply samePending_trans; [exact Hp|]. case_decide; pending_chain.
Qed.

Lemma clearRandomDigit_combo (st st' : Game) :
  clearRandomDigit st = Ret st' ->
  combo st' = combo st ∧ samePending st st'.
Proof.
  unfold clearRandomDigit. rewrite (surjective_pairing (floorRandom 10 st)).
  rewrite floorRandom_state. set (st1 := set_drawn _ st).
  assert (combo st1 = combo st ∧ samePending st st1) as [Hc Hp] by done.
  clearbody st1.
  destruct (cellsHolding _ _ _) as [cells| |]; simpl; [|done..].
  case_decide; intros <-%Ret_inj; [|done]. cbv zeta. split.
  - rewrite <- Hc. destruct (destroyCells_stats cells st1) as (_ & Hc1 & _).
    rewrite <- Hc1. by case_decide.
  - eapply samePending_trans; [exact Hp|]. case_decide; pending_chain.
Qed.

Lemma handleCellClick_combo (row col : Z) (st st' : Game) :
  handleCellClick row col st = Ret st' ->
  combo st' - comboPending st' = combo st - comboPending st.
Proof.
  unfold handleCellClick.
  destruct (negb (isPlaying st) || isPaused st).
  { by intros <-%Ret_inj. }
  destruct (grid_at _ _ _) as [digit| |]; simpl; [|done..].
  destruct (findConnectedCells _ _ _ _ _) as [cells| |]; simpl; [|done..].
  case_decide; [|by intros <-%Ret_inj].
  cbv zeta.
  destruct (destroyCells_stats cells st) as (_ & Hc1 & _).
  pose proof (destroyCells_pending cells st) as Hp1.
  set (st1 := destroyCells cells st) in *. clearbody st1.
  destruct (calculateScore_combo (Z.of_nat (length cells)) st1) as [Hc2 Hp2].
  set (st2 := calculateScore _ st1) in *. clearbody st2.
  assert (combo (setTimeout CbSettle 500 st2) = combo st2
          ∧ comboPending (setTimeout CbSettle 500 st2) = comboPending st2)
    as [Hc3 Hp3] by (split; [done|apply setTimeout_settle_pending]).
  set (st3 := setTimeout CbSettle 500 st2) in *. clearbody st3.
  unfold samePending in Hp1.
  case_decide; intros <-%Ret_inj; simpl;
    change (comboPending (levelUp st3)) with (comboPending st3); lia.
Qed.

Lemma activatePowerUp_combo (type : powerType) (el : nat) (st st' : Game) :
  activatePowerUp type el st = Ret st' ->
  combo st' - comboPending st' = combo st - comboPending st.
Proof.
  unfold activatePowerUp. cbv zeta. set (st0 := set_powerUps _ st).
  assert (combo st0 = combo st ∧ comboPending st0 = comboPending st) as [Hc Hp]
    by done.
  rewrite <- Hc, <- Hp. clearbody st0. clear Hc Hp.
  destruct type.
  - by intros <-%Ret_inj.
  - intros <-%Ret_inj. destruct (explodeRandomCells_combo st0) as [-> ->]. done.
  - case_decide; by intros <-%Ret_inj.
  - intros <-%Ret_inj. unfold comboPending, setTimeout. simpl.
    rewrite comboOf_app, comboOf_single. simpl. lia.
  - intros H. destruct (clearRandomDigit_combo _ _ H) as [-> ->]. done.
Qed.

Lemma endGame_combo (st : Game) :
  combo (endGame st) = combo st ∧ samePending st (endGame st).
Proof.
  split; [by destruct (endGame_stats st) as (_ & Hc & _)|].
  unfold endGame. cbv zeta. pending_chain.
Qed.

Lemma timerTick_combo (st : Game) :
  combo (timerTick st) = combo st ∧ samePending st (timerTick st).
Proof.
  destruct (isPaused st) eqn:Hq; unfold timerTick; rewrite Hq; [done|].
  cbv zeta. set (st0 := set_timeLeft _ st).
  assert (combo st0 = combo st ∧ samePending st st0) as [H0 H0'] by done.
  clearbody st0.
  set (st1 := if decide (timeLeft st0 <= 10 ∧ timeLeft st0 >= 0) then _ else _).
  assert (combo st1 = combo st0 ∧ samePending st0 st1) as [H1 H1'].
  { unfold st1. repeat case_decide; done. }
  clearbody st1. unfold samePending in *.
  case_decide; [|split; congruence].
  destruct (endGame_combo st1) as [Hc Hp]. unfold samePending in Hp.
  split; congruence.
Qed.

(** A callback other than the two combo callbacks keeps the combo and
    the pending combo callbacks. *)
Lemma runCallback_combo (c : callback) (st st' : Game) :
  c ≠ CbComboDecay -> c ≠ CbComboBoostEnd ->
  runCallback c st = Ret st' ->
  combo st' = combo st ∧ comboPending st' = comboPending st.
Proof.
  intros Hd Hb. destruct c; simpl; try done.
  - intros <-%Ret_inj. apply timerTick_combo.
  - by intros <-%Ret_inj.
  - by intros <-%Ret_inj.
  - intros H. split; [by destruct (settle_stats _ _ H) as (_ & Hc & _)|].
    unfold settle in H. destruct (dropCells _ _) as [g| |]; [|done..].
    simpl in H. apply Ret_inj in H. subst st'.
    unfold fillEmptySpaces. apply (setTimeout_fill_pending (set_grid g st)).
  - intros H. split; [by destruct (fillEmpty_stats _ _ H) as (_ & Hc & _)|].
    unfold comboPending. by rewrite (fillEmpty_tasks _ _ H).
  - intros <-%Ret_inj.
    split; [by destruct (powerUpExpire_stats id st) as (_ & Hc & _)|].
    apply powerUpExpire_pending.
  - intros <-%Ret_inj.
    split; [by destruct (spawnPowerUps_stats st) as (_ & Hc & _)|].
    apply spawnPowerUps_pending.
Qed.

Lemma fire_combo (st st' : Game) :
  fire st = Some st' -> combo st = comboPending st -> combo st' = comboPending st'.
Proof.
  intros Hfire Hok.
  destruct (fire_split _ _ Hfire) as (t & l1 & l2 & st1 & st2 & Hts & Hst1 & Hcb & Hcase).
  assert (combo st1 = combo st
          ∧ comboPending st = comboPending st1 + comboOf [t]) as [Hc1 Hp1].
  { subst st1. split; [done|]. unfold comboPending. simpl. rewrite Hts.
    change (t :: l2) with ([t] ++ l2). rewrite !comboOf_app. lia. }
  clear Hst1. rewrite comboOf_single in Hp1.
  pose proof (comboOf_nonneg (tasks st1)) as Hnn. fold (comboPending st1) in Hnn.
  destruct Hcase as [[Hc ->] | (id & Hc & -> & Hcase)].
  - destruct (decide (cb t = CbComboDecay)) as [Hd|Hd].
    { rewrite Hd in *. simpl in Hcb. apply Ret_inj in Hcb. subst st2.
      unfold comboDecay. rewrite decide_True by lia. simpl.
      change (comboPending (set_combo _ st1)) with (comboPending st1). lia. }
    destruct (decide (cb t = CbComboBoostEnd)) as [Hb|Hb].
    { rewrite Hb in *. simpl in Hcb. apply Ret_inj in Hcb. subst st2.
      unfold comboBoostEnd. simpl.
      change (comboPending (set_combo _ st1)) with (comboPending st1). lia. }
    destruct (runCallback_combo _ _ _ Hd Hb Hcb) as [Hc2 Hp2].
    destruct (cb t); try done; lia.
  - rewrite Hc in Hp1.
    destruct (timerTick_combo st1) as [Hc2 Hp2]. unfold samePending in Hp2.
    destruct Hcase as [[_ ->] | [_ ->]]; [|lia].
    unfold comboPending in *. simpl. rewrite comboOf_app, comboOf_single. simpl. lia.
Qed.

Lemma resetGame_combo (st : Game) :
  combo (resetGame st) = 0 ∧ samePending st (resetGame st).
Proof.
  split.
  - unfold resetGame. cbv zeta. set (st1 := clearPowerUps _).
    assert (combo st1 = 0) as H1 by done. clearbody st1.
    assert (sameStats st1 (initializeGrid (_stopTimer st1)))
      as (_ & Hc & _) by stats_chain.
    congruence.
  - unfold resetGame. cbv zeta. pending_chain.
Qed.

Lemma startGame_combo (st : Game) :
  combo (startGame st) = 0 ∧ samePending st (startGame st).
Proof.
  split; [by destruct (startGame_fields st) as (_ & Hc & _)|].
  unfold startGame. cbv zeta. pending_chain.
Qed.

Lemma showRewardedVideo_stats (st : Game) :
  combo (showRewardedVideo st) = combo st ∧ samePending st (showRewardedVideo st).
Proof.
  unfold showRewardedVideo. split.
  - by destruct (stopTimer_stats (set_isPaused true st)) as (_ & Hc & _).
  - pending_chain.
Qed.

Lemma giveReward_combo (st : Game) :
  combo (giveReward st) = combo st ∧ samePending st (giveReward st).
Proof.
  unfold giveReward. cbv zeta. split.
  - by destruct (startTimer_stats
                   (set_isPaused false (set_timeLeft (timeLeft st + 20) st)))
      as (_ & Hc & _).
  - pending_chain.
Qed.

Lemma perform_combo (a : action) (st st' : Game) :
  perform a st = Some st' -> combo st = comboPending st ->
  (restarts (After 0 a) = true -> comboPending st = 0) ->
  combo st' = comboPending st'.
Proof.
  intros Hrun Hok Hcalm. destruct a; simpl in Hrun, Hcalm.
  - destruct (in_bounds _ _ _); [|done].
    destruct (handleCellClick row col st) as [s| |] eqn:E; [|done..].
    apply (inj Some) in Hrun. subst s.
    pose proof (handleCellClick_combo _ _ _ _ E). lia.
  - apply (inj Some) in Hrun. subst st'. specialize (Hcalm eq_refl).
    unfold handleStartButton. destruct (_startCooldown st); [done|]. cbv zeta.
    set (st1 := setTimeout _ _ _).
    assert (samePending st st1) as H1 by (unfold st1; pending_chain).
    unfold samePending in H1. clearbody st1.
    destruct (negb _ || _).
    + destruct (startGame_combo st1) as [Hc Hp]. unfold samePending in Hp. lia.
    + destruct (resetGame_combo st1) as [_ Hp1]. unfold samePending in Hp1.
      destruct (startGame_combo (resetGame st1)) as [Hc Hp].
      unfold samePending in Hp. lia.
  - destruct (isPlaying st); [|done]. apply (inj Some) in Hrun. subst st'.
    destruct (pauseGame_stats st) as (_ & Hc & _).
    assert (samePending st (pauseGame st)) as Hp.
    { unfold pauseGame. destruct (isPaused st); pending_chain. }
    unfold samePending in Hp. lia.
  - apply (inj Some) in Hrun. subst st'. specialize (Hcalm eq_refl).
    destruct (resetGame_combo st) as [Hc Hp]. unfold samePending in Hp. lia.
  - apply (inj Some) in Hrun. subst st'. unfold shuffleGrid.
    destruct (initializeGrid_stats st) as (_ & Hc & _).
    pose proof (initializeGrid_pending st) as Hp. unfold samePending in Hp. lia.
  - destruct (list_find _ _) as [[i p]|]; [|done]. simpl in Hrun.
    destruct (activatePowerUp p.2 el st) as [s| |] eqn:E; [|done..].
    apply (inj Some) in Hrun. subst s.
    pose proof (activatePowerUp_combo _ _ _ _ E). lia.
  - apply (inj Some) in Hrun. subst st'.
    destruct (showRewardedVideo_stats st) as [Hc Hp]. unfold samePending in Hp. lia.
  - apply (inj Some) in Hrun. subst st'.
    destruct (giveReward_combo st) as [Hc Hp]. unfold samePending in Hp. lia.
Qed.

Lemma step_combo (e : event) (st st' : Game) :
  step e st = Some st' -> combo st = comboPending st ->
  (restarts e = true -> comboPending st = 0) ->
  combo st' = comboPending st'.
Proof.
  destruct e as [|delay a]; simpl.
  - intros H Hok _. by eapply fire_combo.
  - case_decide as Hd; [|done]. intros Hrun Hok Hcalm.
    eapply perform_combo; [exact Hrun|exact Hok|].
    intros Hr. apply Hcalm. by destruct a.
Qed.

(** X20. As long as Start and Reset are only clicked while no combo
    decay and no boost expiry is pending, the combo is accounted for
    by the pending callbacks: it equals the number of pending combo
    decays plus 3 for each pending boost expiry. Each match and each
    boost is taken back by its own callback, the decay never has to
    clamp, and the combo is never negative. This holds along every
    such run from a state where it holds, the state at boot among
    them. *)
Theorem combo_counts_pending (es : list event) (st st' : Game) :
  combo st = comboPending st -> calm es st -> run es st = Some st' ->
  combo st' = comboPending st' ∧ 0 <= combo st'.
Proof.
  revert st. induction es as [|e es IH]; intros st Hok Hcalm Hrun.
  - apply (inj Some) in Hrun. subst st'. split; [done|].
    rewrite Hok. apply comboOf_nonneg.
  - rewrite run_cons in Hrun. destruct Hcalm as [Hstart Hcalm].
    destruct (step e st) as [st1|] eqn:Hstep; [|done]. simpl in Hrun.
    apply (IH st1); [|done..]. by eapply step_combo.
Qed.

Lemma combo_counts_pending_witness :
  combo (default (smallGame []) (run clickTrace (newGame zeroTape)))
  = comboPending (default (smallGame []) (run clickTrace (newGame zeroTape)))
  ∧ 0 <= combo (default (smallGame []) (run clickTrace (newGame zeroTape))).
Proof.
  apply (combo_counts_pending clickTrace (newGame zeroTape)).
  - vm_compute. reflexivity.
  - vm_compute. repeat split; try done.
  - vm_compute. reflexivity.
Defined.

(** ** A playing session has time left *)

Lemma resetGame_idle (st : Game) : isPlaying (resetGame st) = false.
Proof.
  unfold resetGame. cbv zeta. set (st1 := clearPowerUps _).
  assert (isPlaying st1 = false) as H1 by done. clearbody st1.
  destruct (stopTimer_keeps st1) as (_ & Hp & _).
  destruct (initializeGrid_control (_stopTimer st1)) as (_ & Hp2 & _).
  congruence.
Qed.

Lemma activatePowerUp_timeLeft (type : powerType) (el : nat) (st st' : Game) :
  activatePowerUp type el st = Ret st' -> timeLeft st <= timeLeft st'.
Proof.
  intros H. destruct (decide (type = TimeBoost)) as [->|Hne].
  - unfold activatePowerUp in H. cbv zeta in H. apply Ret_inj in H. subst st'.
    simpl. lia.
  - destruct (activatePowerUp_quiet _ _ _ _ Hne H) as [Htl _]. lia.
Qed.

Lemma runCallback_timeLeft (c : callback) (st st' : Game) :
  (forall id, c ≠ CbTick id) -> runCallback c st = Ret st' ->
  timeLeft st' = timeLeft st.
Proof.
  intros Hc. destruct c; simpl.
  - by specialize (Hc id).
  - by intros <-%Ret_inj.
  - by intros <-%Ret_inj.
  - intros H. by destruct (settle_clock _ _ H).
  - intros H. by destruct (fillEmpty_clock _ _ H).
  - intros <-%Ret_inj. by destruct (comboDecay_clock st).
  - by intros <-%Ret_inj.
  - intros <-%Ret_inj. by destruct (powerUpExpire_clock id st).
  - intros <-%Ret_inj. by destruct (spawnPowerUps_clock st).
Qed.

Lemma timerTick_playing (st : Game) :
  (isPlaying st = true -> 0 < timeLeft st) ->
  isPlaying (timerTick st) = true -> 0 < timeLeft (timerTick st).
Proof.
  intros Hok. destruct (isPaused st) eqn:Hq.
  { unfold timerTick. by rewrite Hq. }
  rewrite (timerTick_timeLeft st Hq).
  destruct (decide (timeLeft st - 1 <= 0)) as [Hend|Hrun].
  - destruct (timerTick_ending st Hq Hend) as (Hp & _). by rewrite Hp.
  - intros _. lia.
Qed.

Lemma fire_playing (st st' : Game) :
  fire st = Some st' ->
  (isPlaying st = true -> 0 < timeLeft st) ->
  isPlaying st' = true -> 0 < timeLeft st'.
Proof.
  intros Hfire Hok.
  destruct (fire_split _ _ Hfire) as (t & l1 & l2 & st1 & st2 & _ & Hst1 & Hcb & Hcase).
  assert (isPlaying st1 = isPlaying st ∧ timeLeft st1 = timeLeft st) as [Hp1 Htl1]
    by (by subst st1).
  clear Hst1. rewrite <- Hp1, <- Htl1 in Hok.
  destruct Hcase as [[Hc ->] | (id & Hc & -> & Hcase)].
  - destruct (runCallback_timer _ _ _ Hc Hcb) as (_ & Hp2 & _).
    rewrite (runCallback_timeLeft _ _ _ Hc Hcb), Hp2. done.
  - destruct Hcase as [[_ ->] | [_ ->]]; by apply timerTick_playing.
Qed.

Lemma perform_playing (a : action) (st st' : Game) :
  perform a st = Some st' ->
  (isPlaying st = true -> 0 < timeLeft st) ->
  isPlaying st' = true -> 0 < timeLeft st'.
Proof.
  intros Hrun Hok. destruct a; simpl in Hrun.
  - destruct (in_bounds _ _ _); [|done].
    destruct (handleCellClick row col st) as [s| |] eqn:E; [|done..].
    apply (inj Some) in Hrun. subst s.
    destruct (handleCellClick_quiet _ _ _ _ E) as [Htl _].
    destruct (handleCellClick_control _ _ _ _ E) as (_ & Hp & _).
    by rewrite Htl, Hp.
  - apply (inj Some) in Hrun. subst st'. unfold handleStartButton.
    destruct (_startCooldown st); [done|]. cbv zeta. intros _.
    destruct (negb _ || _).
    + destruct (startGame_fields (setTimeout CbStartCooldown 250
                                    (set_startCooldown true st)))
        as (_ & _ & _ & Htl & _).
      rewrite Htl. lia.
    + destruct (startGame_fields
                  (resetGame (setTimeout CbStartCooldown 250
                                (set_startCooldown true st))))
        as (_ & _ & _ & Htl & _).
      rewrite Htl. lia.
  - destruct (isPlaying st) eqn:Hp0; [|done]. apply (inj Some) in Hrun. subst st'.
    destruct (pauseGame_clock st) as [Htl _]. rewrite Htl. intros _. by apply Hok.
  - apply (inj Some) in Hrun. subst st'. by rewrite resetGame_idle.
  - apply (inj Some) in Hrun. subst st'. unfold shuffleGrid.
    destruct (initializeGrid_clock st) as [Htl _].
    destruct (initializeGrid_control st) as (_ & Hp & _). by rewrite Htl, Hp.
  - destruct (list_find _ _) as [[i p]|]; [|done]. simpl in Hrun.
    destruct (activatePowerUp p.2 el st) as [s| |] eqn:E; [|done..].
    apply (inj Some) in Hrun. subst s.
    destruct (activatePowerUp_timer _ _ _ _ E) as (_ & Hp & _).
    pose proof (activatePowerUp_timeLeft _ _ _ _ E) as Htl.
    rewrite Hp. intros Hplay. specialize (Hok Hplay). lia.
  - apply (inj Some) in Hrun. subst st'. unfold showRewardedVideo.
    destruct (stopTimer_clock (set_isPaused true st)) as [Htl _].
    destruct (stopTimer_keeps (set_isPaused true st)) as (_ & Hp & _).
    rewrite Htl, Hp. done.
  - apply (inj Some) in Hrun. subst st'.
    destruct (giveReward_keeps st) as (_ & Hp & _). rewrite Hp.
    unfold giveReward. cbv zeta.
    destruct (startTimer_clock
                (set_isPaused false (set_timeLeft (timeLeft st + 20) st)))
      as [Htl _].
    rewrite Htl. simpl. intros Hplay. specialize (Hok Hplay). lia.
Qed.

(** X21. In every state a session can reach, a session that is
    playing has time left: timeLeft is at least 1. The tick that
    brings it to 0 ends the game in the same callback, and nothing
    else lowers it. *)
Theorem reachable_playing_has_time (st : Game) :
  reachable st -> isPlaying st = true -> 0 < timeLeft st.
Proof.
  revert st.
  apply (reachable_inv (fun st => isPlaying st = true -> 0 < timeLeft st)).
  - intros rnd. by destruct (newGame_fields rnd) as (g & k & -> & _).
  - intros e st st' Hok Hstep. destruct e as [|delay a]; simpl in Hstep.
    + by eapply fire_playing.
    + case_decide; [|done]. eapply perform_playing; [exact Hstep|]. exact Hok.
Qed.

Lemma reachable_playing_has_time_witness : 0 < timeLeft startedGame.
Proof.
  apply (reachable_playing_has_time startedGame).
  - exists zeroTape, startedTrace. vm_compute. reflexivity.
  - vm_compute. reflexivity.
Defined.

(** ** The score during a game *)

Lemma timerTick_score (st : Game) : score (timerTick st) = score st.
Proof.
  destruct (isPaused st) eqn:Hq; unfold timerTick; rewrite Hq; [done|].
  cbv zeta. set (st0 := set_timeLeft _ st).
  assert (score st0 = score st) as H0 by done. clearbody st0.
  set (st1 := if decide (timeLeft st0 <= 10 ∧ timeLeft st0 >= 0) then _ else _).
  assert (score st1 = score st0) as H1.
  { unfold st1. repeat case_decide; done. }
  clearbody st1. case_decide; [|congruence].
  destruct (endGame_stats st1) as (Hs & _). congruence.
Qed.

Lemma runCallback_score (c : callback) (st st' : Game) :
  runCallback c st = Ret st' -> score st' = score st.
Proof.
  destruct c; simpl.
  - intros <-%Ret_inj. apply timerTick_score.
  - by intros <-%Ret_inj.
  - by intros <-%Ret_inj.
  - intros H. by destruct (settle_stats _ _ H) as (Hs & _).
  - intros H. by destruct (fillEmpty_stats _ _ H) as (Hs & _).
  - intros <-%Ret_inj. unfold comboDecay. by case_decide.
  - by intros <-%Ret_inj.
  - intros <-%Ret_inj. by destruct (powerUpExpire_stats id st) as (Hs & _).
  - intros <-%Ret_inj. by destruct (spawnPowerUps_stats st) as (Hs & _).
Qed.

Lemma fire_score (st st' : Game) : fire st = Some st' -> score st' = score st.
Proof.
  intros Hfire.
  destruct (fire_split _ _ Hfire) as (t & l1 & l2 & st1 & st2 & _ & Hst1 & Hcb & Hcase).
  assert (score st1 = score st) as H1 by (by subst st1). clear Hst1.
  apply runCallback_score in Hcb.
  destruct Hcase as [[_ ->] | (id & _ & _ & [[_ ->] | [_ ->]])]; simpl; congruence.
Qed.

Lemma handleCellClick_score (row col : Z) (st st' : Game) :
  handleCellClick row col st = Ret st' ->
  0 <= combo st -> 0 <= level st -> score st <= score st'.
Proof.
  unfold handleCellClick. intros H Hc Hl. revert H.
  destruct (negb (isPlaying st) || isPaused st).
  { intros <-%Ret_inj. lia. }
  destruct (grid_at _ _ _) as [digit| |]; simpl; [|done..].
  destruct (findConnectedCells _ _ _ _ _) as [cells| |]; simpl; [|done..].
  case_decide as Hn; [|intros <-%Ret_inj; simpl; lia].
  cbv zeta.
  destruct (destroyCells_stats cells st) as (Hs1 & Hc1 & Hl1 & _).
  set (st1 := destroyCells cells st) in *. clearbody st1.
  assert (score (setTimeout CbSettle 500 (calculateScore (Z.of_nat (length cells)) st1))
          = score st1 + (Z.of_nat (length cells) * 10
                         + Z.max 0 ((Z.of_nat (length cells) - 2) * 15)
                         + combo st1 * 5 + level st1 * 2)) as Hs2 by done.
  set (st3 := setTimeout CbSettle 500 _) in *. clearbody st3.
  case_decide; intros <-%Ret_inj; simpl; lia.
Qed.

Lemma activatePowerUp_score (type : powerType) (el : nat) (st st' : Game) :
  activatePowerUp type el st = Ret st' -> score st <= score st'.
Proof.
  unfold activatePowerUp. cbv zeta. set (st0 := set_powerUps _ st).
  assert (score st0 = score st) as H0 by done. rewrite <- H0. clearbody st0.
  destruct type.
  - intros <-%Ret_inj. simpl. lia.
  - intros <-%Ret_inj. unfold explodeRandomCells.
    pose proof (pickCells_state 8 [] st0) as Hst.
    destruct (pickCells 8 [] st0) as [cells st1]. simpl in Hst. subst st1.
    cbv zeta. rewrite destroyCells_tasks. simpl. case_decide; simpl; lia.
  - case_decide; intros <-%Ret_inj; simpl; lia.
  - intros <-%Ret_inj. simpl. lia.
  - unfold clearRandomDigit. rewrite (surjective_pairing (floorRandom 10 st0)).
    rewrite floorRandom_state.
    destruct (cellsHolding _ _ _) as [cells| |]; simpl; [|done..].
    case_decide; intros <-%Ret_inj; [|simpl; lia].
    cbv zeta. rewrite destroyCells_tasks. simpl. case_decide; simpl; lia.
Qed.

Lemma step_score (e : event) (st st' : Game) :
  step e st = Some st' -> restarts e = false ->
  0 <= combo st -> 0 <= level st -> score st <= score st'.
Proof.
  destruct e as [|delay a]; simpl.
  { intros H _ _ _. rewrite (fire_score _ _ H). lia. }
  case_decide as Hd; [|done].
  set (st0 := set_now (now st + delay) st).
  assert (score st0 = score st ∧ combo st0 = combo st ∧ level st0 = level st)
    as (Hs & Hc & Hl) by done.
  rewrite <- Hs, <- Hc, <- Hl. clearbody st0.
  destruct a; simpl; try done.
  - destruct (in_bounds _ _ _); [|done].
    destruct (handleCellClick row col st0) as [s| |] eqn:E; [|done..].
    intros [= <-] _. by eapply handleCellClick_score.
  - destruct (isPlaying st0); [|done]. intros [= <-] _ _ _.
    destruct (pauseGame_stats st0) as (Hs' & _). lia.
  - intros [= <-] _ _ _. unfold shuffleGrid.
    destruct (initializeGrid_stats st0) as (Hs' & _). lia.
  - destruct (list_find _ _) as [[i p]|]; [|done]. simpl.
    destruct (activatePowerUp p.2 el st0) as [s| |] eqn:E; [|done..].
    intros [= <-] _ _ _. by eapply activatePowerUp_score.
  - intros [= <-] _ _ _. unfold showRewardedVideo.
    destruct (stopTimer_stats (set_isPaused true st0)) as (Hs' & _).
    rewrite Hs'. simpl. lia.
  - intros [= <-] _ _ _. unfold giveReward. cbv zeta.
    destruct (startTimer_stats
                (set_isPaused false (set_timeLeft (timeLeft st0 + 20) st0)))
      as (Hs' & _).
    rewrite Hs'. simpl. lia.
Qed.

Lemma step_level_up (e : event) (st st' : Game) :
  step e st = Some st' -> restarts e = false -> level st <= level st'.
Proof.
  intros Hstep Hr. pose proof (level_per_event_all e st st' Hstep) as H.
  destruct e as [|delay a]; [lia|]. destruct a; simpl in *; try done; lia.
Qed.

(** X22. Along a run without a click on Start or Reset, from a
    state where the combo is accounted for by its pending callbacks
    and the level is not negative, the score never decreases: timers
    leave it alone, and every match and power-up adds to it. *)
Theorem score_never_decreases (es : list event) (st st' : Game) :
  combo st = comboPending st -> 0 <= level st ->
  Forall (fun e => restarts e = false) es ->
  run es st = Some st' ->
  score st <= score st'.
Proof.
  revert st. induction es as [|e es IH]; intros st Hc Hl Hes Hrun.
  - apply (inj Some) in Hrun. subst st'. lia.
  - rewrite run_cons in Hrun. apply Forall_cons in Hes as [He Hes].
    destruct (step e st) as [st1|] eqn:Hstep; [|done]. simpl in Hrun.
    assert (0 <= combo st) as Hc0 by (rewrite Hc; apply comboOf_nonneg).
    pose proof (step_score _ _ _ Hstep He Hc0 Hl) as Hs.
    pose proof (step_level_up _ _ _ Hstep He) as Hl1.
    assert (combo st1 = comboPending st1) as Hc1.
    { eapply step_combo; [exact Hstep|exact Hc|]. by rewrite He. }
    specialize (IH st1 Hc1). etrans; [exact Hs|]. apply IH; [lia|done..].
Qed.

Lemma score_never_decreases_witness :
  score startedGame
  <= score (default startedGame (run [After 100 (ClickCell 0 0); Fire] startedGame)).
Proof.
  apply (score_never_decreases [After 100 (ClickCell 0 0); Fire] startedGame).
  - vm_compute. reflexivity.
  - vm_compute. discriminate.
  - repeat constructor.
  - vm_compute. reflexivity.
Defined.

(** ** Pause and resume, with the timers that fire meanwhile *)

(** A timer that fires while no run of the interval is pending is a
    timeout: it leaves the countdown controls, the score, the level
    and the time left alone. *)
Lemma fire_paused (st st' : Game) :
  fire st = Some st' -> pendingTicks st = [] ->
  sameTimer st st' ∧ score st' = score st ∧ level st' = level st
  ∧ timeLeft st' = timeLeft st.
Proof.
  intros Hfire Hk.
  destruct (fire_split _ _ Hfire)
    as (t & l1 & l2 & st1 & st2 & Hts & Hst1 & Hcb & Hcase).
  assert (forall id, cb t ≠ CbTick id) as Hc.
  { intros id Hid. assert (t ∈ pendingTicks st) as Hin.
    { unfold pendingTicks. apply list_elem_of_filter.
      split; [apply isTick_cb; eauto|]. rewrite Hts. set_solver. }
    rewrite Hk in Hin. by apply elem_of_nil in Hin. }
  destruct Hcase as [[_ ->] | (id & Hid & _)]; [|by destruct (Hc id)].
  assert (~ isTick t) as Hnt.
  { intros [id Hid]%isTick_cb. by apply (Hc id). }
  assert (pendingTicks st1 = pendingTicks st) as Hk1.
  { subst st1. unfold pendingTicks. simpl. rewrite Hts, !filter_app.
    by rewrite (filter_cons_False _ t l2). }
  assert (timer st1 = timer st ∧ isPlaying st1 = isPlaying st
          ∧ isPaused st1 = isPaused st ∧ score st1 = score st
          ∧ level st1 = level st ∧ timeLeft st1 = timeLeft st)
    as (Ht1 & Hp1 & Hq1 & Hs1 & Hl1 & Htl1) by (by subst st1).
  clear Hst1.
  split.
  - apply (sameTimer_trans _ st1); [done|]. by eapply runCallback_timer.
  - rewrite (runCallback_score _ _ _ Hcb), (runCallback_level _ _ _ Hcb),
      (runCallback_timeLeft _ _ _ Hc Hcb). done.
Qed.

Lemma fires_paused (es : list event) (st st' : Game) :
  Forall (fun e => e = Fire) es -> run es st = Some st' ->
  pendingTicks st = [] ->
  sameTimer st st' ∧ score st' = score st ∧ level st' = level st
  ∧ timeLeft st' = timeLeft st.
Proof.
  revert st. induction es as [|e es IH]; intros st Hes Hrun Hk.
  - apply (inj Some) in Hrun. by subst st'.
  - apply Forall_cons in Hes as [-> Hes]. rewrite run_cons in Hrun.
    simpl in Hrun. destruct (fire st) as [st1|] eqn:Hfire; [|done].
    simpl in Hrun.
    destruct (fire_paused _ _ Hfire Hk) as (Hc1 & Hs1 & Hl1 & Ht1).
    destruct (IH st1 Hes Hrun) as (Hc2 & Hs2 & Hl2 & Ht2).
    { destruct Hc1 as (_ & _ & _ & ->). done. }
    split; [by eapply sameTimer_trans|]. split; [congruence|].
    split; congruence.
Qed.

(** An action [delay] ms later: the clock moves and the action runs. *)
Lemma step_after (delay : Z) (a : action) (st st' : Game) :
  step (After delay a) st = Some st' ->
  0 <= delay ∧ perform a (set_now (now st + delay) st) = Some st'.
Proof.
  simpl. case_decide as H; [|done]. intros Hrun. by destruct H.
Qed.



(** What the instance shows of the rest: the power-up has expired. *)
Example pause_resume_powerUp_expired :
  powerUps startedGame = [(2%nat, TimeBoost)] ∧ powerUps resumedGame = []
  ∧ now resumedGame = 7000.
Proof. vm_compute. done. Qed.

(** ** The rewarded video, with the timers that fire meanwhile *)

(** X18. Opening the rewarded video pauses the session and cancels
    the countdown interval (its countdown being consistent), and the
    timeouts that fire during the video do not bring it back: at every
    moment of the video no run of the interval is pending, the time
    left is the one before the video, and the interval callback does
    nothing. The reward then adds exactly 20 seconds to the time left,
    clears the pause and starts a new interval whose first run is due
    1000 ms after it; score and level are as before the video, and
    the play flag is not touched: a reward does not set a session
    playing. If no timer fired during the video, the combo, the board,
    the power-ups and the pending timeouts are as before it as well. *)
Theorem rewarded_video_round_trip (d d' : Z) (es : list event)
    (st st1 st2 st3 : Game) :
  timerOk st ->
  step (After d WatchAd) st = Some st1 ->
  Forall (fun e => e = Fire) es -> run es st1 = Some st2 ->
  step (After d' AdReward) st2 = Some st3 ->
  (isPaused st2 = true
   ∧ timer st2 = None
   ∧ pendingTicks st2 = []
   ∧ timeLeft st2 = timeLeft st
   ∧ timerTick st2 = st2)
  ∧ (timeLeft st3 = timeLeft st + 20
     ∧ isPaused st3 = false
     ∧ isPlaying st3 = isPlaying st
     ∧ now st3 = now st2 + d'
     ∧ timer st3 = Some (nextId st2)
     ∧ pendingTicks st3 = [Task (now st3 + 1000) (CbTick (nextId st2))]
     ∧ score st3 = score st
     ∧ level st3 = level st)
  ∧ (es = [] ->
     now st3 = now st + d + d'
     ∧ timer st3 = Some (nextId st)
     ∧ combo st3 = combo st
     ∧ grid st3 = grid st
     ∧ powerUps st3 = powerUps st
     ∧ timeouts st3 = timeouts st).
Proof.
  intros Hok Hvideo Hes Hrun Hreward.
  apply step_after in Hvideo as [Hd Hvideo].
  apply step_after in Hreward as [Hd' Hreward].
  simpl in Hvideo, Hreward.
  apply (inj Some) in Hvideo. apply (inj Some) in Hreward.
  set (p := set_now (now st + d) st) in *.
  assert (timerOk p) as Hokp by (by apply timerOk_set_now).
  assert (now p = now st + d ∧ nextId p = nextId st
          ∧ score p = score st ∧ combo p = combo st ∧ level p = level st
          ∧ timeLeft p = timeLeft st ∧ isPlaying p = isPlaying st
          ∧ grid p = grid st ∧ powerUps p = powerUps st
          ∧ timeouts p = timeouts st)
    as (Hnowp & Hnp & Hsp & Hcp & Hlp & Htlp & Hpp & Hgp & Hup & Htop).
  { unfold p. rewrite timeouts_set_now. simpl. done. }
  clearbody p.
  (* the video opens *)
  destruct (showRewardedVideo_fields p Hokp)
    as (Hk1 & Ht1 & Hp1 & Hq1 & Hu1 & Hn1
        & (Hs1 & Hc1 & Hl1 & Htl1 & _ & Hnow1 & _) & Hg1).
  assert (timeouts (showRewardedVideo p) = timeouts p) as Hto1.
  { unfold showRewardedVideo. by rewrite stopTimer_timeouts. }
  rewrite Hvideo in *. clear Hvideo.
  (* the timers that fire meanwhile *)
  destruct (fires_paused es st1 st2 Hes Hrun Hk1) as (Hc2 & Hs2 & Hl2 & Htl2).
  destruct Hc2 as (Ht2 & Hp2 & Hq2 & Hk2).
  rewrite Ht1 in Ht2. rewrite Hp1 in Hp2. rewrite Hq1 in Hq2. rewrite Hk1 in Hk2.
  split.
  { split; [exact Hq2|]. split; [exact Ht2|]. split; [exact Hk2|].
    split; [congruence|]. unfold timerTick. by rewrite Hq2. }
  (* the reward *)
  set (r := set_now (now st2 + d') st2) in *.
  assert (timerOk r) as Hokr.
  { apply timerOk_set_now. unfold timerOk. by rewrite Ht2, Hk2. }
  assert (isPlaying r = isPlaying st2 ∧ now r = now st2 + d'
          ∧ nextId r = nextId st2 ∧ score r = score st2 ∧ combo r = combo st2
          ∧ level r = level st2 ∧ timeLeft r = timeLeft st2
          ∧ grid r = grid st2 ∧ powerUps r = powerUps st2
          ∧ timeouts r = timeouts st2)
    as (Hpr & Hnowr & Hnr & Hsr & Hcr & Hlr & Htlr & Hgr & Hur & Htor).
  { unfold r. rewrite timeouts_set_now. simpl. done. }
  clearbody r.
  destruct (giveReward_control r Hokr) as (Hk3 & Ht3 & Hq3 & Hp3 & Htl3).
  destruct (giveReward_keeps r) as (Hu3 & _ & _).
  assert (score (giveReward r) = score r ∧ combo (giveReward r) = combo r
          ∧ level (giveReward r) = level r ∧ now (giveReward r) = now r
          ∧ timeouts (giveReward r) = timeouts r)
    as (Hs3 & Hc3 & Hl3 & Hnow3 & Hto3).
  { unfold giveReward. cbv zeta.
    set (r1 := set_isPaused false (set_timeLeft (timeLeft r + 20) r)).
    destruct (startTimer_stats r1) as (H1 & H2 & H3 & _ & _ & H4 & _).
    rewrite H1, H2, H3, H4, startTimer_timeouts. done. }
  assert (sameBoard r (giveReward r)) as [Hg3 _].
  { unfold giveReward. cbv zeta. board_chain. }
  rewrite Hreward in *. clear Hreward.
  split.
  { split; [congruence|]. split; [exact Hq3|]. split; [congruence|].
    split; [congruence|]. split; [congruence|].
    split; [by rewrite Hk3, Hnow3, Hnr|]. split; congruence. }
  intros ->. apply (inj Some) in Hrun. subst st2.
  split; [lia|]. split; [congruence|]. split; [congruence|].
  split; [congruence|]. split; congruence.
Qed.

(** An instance: the power-up on the page expires during the video. *)
Lemma rewarded_video_round_trip_witness :
  (isPaused videoLater = true
   ∧ timer videoLater = None
   ∧ pendingTicks videoLater = []
   ∧ timeLeft videoLater = timeLeft startedGame
   ∧ timerTick videoLater = videoLater)
  ∧ (timeLeft rewardedGame = timeLeft startedGame + 20
     ∧ isPaused rewardedGame = false
     ∧ isPlaying rewardedGame = isPlaying startedGame
     ∧ now rewardedGame = now videoLater + 1000
     ∧ timer rewardedGame = Some (nextId videoLater)
     ∧ pendingTicks rewardedGame = [Task (now rewardedGame + 1000) (CbTick (nextId videoLater))]
     ∧ score rewardedGame = score startedGame
     ∧ level rewardedGame = level startedGame)
  ∧ ([Fire] = [] ->
     now rewardedGame = now startedGame + 100 + 1000
     ∧ timer rewardedGame = Some (nextId startedGame)
     ∧ combo rewardedGame = combo startedGame
     ∧ grid rewardedGame = grid startedGame
     ∧ powerUps rewardedGame = powerUps startedGame
     ∧ timeouts rewardedGame = timeouts startedGame).
Proof.
  apply (rewarded_video_round_trip 100 1000 [Fire]
           startedGame videoGame videoLater rewardedGame).
  - vm_compute. eauto.
  - vm_compute. reflexivity.
  - repeat constructor.
  - vm_compute. reflexivity.
  - vm_compute. reflexivity.
Defined.
